(** * ai-email-workflow: a shallow embedding of the quota tracker, the company
      selection, the tracking webhooks, the content parser and the two
      orchestrators, with the properties of the specification proved on it.

    Conventions of the embedding.
    - A table of the row store is the list of its rows in stored order.  A
      query is a filter, an optional ordering and an optional [limit]; an
      update rewrites the rows a predicate selects and returns them.  Rows
      that the keys of an ordering do not tell apart come in an order of the
      store's choosing: a query that orders companies or templates takes
      the store's answer [Select], which is an error or the [rank] the
      store gives the rows for this request.
    - The store is reached over HTTP and every request may come back with an
      error object.  A function that issues store requests takes a fault
      plan [f : Faults]: [f k] is the error message of its [k]-th request
      (counted from 0 in program order), or [None] when that request
      succeeds.  A failed request leaves the tables as they were.
    - A JavaScript exception is the [Err] case of [result]; an [async]
      function over the store is a state transformer [M A].
    - Calendar dates are day numbers (UTC), instants are numbers of
      milliseconds, row identifiers (UUIDs) are integers; [now] is the
      instant [new Date()] yields during the call. *)

From Stdlib Require Import ZArith List String Bool Lia Arith DecimalString.
From Stdlib Require Import Sorted Permutation.
Import ListNotations.
Open Scope string_scope.
Open Scope list_scope.
Open Scope Z_scope.

(** ** Errors and results *)

Definition Id := Z.
Definition Date := Z.
Definition Timestamp := Z.

(** What the JavaScript code throws.
    - [StoreError m]: the error object of a failed store request, [m] its
      [message];
    - [NoScheduleFound d]: [new Error(`No email schedule found for date ${d}`)];
    - [EmailLimitReached d]: [new Error(`Email limit reached for date ${d}`)],
      the specification's [QuotaExceeded];
    - [ServiceError m]: an error thrown by an external collaborator (content
      generation, delivery, discovery, verification);
    - [TypeError m]: the run-time error of reading a property of [undefined]
      or [null];
    - [RangeError m]: the run-time error of [toISOString] on an invalid
      date. *)
Inductive Error : Type :=
| StoreError (message : string)
| NoScheduleFound (d : Date)
| EmailLimitReached (d : Date)
| ServiceError (message : string)
| TypeError (message : string)
| RangeError (message : string).

Definition QuotaExceeded : Date -> Error := EmailLimitReached.

Inductive result (A : Type) : Type :=
| Ok (a : A)
| Err (e : Error).
Arguments Ok {A} a.
Arguments Err {A} e.

Definition Faults := nat -> option string.

Definition no_faults : Faults := fun _ => None.

(** The plan seen by a callee whose first request is the caller's [n]-th. *)
Definition shift (n : nat) (f : Faults) : Faults := fun k => f (n + k)%nat.

(** A text whose characters the code inspects is the sequence of its UTF-16
    code units; identifiers and messages the code only compares or copies
    are [string]s. *)
Definition JsString := list N.

Definition js (s : string) : JsString :=
  map Ascii.N_of_ascii (list_ascii_of_string s).

(** A string in a condition: [undefined], [null] and [""] are falsy. *)
Definition truthy (s : option string) : bool :=
  match s with
  | Some s => negb (s =? "")%string
  | None => false
  end.

(** ** Rows of the tables (schema.sql) *)

Record Company := mkCompany {
  company_id_ : Id;
  company_name : string;
  website : option string;
  contact_email : option string;
  email_verified : bool;
  priority : Z;
  company_status : string;
  company_created_at : Timestamp;
  company_updated_at : Timestamp
}.

Record Email := mkEmail {
  email_id : Id;
  company_id : Id;
  subject : JsString;
  body : JsString;
  sent_at : option Timestamp;
  opened_at : option Timestamp;
  clicked_at : option Timestamp;
  email_status : string;
  email_provider : string;
  message_id : option string;
  template_used : string;
  email_updated_at : Timestamp
}.

Record Schedule := mkSchedule {
  schedule_id : Id;
  scheduled_date : Date;
  emails_limit : Z;
  emails_sent : Z;
  is_completed : bool;
  schedule_updated_at : Timestamp
}.

Record Template := mkTemplate {
  template_name : string;
  subject_template : string;
  body_template : string;
  is_active : bool;
  template_created_at : Timestamp
}.

Record Db := mkDb {
  companies : list Company;
  emails : list Email;
  email_schedule : list Schedule;
  email_templates : list Template
}.

Definition with_companies (t : list Company) (db : Db) : Db :=
  mkDb t (emails db) (email_schedule db) (email_templates db).
Definition with_emails (t : list Email) (db : Db) : Db :=
  mkDb (companies db) t (email_schedule db) (email_templates db).
Definition with_schedule (t : list Schedule) (db : Db) : Db :=
  mkDb (companies db) (emails db) t (email_templates db).

(** ** The monad of store programs *)

Definition M (A : Type) : Type := Db -> Db * result A.

Definition ret {A} (a : A) : M A := fun db => (db, Ok a).
Definition throw {A} (e : Error) : M A := fun db => (db, Err e).
Definition bind {A B} (m : M A) (k : A -> M B) : M B :=
  fun db =>
    match m db with
    | (db', Ok a) => k a db'
    | (db', Err e) => (db', Err e)
    end.

Notation "x <- m ;; k" := (bind m (fun x => k))
  (at level 61, m at next level, right associativity).

(** ** Generic table operations *)

Section Table.
Context {R : Type}.

(** [update(...).eq(...)] followed by [.select()]: the rows the predicate
    selects are rewritten in place; the rewritten rows are returned. *)
Definition update_rows (p : R -> bool) (u : R -> R) (t : list R) : list R :=
  map (fun r => if p r then u r else r) t.

Definition updated_rows (p : R -> bool) (u : R -> R) (t : list R) : list R :=
  map u (filter p t).

(** [.single()]: the one row of a result, and no row (error code
    PGRST116) when the result has none or several. *)
Definition single (rows : list R) : option R :=
  match rows with
  | [r] => Some r
  | _ => None
  end.
End Table.

(** A fresh primary key, as [uuid_generate_v4()] provides one. *)
Definition fresh_id {R} (key : R -> Id) (t : list R) : Id :=
  1 + fold_right Z.max 0 (map key t).

(** ** backend/api/emailSchedule.js *)

Module EmailSchedule.

Section Config.
(** [parseInt(process.env.DAILY_EMAIL_LIMIT || "5", 10)] and
    [parseInt(process.env.EMAIL_WARMUP_INCREASE_RATE || "2", 10)]. *)
Variable DAILY_EMAIL_LIMIT : Z.
Variable EMAIL_WARMUP_INCREASE_RATE : Z.

Definition on_date (date : Date) (s : Schedule) : bool :=
  scheduled_date s =? date.

Definition has_id (i : Id) (s : Schedule) : bool :=
  schedule_id s =? i.

(** The row [getEmailSchedule] reads in a table. *)
Definition find_schedule (date : Date) (t : list Schedule) : option Schedule :=
  single (filter (on_date date) t).

Definition getEmailSchedule (fault : option string) (date : Date)
  : M (option Schedule) :=
  fun db =>
    match fault with
    | Some m => (db, Err (StoreError m))
    | None => (db, Ok (find_schedule date (email_schedule db)))
    end.

(** [.update(...).eq("id", i).select()] on [email_schedule]. *)
Definition update_schedule (fault : option string) (i : Id)
    (u : Schedule -> Schedule) : M (list Schedule) :=
  fun db =>
    match fault with
    | Some m => (db, Err (StoreError m))
    | None =>
        (with_schedule (update_rows (has_id i) u (email_schedule db)) db,
         Ok (updated_rows (has_id i) u (email_schedule db)))
    end.

(** [.insert([row]).select()] on [email_schedule]; the table has
    [UNIQUE(scheduled_date)], so inserting a second row for a date is
    refused by the store. *)
Definition insert_schedule (fault : option string) (date : Date)
    (limit : Z) (now : Timestamp) : M (list Schedule) :=
  fun db =>
    match fault with
    | Some m => (db, Err (StoreError m))
    | None =>
        if existsb (on_date date) (email_schedule db)
        then (db, Err (StoreError "duplicate key value violates unique constraint"))
        else
          let row := mkSchedule (fresh_id schedule_id (email_schedule db))
                                date limit 0 false now in
          (with_schedule (email_schedule db ++ [row]) db, Ok [row])
    end.

Definition set_limit (limit : Z) (now : Timestamp) (s : Schedule) : Schedule :=
  mkSchedule (schedule_id s) (scheduled_date s) limit (emails_sent s)
             (is_completed s) now.

Definition createOrUpdateEmailSchedule (f : Faults) (now : Timestamp)
    (date : Date) (limit : Z) : M (option Schedule) :=
  existingSchedule <- getEmailSchedule (f 0%nat) date ;;
  match existingSchedule with
  | Some existing =>
      data <- update_schedule (f 1%nat) (schedule_id existing)
                (set_limit limit now) ;;
      ret (hd_error data)
  | None =>
      data <- insert_schedule (f 1%nat) date limit now ;;
      ret (hd_error data)
  end.

(** The update of [incrementEmailsSent]: the new values are computed
    from the row that was read, not from the row being written. *)
Definition set_sent (read : Schedule) (now : Timestamp) (s : Schedule)
  : Schedule :=
  mkSchedule (schedule_id s) (scheduled_date s) (emails_limit s)
             (emails_sent read + 1)
             (emails_limit read <=? emails_sent read + 1) now.

Definition incrementEmailsSent (f : Faults) (now : Timestamp) (date : Date)
  : M (option Schedule) :=
  schedule <- getEmailSchedule (f 0%nat) date ;;
  match schedule with
  | None => throw (NoScheduleFound date)
  | Some s =>
      if emails_limit s <=? emails_sent s
      then throw (EmailLimitReached date)
      else
        data <- update_schedule (f 1%nat) (schedule_id s) (set_sent s now) ;;
        ret (hd_error data)
  end.

(** [.select("*").order("scheduled_date", {ascending: false}).limit(1)]:
    the row with the greatest date (of rows with the same date, which
    [UNIQUE(scheduled_date)] excludes, the first in stored order). *)
Fixpoint latest (t : list Schedule) : option Schedule :=
  match t with
  | [] => None
  | s :: t' =>
      match latest t' with
      | Some s' => if scheduled_date s' <=? scheduled_date s
                   then Some s else Some s'
      | None => Some s
      end
  end.

Definition select_latest (fault : option string) : M (option Schedule) :=
  fun db =>
    match fault with
    | Some m => (db, Err (StoreError m))
    | None => (db, Ok (latest (email_schedule db)))
    end.

(** The [for] loop of [generateEmailSchedules], from index [i] for
    [days] more iterations.  Iteration [i] reads the clock, moves the
    instant [i] days on in local time ([setDate(getDate() + i)]) and hands
    it to [createOrUpdateEmailSchedule], which reads its date in UTC
    ([toISOString]); [dates i] is that date.  It is the date of the run
    plus [i] where local days and UTC dates advance together; across a
    change of the local clock a date can come twice or be left out. *)
Fixpoint generate_loop (f : Faults) (now : Timestamp) (dates : nat -> Date)
    (days : nat) (i : nat) (currentLimit : Z) : M (list (option Schedule)) :=
  match days with
  | O => ret []
  | S days' =>
      schedule <- createOrUpdateEmailSchedule (shift (2 * i) f) now
                    (dates i) currentLimit ;;
      schedules <- generate_loop f now dates days' (S i)
                     (currentLimit + EMAIL_WARMUP_INCREASE_RATE) ;;
      ret (schedule :: schedules)
  end.

Definition generateEmailSchedules (f : Faults) (now : Timestamp)
    (dates : nat -> Date) (days : nat) : M (list (option Schedule)) :=
  latestSchedule <- select_latest (f 0%nat) ;;
  let currentLimit :=
    match latestSchedule with
    | Some l => emails_limit l + EMAIL_WARMUP_INCREASE_RATE
    | None => DAILY_EMAIL_LIMIT
    end in
  generate_loop (shift 1 f) now dates days 0 currentLimit.

Definition getRemainingEmailQuota (f : Faults) (now : Timestamp)
    (today : Date) : M Z :=
  schedule <- getEmailSchedule (f 0%nat) today ;;
  match schedule with
  | None =>
      newSchedule <- createOrUpdateEmailSchedule (shift 1 f) now today
                       DAILY_EMAIL_LIMIT ;;
      match newSchedule with
      | Some s => ret (emails_limit s)
      | None => throw (TypeError "Cannot read properties of undefined (reading 'emails_limit')")
      end
  | Some s => ret (Z.max 0 (emails_limit s - emails_sent s))
  end.

Definition canSendMoreEmails (f : Faults) (now : Timestamp) (today : Date)
  : M bool :=
  remainingQuota <- getRemainingEmailQuota f now today ;;
  ret (0 <? remainingQuota).

End Config.

End EmailSchedule.

(** ** Text of error messages *)

(** [date.toISOString().split("T")[0]]: the civil date of a day number
    (days since 1970-01-01), as [YYYY-MM-DD]. *)
Definition civil_from_days (z : Z) : Z * Z * Z :=
  let z := z + 719468 in
  let era := z / 146097 in
  let doe := z - era * 146097 in
  let yoe := (doe - doe / 1460 + doe / 36524 - doe / 146096) / 365 in
  let doy := doe - (365 * yoe + yoe / 4 - yoe / 100) in
  let mp := (5 * doy + 2) / 153 in
  let d := doy - (153 * mp + 2) / 5 + 1 in
  let m := if mp <? 10 then mp + 3 else mp - 9 in
  let y := yoe + era * 400 + (if m <=? 2 then 1 else 0) in
  (y, m, d).

Definition digit (z : Z) : string :=
  String (Ascii.ascii_of_N (48 + Z.to_N (z mod 10))) EmptyString.

Definition two_digits (z : Z) : string := (digit (z / 10) ++ digit z)%string.

Definition four_digits (z : Z) : string :=
  (two_digits (z / 100) ++ two_digits z)%string.

Definition dateString (d : Date) : string :=
  let '(y, m, dd) := civil_from_days d in
  (four_digits y ++ "-" ++ two_digits m ++ "-" ++ two_digits dd)%string.

(** The decimal text of a count, as a template literal renders it. *)
Definition decimal (n : nat) : string := NilZero.string_of_uint (Nat.to_uint n).

(** [error.message]. *)
Definition message (e : Error) : string :=
  match e with
  | StoreError m => m
  | NoScheduleFound d => ("No email schedule found for date " ++ dateString d)%string
  | EmailLimitReached d => ("Email limit reached for date " ++ dateString d)%string
  | ServiceError m => m
  | TypeError m => m
  | RangeError m => m
  end.

(** ** Ordering as the store does it for [.order(...)] *)

Section Sorting.
Context {R : Type} (le : R -> R -> bool).

Fixpoint insert_sorted (x : R) (l : list R) : list R :=
  match l with
  | [] => [x]
  | y :: l' => if le x y then x :: l else y :: insert_sorted x l'
  end.

(** A stable sort: rows the order does not tell apart keep their place. *)
Fixpoint sort_by (l : list R) : list R :=
  match l with
  | [] => []
  | x :: l' => insert_sorted x (sort_by l')
  end.
End Sorting.

(** The rows in the order [le] asks for, rows it does not tell apart in
    the order of the [rank] the store gives them for this request (rows
    of equal rank in stored order). *)
Definition store_order {R : Type} (le : R -> R -> bool) (rank : R -> Z)
    (l : list R) : list R :=
  sort_by le (sort_by (fun a b => rank a <=? rank b) l).

(** What the store answers to a query with [.order(...)]: an error, or
    the rows in the order of the query with the store's [rank] for the
    rows the query does not tell apart. *)
Inductive Select (R : Type) : Type :=
| Refused (message : string)
| Ranked (rank : R -> Z).
Arguments Refused {R} message.
Arguments Ranked {R} rank.

(** The store keeps rows of equal keys in stored order. *)
Definition in_stored_order {R : Type} : Select R := Ranked (fun _ => 0).

(** [.limit(n)]. *)
Definition limit_rows {R} (n : Z) (rows : list R) : list R :=
  firstn (Z.to_nat n) rows.

(** ** backend/api/companies.js *)

Module Companies.

Definition has_id (i : Id) (c : Company) : bool := company_id_ c =? i.

(** [.eq("email_verified", true).eq("status", "pending")]. *)
Definition ready (c : Company) : bool :=
  Bool.eqb (email_verified c) true && (company_status c =? "pending")%string.

(** [.order("priority", { ascending: true })]. *)
Definition by_priority (a b : Company) : bool := priority a <=? priority b.

(** The query of [getCompaniesForDailyEmails], which step 2 of the daily
    n8n workflow repeats: filter, order by priority only, limit.  The
    order among companies of equal priority, and with it the rows a limit
    keeps, is the store's. *)
Definition daily_query (rank : Company -> Z) (limit : Z) (t : list Company)
  : list Company :=
  limit_rows limit (store_order by_priority rank (filter ready t)).

Definition getCompaniesForDailyEmails (answer : Select Company) (limit : Z)
  : M (list Company) :=
  fun db =>
    match answer with
    | Refused m => (db, Err (StoreError m))
    | Ranked rank => (db, Ok (daily_query rank limit (companies db)))
    end.

(** [.update(updates).eq("id", id).select()] on [companies]. *)
Definition updateCompany (fault : option string) (i : Id)
    (updates : Company -> Company) : M (option Company) :=
  fun db =>
    match fault with
    | Some m => (db, Err (StoreError m))
    | None =>
        (with_companies (update_rows (has_id i) updates (companies db)) db,
         Ok (hd_error (updated_rows (has_id i) updates (companies db))))
    end.

(** [.from("companies").update(...).eq("id", i)], without [.select()]. *)
Definition update_by_id (fault : option string) (i : Id)
    (u : Company -> Company) : M unit :=
  fun db =>
    match fault with
    | Some msg => (db, Err (StoreError msg))
    | None =>
        (with_companies (update_rows (has_id i) u (companies db)) db, Ok tt)
    end.

Definition set_contacted (now : Timestamp) (c : Company) : Company :=
  mkCompany (company_id_ c) (company_name c) (website c) (contact_email c)
            (email_verified c) (priority c) "contacted"
            (company_created_at c) now.

Definition markCompanyAsContacted (fault : option string) (now : Timestamp)
    (i : Id) : M (option Company) :=
  updateCompany fault i (set_contacted now).

(** The update a bounce triggers: [{ email_verified: false, updated_at }]. *)
Definition set_unverified (now : Timestamp) (c : Company) : Company :=
  mkCompany (company_id_ c) (company_name c) (website c) (contact_email c)
            false (priority c) (company_status c)
            (company_created_at c) now.

End Companies.

(** ** backend/api/aiContentGenerator.js: parsing the generated text *)

Module ContentParser.

Local Open Scope N_scope.

(** The characters [.] does not match (no [s] flag): LF, CR, LS, PS. *)
Definition is_line_terminator (c : N) : bool :=
  (c =? 10) || (c =? 13) || (c =? 8232) || (c =? 8233).

(** The characters of [\s], which are also those [trim()] removes. *)
Definition is_space (c : N) : bool :=
  (c =? 9) || (c =? 10) || (c =? 11) || (c =? 12) || (c =? 13) ||
  (c =? 32) || (c =? 160) || (c =? 5760) ||
  ((8192 <=? c) && (c <=? 8202)) ||
  (c =? 8232) || (c =? 8233) || (c =? 8239) || (c =? 8287) ||
  (c =? 12288) || (c =? 65279).

Fixpoint trim_start (s : JsString) : JsString :=
  match s with
  | c :: s' => if is_space c then trim_start s' else s
  | [] => []
  end.

Definition trim (s : JsString) : JsString :=
  rev (trim_start (rev (trim_start s))).

Definition MARKER : JsString := js "SUBJECT:".

Definition DEFAULT_SUBJECT : JsString := js "Job Application".

(** The rest of [s] after the literal [p], when [s] starts with [p]. *)
Fixpoint strip_prefix (p s : JsString) : option JsString :=
  match p, s with
  | [], _ => Some s
  | a :: p', b :: s' => if a =? b then strip_prefix p' s' else None
  | _ :: _, [] => None
  end.

(** [(.*?)(?:\n|$)] matched at the start of [s]: the lazy group takes
    characters until a line feed or the end of the text follows; it
    cannot pass another line terminator.  Yields the group and the text
    after the match. *)
Fixpoint scan_line (s : JsString) : option (JsString * JsString) :=
  match s with
  | [] => Some ([], [])
  | c :: s' =>
      if c =? 10 then Some ([], s')
      else if is_line_terminator c then None
      else match scan_line s' with
           | Some (group, rest) => Some (c :: group, rest)
           | None => None
           end
  end.

(** [\s*(.*?)(?:\n|$)] matched at the start of [s], yielding group 1:
    the greedy [\s*] first takes a white-space character and gives it
    back when the rest then fails. *)
Fixpoint spaces_then_line (s : JsString) : option JsString :=
  match s with
  | c :: s' =>
      if is_space c
      then match spaces_then_line s' with
           | Some group => Some group
           | None => option_map fst (scan_line s)
           end
      else option_map fst (scan_line s)
  | [] => option_map fst (scan_line s)
  end.

(** [String.prototype.match] with a pattern without flags: the match is
    tried at every index from the left, the first success wins. *)
Fixpoint search {A} (at_index : JsString -> option A) (s : JsString)
  : option A :=
  match at_index s with
  | Some r => Some r
  | None =>
      match s with
      | [] => None
      | _ :: s' => search at_index s'
      end
  end.

(** Group 1 of [/SUBJECT:\s*(.*?)(?:\n|$)/]. *)
Definition subjectMatch (content : JsString) : option JsString :=
  search (fun s => match strip_prefix MARKER s with
                   | Some t => spaces_then_line t
                   | None => None
                   end) content.

(** Group 1 of the second pattern: [SUBJECT:], the lazy [.*?], then
    [(?:\n|$)], then a group that takes all the text that is left. *)
Definition bodyMatch (content : JsString) : option JsString :=
  search (fun s => match strip_prefix MARKER s with
                   | Some t => option_map snd (scan_line t)
                   | None => None
                   end) content.

Definition parseGeneratedContent (content : JsString) : JsString * JsString :=
  let subject := match subjectMatch content with
                 | Some g => trim g
                 | None => DEFAULT_SUBJECT
                 end in
  let body := match bodyMatch content with
              | Some g => trim g
              | None => content
              end in
  (subject, body).

(** The text before the first occurrence of the marker and the text
    after it; used to state what the parser returns. *)
Fixpoint first_marker (s : JsString) : option (JsString * JsString) :=
  match strip_prefix MARKER s with
  | Some t => Some ([], t)
  | None =>
      match s with
      | [] => None
      | c :: s' =>
          match first_marker s' with
          | Some (before, after) => Some (c :: before, after)
          | None => None
          end
      end
  end.

Record Content := mkContent {
  content_subject : JsString;
  content_body : JsString;
  content_raw : JsString
}.

(** [generateEmailContent]: [answer] is what the generative-text service
    returns for the prompt, the generated text or a failure. *)
Definition generateEmailContent (GEMINI_API_KEY : option string)
    (answer : result JsString) : result Content :=
  if negb (truthy GEMINI_API_KEY)
  then Err (ServiceError "Gemini API key is not set in the .env file")
  else
    match answer with
    | Err e => Err e
    | Ok generatedText =>
        let '(subject, body) := parseGeneratedContent generatedText in
        Ok (mkContent subject body generatedText)
    end.

End ContentParser.

(** ** backend/api/emailVerification.js *)

Module EmailVerification.

(** A JSON value as far as [===] against a string tells values apart. *)
Inductive JsValue : Type :=
| JUndefined
| JNull
| JBool (b : bool)
| JNumber (z : Z)
| JString (s : string).

(** [data.data] of the verification provider's answer. *)
Record VerifierData := mkVerifierData {
  v_status : JsValue;
  v_score : JsValue;
  v_result : JsValue;
  v_disposable : JsValue;
  v_webmail : JsValue;
  v_accept_all : JsValue
}.

(** The outcome of the [fetch]: a rejected promise, a response that is
    not [ok], or a response with its JSON body. *)
Inductive Response : Type :=
| FetchFailed (message : string)
| NotOk (status : nat) (statusText : string)
| Answer (data : VerifierData).

Record Verification := mkVerification {
  ver_email : string;
  isValid : bool;
  ver_status : JsValue;
  ver_score : JsValue;
  ver_result : JsValue;
  isDisposable : JsValue;
  isWebmail : JsValue;
  isAcceptAll : JsValue
}.

(** [x === "valid"]. *)
Definition strict_eq_string (x : JsValue) (s : string) : bool :=
  match x with
  | JString t => (t =? s)%string
  | _ => false
  end.

Definition verifyEmail (HUNTER_API_KEY : option string) (response : Response)
    (email : string) : result Verification :=
  if negb (truthy HUNTER_API_KEY)
  then Err (ServiceError "Hunter API key is not set in the .env file")
  else
    match response with
    | FetchFailed m => Err (ServiceError m)
    | NotOk status statusText =>
        Err (ServiceError ("Hunter API returned " ++ decimal status ++ ": "
                           ++ statusText)%string)
    | Answer data =>
        Ok (mkVerification email
              (strict_eq_string (v_status data) "valid")
              (v_status data) (v_score data) (v_result data)
              (v_disposable data) (v_webmail data) (v_accept_all data))
    end.

End EmailVerification.

(** ** The email-tracking webhook (n8n function node) *)

Module Webhook.

(** An event of the SendGrid payload: [event], [sg_message_id],
    [timestamp], [url], [reason].  The timestamp is a whole number of
    seconds, [None] when the field is missing or is not a number. *)
Record SgEvent := mkSgEvent {
  sg_event : string;
  sg_message_id : string;
  sg_timestamp : option Z;
  sg_url : option string;
  sg_reason : option string
}.

(** The payload handed to [processSendGridWebhook]. *)
Inductive Payload : Type :=
| PArray (events : list SgEvent)
| PNotArray.

(** An entry of [results]; a field the object literal does not set is
    [None]. *)
Record SgResult := mkSgResult {
  r_event : string;
  r_messageId : string;
  r_emailId : option Id;
  r_status : string;
  r_reason : option string;
  r_url : option string;
  r_error : option string
}.

(** [{ success: false, error }] or [{ success: true, message, results }]. *)
Inductive SgResponse : Type :=
| SgInvalid (error : string)
| SgProcessed (message : string) (results : list SgResult).

(** The time values a [Date] can hold: 100,000,000 days either side of
    the epoch. *)
Definition valid_time (ms : Z) : bool :=
  (-8640000000000000 <=? ms) && (ms <=? 8640000000000000).

(** [new Date(timestamp * 1000).toISOString()]: the instant, or the
    [RangeError] of an invalid date. *)
Definition event_time (timestamp : option Z) : result Timestamp :=
  match timestamp with
  | Some seconds =>
      if valid_time (seconds * 1000) then Ok (seconds * 1000)
      else Err (RangeError "Invalid time value")
  | None => Err (RangeError "Invalid time value")
  end.

Definition lift {A} (r : result A) : M A := fun db => (db, r).

Definition has_message_id (m : string) (e : Email) : bool :=
  match message_id e with
  | Some m' => (m' =? m)%string
  | None => false
  end.

Definition has_id (i : Id) (e : Email) : bool := email_id e =? i.

(** [.from("emails").select("*").eq("message_id", m).limit(1)]. *)
Definition select_by_message_id (fault : option string) (m : string)
  : M (list Email) :=
  fun db =>
    match fault with
    | Some msg => (db, Err (StoreError msg))
    | None => (db, Ok (limit_rows 1 (filter (has_message_id m) (emails db))))
    end.

(** [.from("emails").update(...).eq("id", i)]. *)
Definition update_email (fault : option string) (i : Id) (u : Email -> Email)
  : M unit :=
  fun db =>
    match fault with
    | Some msg => (db, Err (StoreError msg))
    | None => (with_emails (update_rows (has_id i) u (emails db)) db, Ok tt)
    end.

Definition set_opened (at_ now : Timestamp) (e : Email) : Email :=
  mkEmail (email_id e) (company_id e) (subject e) (body e) (sent_at e)
          (Some at_) (clicked_at e) "opened" (email_provider e)
          (message_id e) (template_used e) now.

Definition set_clicked (at_ now : Timestamp) (e : Email) : Email :=
  mkEmail (email_id e) (company_id e) (subject e) (body e) (sent_at e)
          (opened_at e) (Some at_) "clicked" (email_provider e)
          (message_id e) (template_used e) now.

Definition set_bounced (now : Timestamp) (e : Email) : Email :=
  mkEmail (email_id e) (company_id e) (subject e) (body e) (sent_at e)
          (opened_at e) (clicked_at e) "bounced" (email_provider e)
          (message_id e) (template_used e) now.

(** The body of the [try] block for one SendGrid event. *)
Definition sendgrid_try (f : Faults) (now : Timestamp) (event : SgEvent)
  : M SgResult :=
  found <- select_by_message_id (f 0%nat) (sg_message_id event) ;;
  match found with
  | [] =>
      ret (mkSgResult (sg_event event) (sg_message_id event) None
                      "skipped" (Some "Email not found") None None)
  | email :: _ =>
      if (sg_event event =? "open")%string then
        opened_at <- lift (event_time (sg_timestamp event)) ;;
        _ <- update_email (f 1%nat) (email_id email)
               (set_opened opened_at now) ;;
        ret (mkSgResult (sg_event event) (sg_message_id event)
                        (Some (email_id email)) "success" None None None)
      else if (sg_event event =? "click")%string then
        clicked_at <- lift (event_time (sg_timestamp event)) ;;
        _ <- update_email (f 1%nat) (email_id email)
               (set_clicked clicked_at now) ;;
        ret (mkSgResult (sg_event event) (sg_message_id event)
                        (Some (email_id email)) "success" None
                        (sg_url event) None)
      else if (sg_event event =? "bounce")%string then
        _ <- update_email (f 1%nat) (email_id email) (set_bounced now) ;;
        _ <- Companies.update_by_id (f 2%nat) (company_id email)
               (Companies.set_unverified now) ;;
        ret (mkSgResult (sg_event event) (sg_message_id event)
                        (Some (email_id email)) "success"
                        (sg_reason event) None None)
      else
        ret (mkSgResult (sg_event event) (sg_message_id event)
                        (Some (email_id email)) "skipped"
                        (Some "Unsupported event type") None None)
  end.

(** The entry the [catch] block pushes. *)
Definition sendgrid_error (event : SgEvent) (e : Error) : SgResult :=
  mkSgResult (sg_event event) (sg_message_id event) None "error" None None
             (Some (message e)).

(** One iteration of the loop: [try] and [catch]. *)
Definition sendgrid_event (f : Faults) (now : Timestamp) (event : SgEvent)
    (db : Db) : Db * SgResult :=
  match sendgrid_try f now event db with
  | (db', Ok r) => (db', r)
  | (db', Err e) => (db', sendgrid_error event e)
  end.

(** The [for] loop; [plans i] is the fault plan of the event at index
    [i] of the payload. *)
Fixpoint sendgrid_loop (plans : nat -> Faults) (now : Timestamp) (i : nat)
    (events : list SgEvent) (db : Db) : Db * list SgResult :=
  match events with
  | [] => (db, [])
  | event :: events' =>
      let '(db1, r) := sendgrid_event (plans i) now event db in
      let '(db2, rs) := sendgrid_loop plans now (S i) events' db1 in
      (db2, r :: rs)
  end.

Definition processSendGridWebhook (plans : nat -> Faults) (now : Timestamp)
    (payload : Payload) (db : Db) : Db * SgResponse :=
  match payload with
  | PNotArray => (db, SgInvalid "Invalid SendGrid webhook payload")
  | PArray events =>
      let '(db', results) := sendgrid_loop plans now 0 events db in
      (db', SgProcessed ("Processed " ++ decimal (List.length results)
                          ++ " SendGrid events")%string results)
  end.

(** The Mailgun payload: [event], ["message-id"], [timestamp], [url],
    [reason]; the timestamp as for SendGrid. *)
Record MgEvent := mkMgEvent {
  mg_event : string;
  mg_message_id : string;
  mg_timestamp : option Z;
  mg_url : option string;
  mg_reason : option string
}.

Record MgResult := mkMgResult {
  m_success : bool;
  m_error : option string;
  m_event : option string;
  m_messageId : string;
  m_emailId : option Id;
  m_url : option string;
  m_reason : option string
}.

Definition mailgun_try (f : Faults) (now : Timestamp) (payload : MgEvent)
  : M MgResult :=
  found <- select_by_message_id (f 0%nat) (mg_message_id payload) ;;
  match found with
  | [] =>
      ret (mkMgResult false (Some "Email not found") None
                      (mg_message_id payload) None None None)
  | email :: _ =>
      if (mg_event payload =? "opened")%string then
        opened_at <- lift (event_time (mg_timestamp payload)) ;;
        _ <- update_email (f 1%nat) (email_id email)
               (set_opened opened_at now) ;;
        ret (mkMgResult true None (Some (mg_event payload))
                        (mg_message_id payload) (Some (email_id email))
                        None None)
      else if (mg_event payload =? "clicked")%string then
        clicked_at <- lift (event_time (mg_timestamp payload)) ;;
        _ <- update_email (f 1%nat) (email_id email)
               (set_clicked clicked_at now) ;;
        ret (mkMgResult true None (Some (mg_event payload))
                        (mg_message_id payload) (Some (email_id email))
                        (mg_url payload) None)
      else if (mg_event payload =? "bounced")%string then
        _ <- update_email (f 1%nat) (email_id email) (set_bounced now) ;;
        _ <- Companies.update_by_id (f 2%nat) (company_id email)
               (Companies.set_unverified now) ;;
        ret (mkMgResult true None (Some (mg_event payload))
                        (mg_message_id payload) (Some (email_id email))
                        None (mg_reason payload))
      else
        ret (mkMgResult false
               (Some ("Unsupported event type: " ++ mg_event payload)%string)
               None (mg_message_id payload) (Some (email_id email))
               None None)
  end.

Definition processMailgunWebhook (f : Faults) (now : Timestamp)
    (payload : MgEvent) (db : Db) : Db * MgResult :=
  match mailgun_try f now payload db with
  | (db', Ok r) => (db', r)
  | (db', Err e) =>
      (db', mkMgResult false (Some (message e)) (Some (mg_event payload))
                       (mg_message_id payload) None None None)
  end.

End Webhook.

(** ** backend/api/emails.js *)

Module Emails.

(** [createEmail]: [.from("emails").insert([email]).select()], then
    [data[0]]; the store assigns the primary key. *)
Definition createEmail (fault : option string) (email : Id -> Email)
  : M Email :=
  fun db =>
    match fault with
    | Some m => (db, Err (StoreError m))
    | None =>
        let row := email (fresh_id email_id (emails db)) in
        (with_emails (emails db ++ [row]) db, Ok row)
    end.

(** The record both orchestrators insert after a send. *)
Definition sent_email (company : Company) (subject body : JsString)
    (messageId : option string) (template : string) (now : Timestamp)
    (i : Id) : Email :=
  mkEmail i (company_id_ company) subject body (Some now) None None
          "sent" "sendgrid" messageId template now.

End Emails.

(** ** What a run of an orchestrator hands back *)

(** An entry of the [results] array of the daily n8n workflow. *)
Record CompanyResult := mkCompanyResult {
  cr_company : string;
  cr_email : option string;
  cr_subject : option JsString;
  cr_status : string;
  cr_emailId : option Id;
  cr_error : option string
}.

(** The value a run returns: [undefined], [{ success: false, error }], or
    [{ success: true, message, results, schedule }] where [results] and
    [schedule] are present or not. *)
Inductive RunResult : Type :=
| Undefined
| RunFailed (error : string)
| RunDone (message : string) (results : option (list CompanyResult))
          (schedule : option Schedule).

Definition outcome_list (r : RunResult) : option (list CompanyResult) :=
  match r with
  | RunDone _ results _ => results
  | _ => None
  end.

Definition final_schedule (r : RunResult) : option Schedule :=
  match r with
  | RunDone _ _ schedule => schedule
  | _ => None
  end.

(** ** The daily email workflow (n8n function node) *)

Module DailyWorkflow.

Import ContentParser.

(** What the collaborators and the store answer while one company is
    processed: the generated text, the message identifier of the send
    ([x-message-id] or [null]), and the faults of the three store
    requests (0: insert the email record, 1: update the company,
    2: update the schedule). *)
Record CompanyIO := mkCompanyIO {
  io_generate : result JsString;
  io_send : result (option string);
  io_store : Faults
}.

(** What the store answers to the requests before the loop: the faults
    of the two schedule requests, and the answers to the two ordered
    queries. *)
Record SetupFaults := mkSetupFaults {
  f_schedule_read : option string;
  f_schedule_insert : option string;
  f_companies : Select Company;
  f_templates : Select Template
}.

Definition no_setup_faults : SetupFaults :=
  mkSetupFaults None None in_stored_order in_stored_order.

Definition default_template : Template :=
  mkTemplate "Default Template" "Job Application - {{company.name}}"
    "Create a professional and personalized email introducing myself and expressing interest in potential job opportunities at the company."
    true 0.

(** [.eq("is_active", true).order("created_at", { ascending: false }).limit(1)]. *)
Definition active_template (rank : Template -> Z) (t : list Template)
  : list Template :=
  limit_rows 1
    (store_order (fun a b => template_created_at b <=? template_created_at a)
                 rank (filter is_active t)).

(** The workflow's own [generateEmailContent]: the request to the
    generative-text service and the two patterns. *)
Definition generateEmailContent (answer : result JsString) : result Content :=
  match answer with
  | Err e => Err e
  | Ok generatedText =>
      let '(subject, body) := parseGeneratedContent generatedText in
      Ok (mkContent subject body generatedText)
  end.

Definition lift {A} (r : result A) : M A := fun db => (db, r).

(** Step 4.5: the counter is written from the schedule held in memory. *)
Definition set_counter (schedule : Schedule) (now : Timestamp) (s : Schedule)
  : Schedule :=
  mkSchedule (schedule_id s) (scheduled_date s) (emails_limit s)
             (emails_sent schedule + 1)
             (emails_limit schedule <=? emails_sent schedule + 1) now.

(** The schedule in memory after a send. *)
Definition bump (schedule : Schedule) : Schedule :=
  mkSchedule (schedule_id schedule) (scheduled_date schedule)
             (emails_limit schedule) (emails_sent schedule + 1)
             (emails_limit schedule <=? emails_sent schedule + 1)
             (schedule_updated_at schedule).

(** Steps 4.1 to 4.5 for one company: the body of the [try] block up to
    the last statement that can throw. *)
Definition company_try (io : CompanyIO) (now : Timestamp)
    (template : Template) (schedule : Schedule) (company : Company)
  : M (Content * Email) :=
  generatedContent <- lift (generateEmailContent (io_generate io)) ;;
  emailResult <- lift (io_send io) ;;
  emailRecord <- Emails.createEmail (io_store io 0%nat)
                   (Emails.sent_email company
                      (content_subject generatedContent)
                      (content_body generatedContent)
                      emailResult (template_name template) now) ;;
  _ <- Companies.update_by_id (io_store io 1%nat) (company_id_ company)
         (Companies.set_contacted now) ;;
  _ <- EmailSchedule.update_schedule (io_store io 2%nat)
         (schedule_id schedule) (set_counter schedule now) ;;
  ret (generatedContent, emailRecord).

Definition sent_result (company : Company) (c : Content) (e : Email)
  : CompanyResult :=
  mkCompanyResult (company_name company) (contact_email company)
                  (Some (content_subject c)) "sent" (Some (email_id e)) None.

Definition error_result (company : Company) (e : Error) : CompanyResult :=
  mkCompanyResult (company_name company) (contact_email company)
                  None "error" None (Some (message e)).

(** Step 4, the [for] loop with its [try], [catch] and [break];
    [ios i] serves the company at index [i]. *)
Fixpoint company_loop (ios : nat -> CompanyIO) (now : Timestamp)
    (template : Template) (i : nat) (companies : list Company)
    (schedule : Schedule) (db : Db)
  : Db * (Schedule * list CompanyResult) :=
  match companies with
  | [] => (db, (schedule, []))
  | company :: rest =>
      match company_try (ios i) now template schedule company db with
      | (db1, Ok (content, record)) =>
          let schedule' := bump schedule in
          let r := sent_result company content record in
          if is_completed schedule'
          then (db1, (schedule', [r]))
          else
            let '(db2, (s2, rs)) :=
              company_loop ios now template (S i) rest schedule' db1 in
            (db2, (s2, r :: rs))
      | (db1, Err e) =>
          let '(db2, (s2, rs)) :=
            company_loop ios now template (S i) rest schedule db1 in
          (db2, (s2, error_result company e :: rs))
      end
  end.

(** Step 1: today's schedule, created with limit 5 when there is none. *)
Definition todays_schedule (sf : SetupFaults) (now : Timestamp) (today : Date)
  : M Schedule :=
  data <- EmailSchedule.getEmailSchedule (f_schedule_read sf) today ;;
  match data with
  | None =>
      newSchedule <- EmailSchedule.insert_schedule (f_schedule_insert sf)
                       today 5 now ;;
      match newSchedule with
      | s :: _ => ret s
      | [] => throw (TypeError "newSchedule[0] is undefined")
      end
  | Some s => ret s
  end.

Definition execute (sf : SetupFaults) (ios : nat -> CompanyIO)
    (now : Timestamp) (today : Date) (db : Db) : Db * RunResult :=
  match todays_schedule sf now today db with
  | (db1, Err _) => (db1, RunFailed "Failed to get email schedule")
  | (db1, Ok schedule) =>
      if is_completed schedule || (emails_limit schedule <=? emails_sent schedule)
      then (db1, RunDone "Email limit reached for today" None (Some schedule))
      else
        let remainingQuota := emails_limit schedule - emails_sent schedule in
        match Companies.getCompaniesForDailyEmails (f_companies sf)
                remainingQuota db1 with
        | (db2, Err _) => (db2, RunFailed "Failed to get companies")
        | (db2, Ok []) => (db2, RunDone "No companies to contact today" None None)
        | (db2, Ok companies) =>
            match f_templates sf with
            | Refused _ => (db2, RunFailed "Failed to get email template")
            | Ranked rank =>
                let template :=
                  match active_template rank (email_templates db2) with
                  | t :: _ => t
                  | [] => default_template
                  end in
                let '(db3, (schedule', results)) :=
                  company_loop ios now template 0 companies schedule db2 in
                (db3, RunDone ("Processed " ++ decimal (List.length results)
                                 ++ " companies")%string
                              (Some results) (Some schedule'))
            end
        end
  end.

End DailyWorkflow.

(** ** index.js: the command-line orchestrator *)

Module Main.

Import ContentParser EmailVerification.

Record Config := mkConfig {
  DAILY_EMAIL_LIMIT : Z;
  GEMINI_API_KEY : option string;
  HUNTER_API_KEY : option string
}.

(** What the collaborators and the store answer while one company is
    processed: the address [findBestEmailForPerson] finds ([email.value],
    or [null]), the verification provider's response, the generated
    text, the message identifier [sendJobApplicationEmail] returns, and
    the faults of the store requests (0: [createEmail],
    1: [markCompanyAsContacted], 2 and 3: [incrementEmailsSent]). *)
Record CompanyIO := mkCompanyIO {
  io_find : result (option string);
  io_verify : Response;
  io_generate : result JsString;
  io_send : result (option string);
  io_store : Faults
}.

(** How the processing of a company ends, as the console reports it:
    "Successfully processed company", "Could not find email ...
    Skipping...", "Email ... is not valid. Skipping...", or the
    [console.error] of the [catch] block. *)
Inductive Outcome : Type :=
| Processed
| SkippedNoEmail
| SkippedInvalid
| Failed (e : Error).

Inductive LogLine : Type :=
| LogQuotaReached
| LogNoCompanies
| LogCompany (name : string) (o : Outcome)
| LogCompleted
| LogRunError (e : Error).

Definition lift {A} (r : result A) : M A := fun db => (db, r).

(** The block under [if (!company.email_verified)]: [Some o] when it
    ends in [continue] with outcome [o], [None] when the company goes
    on to content generation. *)
Definition verification_gate (cfg : Config) (io : CompanyIO)
    (company : Company) : M (option Outcome) :=
  if negb (email_verified company) then
    address <-
      (if negb (truthy (contact_email company)) then
         match website company with
         | None =>
             throw (TypeError "Cannot read properties of null (reading 'replace')")
         | Some _ => lift (io_find io)
         end
       else ret (contact_email company)) ;;
    match address with
    | None => ret (Some SkippedNoEmail)
    | Some a =>
        verification <- lift (verifyEmail (HUNTER_API_KEY cfg) (io_verify io) a) ;;
        if negb (isValid verification)
        then ret (Some SkippedInvalid)
        else ret None
    end
  else ret None.

(** The body of the [try] block for one company. *)
Definition company_try (cfg : Config) (io : CompanyIO) (now : Timestamp)
    (today : Date) (company : Company) : M Outcome :=
  gate <- verification_gate cfg io company ;;
  match gate with
  | Some skipped => ret skipped
  | None =>
      emailContent <- lift (generateEmailContent (GEMINI_API_KEY cfg)
                              (io_generate io)) ;;
      emailResult <- lift (io_send io) ;;
      _ <- Emails.createEmail (io_store io 0%nat)
             (Emails.sent_email company (content_subject emailContent)
                (content_body emailContent) emailResult "default" now) ;;
      _ <- Companies.markCompanyAsContacted (io_store io 1%nat) now
             (company_id_ company) ;;
      _ <- EmailSchedule.incrementEmailsSent (shift 2 (io_store io)) now today ;;
      ret Processed
  end.

(** One iteration: [try] and [catch]. *)
Definition process_company (cfg : Config) (io : CompanyIO) (now : Timestamp)
    (today : Date) (company : Company) (db : Db) : Db * Outcome :=
  match company_try cfg io now today company db with
  | (db', Ok o) => (db', o)
  | (db', Err e) => (db', Failed e)
  end.

Fixpoint company_loop (cfg : Config) (ios : nat -> CompanyIO)
    (now : Timestamp) (today : Date) (i : nat) (companies : list Company)
    (db : Db) : Db * list LogLine :=
  match companies with
  | [] => (db, [])
  | company :: rest =>
      let '(db1, o) := process_company cfg (ios i) now today company db in
      let '(db2, lines) := company_loop cfg ios now today (S i) rest db1 in
      (db2, LogCompany (company_name company) o :: lines)
  end.

(** [main]: the tables after the run, what the console reports and the
    value returned, which is [undefined] on every path. *)
Definition main (cfg : Config) (f_quota : Faults) (f_select : Select Company)
    (ios : nat -> CompanyIO) (now : Timestamp) (today : Date) (db : Db)
  : Db * (list LogLine * RunResult) :=
  match EmailSchedule.getRemainingEmailQuota (DAILY_EMAIL_LIMIT cfg)
          f_quota now today db with
  | (db1, Err e) => (db1, ([LogRunError e], Undefined))
  | (db1, Ok remainingQuota) =>
      if remainingQuota <=? 0
      then (db1, ([LogQuotaReached], Undefined))
      else
        match Companies.getCompaniesForDailyEmails f_select remainingQuota db1 with
        | (db2, Err e) => (db2, ([LogRunError e], Undefined))
        | (db2, Ok []) => (db2, ([LogNoCompanies], Undefined))
        | (db2, Ok companies) =>
            let '(db3, lines) := company_loop cfg ios now today 0 companies db2 in
            (db3, (lines ++ [LogCompleted], Undefined))
        end
  end.

End Main.

(** ** Vocabulary of the statements *)

(** A sequence of [incrementEmailsSent] calls for one date, each with its
    fault plan and clock: the tables after the last call when every call
    returned, and [None] as soon as one call threw. *)
Fixpoint increments (calls : list (Faults * Timestamp)) (date : Date) (db : Db)
  : option Db :=
  match calls with
  | [] => Some db
  | (f, now) :: calls' =>
      match EmailSchedule.incrementEmailsSent f now date db with
      | (db', Ok _) => increments calls' date db'
      | (_, Err _) => None
      end
  end.

(** The constraints of [email_schedule] in schema.sql: [id] is the primary
    key and [scheduled_date] is [UNIQUE]. *)
Definition schedule_constraints (t : list Schedule) : Prop :=
  NoDup (map schedule_id t) /\ NoDup (map scheduled_date t).

(** The row [createOrUpdateEmailSchedule] and the daily workflow insert. *)
Definition new_schedule (t : list Schedule) (date : Date) (limit : Z)
    (now : Timestamp) : Schedule :=
  mkSchedule (fresh_id schedule_id t) date limit 0 false now.

(** Sample data: one day with room for two emails. *)
Definition sample_day : Date := 20760.

Definition sample_schedule : Schedule := mkSchedule 1 sample_day 2 0 false 0.

Definition sample_db : Db := mkDb [] [] [sample_schedule] [].

Definition empty_db : Db := mkDb [] [] [] [].

(** Sample data: a day whose counter already stands at 3 of 5. *)
Definition used_schedule : Schedule := mkSchedule 4 sample_day 5 3 false 0.

Definition used_db : Db := mkDb [] [] [used_schedule] [].

(** Sample data: today's row exists (limit 5), as [getRemainingEmailQuota]
    leaves it behind, and nothing later. *)
Definition today_only_db : Db :=
  mkDb [] [] [mkSchedule 1 sample_day 5 0 false 0] [].

(** The dates of a run of the generator where local days and UTC dates
    advance together: the date of the run and the days after it. *)
Definition days_from (today : Date) : nat -> Date :=
  fun i => today + Z.of_nat i.

(** The names of the companies a run of [main] went through, in order, as
    its console shows them. *)
Fixpoint processed (lines : list Main.LogLine) : list string :=
  match lines with
  | [] => []
  | Main.LogCompany name _ :: lines' => name :: processed lines'
  | _ :: lines' => processed lines'
  end.

(** The place of a row in a list, counted from 0; the length of the list
    past its last row for a row that is not in it.  With it as the store's
    rank the rows come in the order of the list. *)
Fixpoint position {R : Type} (eq_dec : forall a b : R, {a = b} + {a <> b})
    (x : R) (l : list R) : Z :=
  match l with
  | [] => 0
  | a :: l' => if eq_dec x a then 0 else 1 + position eq_dec x l'
  end.

(** Sample data: two verified pending companies of equal priority. *)
Definition later_company : Company :=
  mkCompany 1 "Later" (Some "https://later.example") (Some "hr@later.example")
            true 3 "pending" 200 200.

Definition earlier_company : Company :=
  mkCompany 2 "Earlier" (Some "https://earlier.example")
            (Some "hr@earlier.example") true 3 "pending" 100 100.

(** A store program respects a relation on tables when every run, whether
    it returns or throws, leaves tables related to those it started from. *)
Definition respects {A} (rel : Db -> Db -> Prop) (m : M A) : Prop :=
  forall db, rel db (fst (m db)).

(** Rows of [companies] that do not carry the identifier [i] stay. *)
Definition keeps_other_companies (i : Id) (db db' : Db) : Prop :=
  forall x, In x (companies db) -> company_id_ x <> i -> In x (companies db').

Definition same_companies (db db' : Db) : Prop := companies db' = companies db.

(** Sample data: five verified pending companies and a day with quota 2. *)
Definition company (i : Id) (name : string) (p : Z) (created : Timestamp)
  : Company :=
  mkCompany i name (Some "https://example.org") (Some "jobs@example.org")
            true p "pending" created created.

Definition five_companies : list Company :=
  [ company 1 "Alpha" 3 10; company 2 "Beta" 1 20; company 3 "Gamma" 2 30;
    company 4 "Delta" 1 40; company 5 "Epsilon" 5 50 ].

Definition five_db : Db := mkDb five_companies [] [sample_schedule] [].

Definition sample_config : Main.Config :=
  Main.mkConfig 5 (Some "gemini-key") (Some "hunter-key").

Definition sample_text : JsString :=
  js "SUBJECT: Hello" ++ [10%N] ++ js "Dear team".

(** Generation and delivery answer and every store request succeeds;
    discovery and verification are not consulted for a verified company. *)
Definition all_fine : Main.CompanyIO :=
  Main.mkCompanyIO (Ok None)
    (EmailVerification.NotOk 500%nat "Internal Server Error")
    (Ok sample_text) (Ok (Some "message-1")) no_faults.



(** The email record a webhook event refers to: the first stored row with
    the event's message identifier. *)
Definition email_for (m : string) (db : Db) : option Email :=
  hd_error (filter (Webhook.has_message_id m) (emails db)).



(** Sample data: company 7 was sent two emails, with message identifiers
    "A" and "C"; no email has the identifier "B". *)
Definition contacted_company : Company :=
  mkCompany 7 "Acme" (Some "https://acme.example") (Some "jobs@acme.example")
            true 2 "contacted" 10 20.

Definition sent_record (i : Id) (m : string) : Email :=
  mkEmail i 7 (js "Hello") (js "Dear team") (Some 20) None None "sent"
          "sendgrid" (Some m) "default" 20.

Definition webhook_db : Db :=
  mkDb [contacted_company] [sent_record 1 "A"; sent_record 2 "C"] [] [].

Definition sg (kind m : string) : Webhook.SgEvent :=
  Webhook.mkSgEvent kind m (Some 1700000000) None None.

(** The store refuses the write of the third event. *)
Definition third_write_fails : nat -> Faults :=
  fun i k => if (Nat.eqb i 2 && Nat.eqb k 1)%bool then Some "write failed" else None.

(** The tables [db'] after a bounce of the email record [e], against the
    tables [db] before it: every email row with the identifier of [e] is
    bounced and there is such a row, with the message identifier of [e];
    every company row with the
    identifier [company_id e] is unverified; the companies table has the
    same rows in the same places with the same status; the rows of other
    companies and the schedule are as before. *)
Definition bounce_outcome (e : Email) (db db' : Db) : Prop :=
  (forall x, In x (emails db') -> email_id x = email_id e ->
             email_status x = "bounced")
  /\ (exists x, In x (emails db') /\ email_id x = email_id e
                /\ message_id x = message_id e)
  /\ (forall c, In c (companies db') -> company_id_ c = company_id e ->
                email_verified c = false)
  /\ map company_id_ (companies db') = map company_id_ (companies db)
  /\ map company_status (companies db') = map company_status (companies db)
  /\ (forall c, In c (companies db) -> company_id_ c <> company_id e ->
                In c (companies db'))
  /\ email_schedule db' = email_schedule db.

(** Sample responses of the generative-text service. *)
Definition LF : JsString := [10%N].
Definition CRLF : JsString := [13%N; 10%N].

Definition blank_subject_text : JsString :=
  js "SUBJECT:" ++ LF ++ js "Hello" ++ LF ++ js "World".

Definition crlf_text : JsString := js "SUBJECT: Hi" ++ CRLF ++ js "Body".

Definition not_terminator (c : N) : bool :=
  negb (ContentParser.is_line_terminator c).

Definition not_space (c : N) : bool := negb (ContentParser.is_space c).

(** Sample data: a company whose address was never verified, and the
    verification provider classifying that address as accept-all. *)
Definition unverified_company : Company :=
  mkCompany 9 "Initech" (Some "https://initech.example")
            (Some "jobs@initech.example") false 1 "pending" 5 5.

Definition accept_all_answer : EmailVerification.VerifierData :=
  EmailVerification.mkVerifierData
    (EmailVerification.JString "accept_all") (EmailVerification.JNumber 60)
    (EmailVerification.JString "risky") (EmailVerification.JBool false)
    (EmailVerification.JBool false) (EmailVerification.JBool true).

Definition accept_all_io : Main.CompanyIO :=
  Main.mkCompanyIO (Ok None) (EmailVerification.Answer accept_all_answer)
    (Ok sample_text) (Ok (Some "message-1")) no_faults.

Definition unverified_db : Db :=
  mkDb [unverified_company] [] [sample_schedule] [].

(** Sample data: the same company with its address marked verified in the
    store, for which the provider would still answer accept-all. *)
Definition trusted_company : Company :=
  mkCompany 9 "Initech" (Some "https://initech.example")
            (Some "jobs@initech.example") true 1 "pending" 5 5.

Definition trusted_db : Db :=
  mkDb [trusted_company] [] [sample_schedule] [].

(** Sample runs in which the delivery service refuses the first company. *)
Definition send_refused : Error := ServiceError "delivery failed".

Definition workflow_ios : nat -> DailyWorkflow.CompanyIO :=
  fun i =>
    DailyWorkflow.mkCompanyIO (Ok sample_text)
      (if Nat.eqb i 0 then Err send_refused else Ok (Some "message-1"))
      no_faults.

Definition main_ios : nat -> Main.CompanyIO :=
  fun i =>
    Main.mkCompanyIO (Ok None)
      (EmailVerification.NotOk 500%nat "Internal Server Error")
      (Ok sample_text)
      (if Nat.eqb i 0 then Err send_refused else Ok (Some "message-1"))
      no_faults.

Definition beta : Company := company 2 "Beta" 1 20.
Definition delta : Company := company 4 "Delta" 1 40.

(** The template the daily workflow uses for the rows of a store. *)
Definition template_of (rank : Template -> Z) (db : Db) : Template :=
  match DailyWorkflow.active_template rank (email_templates db) with
  | t :: _ => t
  | [] => DailyWorkflow.default_template
  end.

(** * More of the repository *)

(** The error of [.single()] when the result has no row or several (code
    PGRST116); the text of its message is the store's. *)
Definition no_single_row : Error :=
  StoreError "JSON object requested, multiple (or no) rows returned".

(** Whether a run of a store program returned (rather than threw). *)
Definition returned {A} (run : Db * result A) : bool :=
  match snd run with
  | Ok _ => true
  | Err _ => false
  end.

(** Sample data: a day used up, two of two, with eligible companies left. *)
Definition full_schedule : Schedule := mkSchedule 1 sample_day 2 2 true 0.

Definition full_day_db : Db := mkDb five_companies [] [full_schedule] [].

(** ** backend/api/companies.js: the other functions *)

Module CompaniesApi.

(** The [filters] object of [getCompanies]; an absent property is [None]. *)
Record Filters := mkFilters {
  f_status : option string;
  f_priority : option Z;
  f_emailVerified : option bool;
  f_limit : option Z;
  f_offset : option Z
}.

Definition no_filters : Filters := mkFilters None None None None None.

(** A number in a condition: [undefined] and [0] are falsy. *)
Definition truthy_number (n : option Z) : bool :=
  match n with
  | Some z => negb (z =? 0)
  | None => false
  end.

Definition where_status (filters : Filters) (t : list Company) : list Company :=
  match f_status filters with
  | Some s =>
      if truthy (Some s)
      then filter (fun c => (company_status c =? s)%string) t
      else t
  | None => t
  end.

Definition where_priority (filters : Filters) (t : list Company) : list Company :=
  match f_priority filters with
  | Some p =>
      if truthy_number (Some p) then filter (fun c => priority c =? p) t else t
  | None => t
  end.

(** [filters.emailVerified !== undefined]: [false] is a filter too. *)
Definition where_verified (filters : Filters) (t : list Company) : list Company :=
  match f_emailVerified filters with
  | Some b => filter (fun c => Bool.eqb (email_verified c) b) t
  | None => t
  end.

(** [.order("priority", { ascending: true }).order("created_at", { ascending: true })]. *)
Definition by_priority_then_created (a b : Company) : bool :=
  (priority a <? priority b)
  || ((priority a =? priority b)
      && (company_created_at a <=? company_created_at b)).

Definition with_limit (filters : Filters) (rows : list Company) : list Company :=
  match f_limit filters with
  | Some n => if truthy_number (Some n) then limit_rows n rows else rows
  | None => rows
  end.

Section Client.
(** What the store client makes of [query.offset(n)] while the query is
    built: an exception, or a change to the rows the query returns; the
    client is not part of the repository. *)
Variable client_offset : Z -> result (list Company -> list Company).

(** The rows the two [order] calls leave in an order of the store's
    choosing are those equal in priority and time of creation. *)
Definition getCompanies (answer : Select Company) (filters : Filters)
  : M (list Company) :=
  fun db =>
    let query :=
      match f_offset filters with
      | Some n =>
          if truthy_number (Some n) then client_offset n
          else Ok (fun rows => rows)
      | None => Ok (fun rows => rows)
      end in
    match query with
    | Err e => (db, Err e)
    | Ok with_offset =>
        match answer with
        | Refused m => (db, Err (StoreError m))
        | Ranked rank =>
            (db, Ok (with_offset
                       (with_limit filters
                          (store_order by_priority_then_created rank
                             (where_verified filters
                                (where_priority filters
                                   (where_status filters (companies db))))))))
        end
    end.
End Client.

(** [getCompanyById]: [.eq("id", id).single()], every error thrown. *)
Definition getCompanyById (fault : option string) (i : Id) : M Company :=
  fun db =>
    match fault with
    | Some m => (db, Err (StoreError m))
    | None =>
        match single (filter (Companies.has_id i) (companies db)) with
        | Some c => (db, Ok c)
        | None => (db, Err no_single_row)
        end
    end.

(** The object handed to [createCompany]: the columns schema.sql gives no
    default ([name] is [NOT NULL]) or a default the caller may override;
    the store assigns [id], [created_at] and [updated_at]. *)
Record NewCompany := mkNewCompany {
  new_name : string;
  new_website : option string;
  new_contact_email : option string;
  new_email_verified : option bool;
  new_priority : option Z;
  new_status : option string
}.

Definition or_default {A} (o : option A) (d : A) : A :=
  match o with
  | Some a => a
  | None => d
  end.

(** The row the store makes of the one object of an insert: a column the
    object does not name takes its default, [email_verified DEFAULT FALSE],
    [priority DEFAULT 3], [status DEFAULT 'pending']. *)
Definition stored (n : NewCompany) (i : Id) (now : Timestamp) : Company :=
  mkCompany i (new_name n) (new_website n) (new_contact_email n)
            (or_default (new_email_verified n) false)
            (or_default (new_priority n) 3)
            (or_default (new_status n) "pending") now now.


(** [deleteCompany]: [.delete().eq("id", id)]; the emails of the company
    go with it ([ON DELETE CASCADE] in schema.sql). *)
Definition deleteCompany (fault : option string) (i : Id) : M unit :=
  fun db =>
    match fault with
    | Some m => (db, Err (StoreError m))
    | None =>
        (mkDb (filter (fun c => negb (Companies.has_id i c)) (companies db))
              (filter (fun e => negb (company_id e =? i)) (emails db))
              (email_schedule db) (email_templates db),
         Ok tt)
    end.

End CompaniesApi.

(** The order [getCompanies] asks for. *)
Definition priority_then_created (a b : Company) : Prop :=
  priority a < priority b
  \/ (priority a = priority b /\ company_created_at a <= company_created_at b).

(** The rows that pass the filters of [getCompanies] that are in force. *)
Definition passes (filters : CompaniesApi.Filters) (c : Company) : Prop :=
  (forall s, CompaniesApi.f_status filters = Some s -> s <> "" ->
             company_status c = s)
  /\ (forall p, CompaniesApi.f_priority filters = Some p -> p <> 0 ->
                priority c = p)
  /\ (forall b, CompaniesApi.f_emailVerified filters = Some b ->
                email_verified c = b).

(** A client whose [offset] is never reached in the statements below. *)
Definition no_offset (n : Z) : result (list Company -> list Company) :=
  Err (TypeError "query.offset is not a function").

Definition daily_filters (limit : Z) : CompaniesApi.Filters :=
  CompaniesApi.mkFilters (Some "pending") None (Some true) (Some limit) None.

(** The companies table after a run, against the table before it: the same
    identifiers in the same places, and every row the daily query could
    select afterwards is the row that was there before, unchanged. *)
Definition pool_only_shrinks (db db' : Db) : Prop :=
  Forall2 (fun c c' => company_id_ c' = company_id_ c
                       /\ (Companies.ready c' = true -> c' = c))
          (companies db) (companies db').

(** What [pool_only_shrinks] means to the daily query. *)
Definition no_new_eligible (db db' : Db) : Prop :=
  map company_id_ (companies db') = map company_id_ (companies db)
  /\ forall rank limit c,
       In c (Companies.daily_query rank limit (companies db')) ->
       In c (companies db) /\ email_verified c = true
       /\ company_status c = "pending".

(** Sample data: a verified, pending company with an email on record. *)
Definition bounce_db : Db :=
  mkDb [company 7 "Acme" 2 10] [sent_record 1 "A"] [] [].

(** Two answers of the collaborators that differ at most in what discovery
    and verification say. *)
Definition same_but_verification (io io' : Main.CompanyIO) : Prop :=
  Main.io_generate io = Main.io_generate io'
  /\ Main.io_send io = Main.io_send io'
  /\ Main.io_store io = Main.io_store io'.

(** Like [main_ios], with discovery failing and verification rejecting. *)
Definition hostile_ios : nat -> Main.CompanyIO :=
  fun i =>
    Main.mkCompanyIO (Err (ServiceError "discovery is down"))
      (EmailVerification.Answer accept_all_answer)
      (Ok sample_text)
      (if Nat.eqb i 0 then Err send_refused else Ok (Some "message-1"))
      no_faults.

(** ** backend/api/emails.js: the other functions

    [getEmailsByCompanyId] orders by [created_at], [markEmailAsReplied]
    writes [replied_at] and [getEmailStatistics] divides counts as floating
    point numbers; the rows here carry neither column, and those three
    functions are not modelled. *)

Module EmailsApi.

(** [updateEmail]: [.update(updates).eq("id", id).select()], then
    [data[0]]; the trigger of schema.sql stamps [updated_at] on every row
    it rewrites. *)
Definition stamp (now : Timestamp) (e : Email) : Email :=
  mkEmail (email_id e) (company_id e) (subject e) (body e) (sent_at e)
          (opened_at e) (clicked_at e) (email_status e) (email_provider e)
          (message_id e) (template_used e) now.

Definition updateEmail (fault : option string) (now : Timestamp) (i : Id)
    (updates : Email -> Email) : M (option Email) :=
  fun db =>
    match fault with
    | Some m => (db, Err (StoreError m))
    | None =>
        let u := fun e => stamp now (updates e) in
        (with_emails (update_rows (Webhook.has_id i) u (emails db)) db,
         Ok (hd_error (updated_rows (Webhook.has_id i) u (emails db))))
    end.

(** [getEmailById]: [.eq("id", id).single()], every error thrown. *)
Definition getEmailById (fault : option string) (i : Id) : M Email :=
  fun db =>
    match fault with
    | Some m => (db, Err (StoreError m))
    | None =>
        match single (filter (Webhook.has_id i) (emails db)) with
        | Some e => (db, Ok e)
        | None => (db, Err no_single_row)
        end
    end.

(** [{ status: "sent", sent_at: now, message_id: messageId }]. *)
Definition as_sent (now : Timestamp) (messageId : option string) (e : Email)
  : Email :=
  mkEmail (email_id e) (company_id e) (subject e) (body e) (Some now)
          (opened_at e) (clicked_at e) "sent" (email_provider e)
          messageId (template_used e) (email_updated_at e).

Definition markEmailAsSent (fault : option string) (now : Timestamp) (i : Id)
    (messageId : option string) : M (option Email) :=
  updateEmail fault now i (as_sent now messageId).

(** [{ status: "opened", opened_at: now }]. *)
Definition as_opened (now : Timestamp) (e : Email) : Email :=
  mkEmail (email_id e) (company_id e) (subject e) (body e) (sent_at e)
          (Some now) (clicked_at e) "opened" (email_provider e)
          (message_id e) (template_used e) (email_updated_at e).

Definition markEmailAsOpened (fault : option string) (now : Timestamp) (i : Id)
  : M (option Email) :=
  updateEmail fault now i (as_opened now).

(** [{ status: "clicked", clicked_at: now }]. *)
Definition as_clicked (now : Timestamp) (e : Email) : Email :=
  mkEmail (email_id e) (company_id e) (subject e) (body e) (sent_at e)
          (opened_at e) (Some now) "clicked" (email_provider e)
          (message_id e) (template_used e) (email_updated_at e).

Definition markEmailAsClicked (fault : option string) (now : Timestamp) (i : Id)
  : M (option Email) :=
  updateEmail fault now i (as_clicked now).

(** [{ status: "bounced" }]. *)
Definition as_bounced (e : Email) : Email :=
  mkEmail (email_id e) (company_id e) (subject e) (body e) (sent_at e)
          (opened_at e) (clicked_at e) "bounced" (email_provider e)
          (message_id e) (template_used e) (email_updated_at e).

Definition markEmailAsBounced (fault : option string) (now : Timestamp) (i : Id)
  : M (option Email) :=
  updateEmail fault now i as_bounced.

End EmailsApi.

Definition email_keys (db : Db) : Prop := NoDup (map email_id (emails db)).


(** No stored email carries the message identifier [m]. *)
Definition unknown_message (m : string) (db : Db) : Prop :=
  forall e, In e (emails db) -> message_id e <> Some m.

(** Sample data: a draft written before sending. *)
Definition draft : Id -> Email :=
  fun i => mkEmail i 2 (js "Hello") (js "Dear team") None None None "draft"
                   "sendgrid" None "default" 5.

(** What a webhook may change in an email row: the tracking timestamps,
    [updated_at], and the status, which becomes one of the three tracked
    ones or stays. *)
Definition tracked (e e' : Email) : Prop :=
  email_id e' = email_id e /\ company_id e' = company_id e
  /\ subject e' = subject e /\ body e' = body e /\ sent_at e' = sent_at e
  /\ email_provider e' = email_provider e /\ message_id e' = message_id e
  /\ template_used e' = template_used e
  /\ (email_status e' = email_status e
      \/ In (email_status e') ["opened"; "clicked"; "bounced"]).

(** What a webhook may change in a company row: [updated_at], and
    [email_verified] towards [false]. *)
Definition unverified_at_most (c c' : Company) : Prop :=
  company_id_ c' = company_id_ c /\ company_name c' = company_name c
  /\ website c' = website c /\ contact_email c' = contact_email c
  /\ priority c' = priority c /\ company_status c' = company_status c
  /\ company_created_at c' = company_created_at c
  /\ (email_verified c' = true -> email_verified c = true).

Definition tracking_only (db db' : Db) : Prop :=
  Forall2 tracked (emails db) (emails db')
  /\ Forall2 unverified_at_most (companies db) (companies db')
  /\ email_schedule db' = email_schedule db
  /\ email_templates db' = email_templates db.

(** The event names the two handlers act on. *)
Definition sendgrid_names : list string := ["open"; "click"; "bounce"].
Definition mailgun_names : list string := ["opened"; "clicked"; "bounced"].

(** The store answers the lookup and the email update and refuses the
    company update with [msg]. *)
Definition company_write_fails (msg : string) : Faults :=
  fun k => if Nat.eqb k 2 then Some msg else None.


(** The entries of [results] with status [sent]. *)
Definition is_sent (r : CompanyResult) : bool := (cr_status r =? "sent")%string.

Definition sent_count (rs : list CompanyResult) : Z :=
  Z.of_nat (List.length (filter is_sent rs)).

(** The stored row [stored] and the schedule [s] a run holds in memory
    agree on everything but [updated_at]. *)
Definition in_step (stored s : Schedule) : Prop :=
  schedule_id stored = schedule_id s
  /\ scheduled_date stored = scheduled_date s
  /\ emails_limit stored = emails_limit s
  /\ emails_sent stored = emails_sent s
  /\ is_completed stored = is_completed s.

(** The counter of [today] before a run; a day without a row counts 0. *)
Definition sent_before (today : Date) (db : Db) : Z :=
  match EmailSchedule.find_schedule today (email_schedule db) with
  | Some s => emails_sent s
  | None => 0
  end.

(** ** backend/api/aiContentGenerator.js: variations *)

Module Variations.

Import ContentParser.

(** The [for] loop of [generateEmailVariations]: [answers i] is what the
    generative-text service returns to the request of iteration [i]; a
    failed iteration is logged and pushes nothing. *)
Fixpoint variations_loop (GEMINI_API_KEY : option string)
    (answers : nat -> result JsString) (i n : nat) : list Content :=
  match n with
  | O => []
  | S n' =>
      match generateEmailContent GEMINI_API_KEY (answers i) with
      | Ok content =>
          content :: variations_loop GEMINI_API_KEY answers (S i) n'
      | Err _ => variations_loop GEMINI_API_KEY answers (S i) n'
      end
  end.

(** [variations] is an integer, [None] when the argument is omitted
    (the default is 3); [i < variations] holds for no [i] when it is
    zero or negative. *)
Definition generateEmailVariations (GEMINI_API_KEY : option string)
    (answers : nat -> result JsString) (variations : option Z)
  : list Content :=
  variations_loop GEMINI_API_KEY answers 0
    (Z.to_nat (match variations with Some n => n | None => 3 end)).

End Variations.

(** The iterations below [n] whose request was answered. *)
Fixpoint answered (answers : nat -> result JsString) (i n : nat) : list JsString :=
  match n with
  | O => []
  | S n' =>
      match answers i with
      | Ok text => text :: answered answers (S i) n'
      | Err _ => answered answers (S i) n'
      end
  end.

Definition parsed (text : JsString) : ContentParser.Content :=
  ContentParser.mkContent (fst (ContentParser.parseGeneratedContent text))
                          (snd (ContentParser.parseGeneratedContent text))
                          text.

(** Sample data: the second of three requests fails. *)
Definition second_fails : nat -> result JsString :=
  fun i => if Nat.eqb i 1 then Err (ServiceError "Gemini API returned 500: ")
           else Ok sample_text.

(** What is left of [s] starts with a character that is not white space. *)
Definition starts_black (s : JsString) : Prop :=
  match s with
  | [] => True
  | c :: _ => ContentParser.is_space c = false
  end.

(** ** index.js: the domain handed to discovery *)

(** [.replace(/^https?:\/\//, "")]: the scheme, in lower case only, is
    removed from the start of the text. *)
Definition strip_scheme (s : JsString) : JsString :=
  match ContentParser.strip_prefix (js "http") s with
  | Some t =>
      match ContentParser.strip_prefix (js "s://") t with
      | Some u => u
      | None =>
          match ContentParser.strip_prefix (js "://") t with
          | Some u => u
          | None => s
          end
      end
  | None => s
  end.

Definition is_slash (c : N) : bool := (c =? 47)%N.

(** [.replace(/\/.*$/, "")]: the text is cut at the first slash that has
    no line terminator after it, the dot matching none and the dollar
    matching at the end of the text only. *)
Fixpoint cut_path (s : JsString) : JsString :=
  match s with
  | [] => []
  | c :: s' =>
      if is_slash c
         && forallb (fun x => negb (ContentParser.is_line_terminator x)) s'
      then []
      else c :: cut_path s'
  end.

Definition domain_of (website : JsString) : JsString :=
  cut_path (strip_scheme website).

(** A path is empty or starts with a slash. *)
Definition is_path (p : JsString) : Prop :=
  match p with
  | [] => True
  | c :: _ => c = 47%N
  end.

(** ** backend/api/emailSender.js *)

Module EmailSender.

(** [options.attachments]: falsy, an array, or another truthy value. *)
Inductive Attachments : Type :=
| NoAttachments
| AttachmentList (items : list string)
| NotAnArray.

Record Options := mkOptions {
  replyTo : option string;
  cc : option string;
  bcc : option string;
  attachments : Attachments
}.

Definition no_options : Options := mkOptions None None None NoAttachments.

(** The body of the request to the delivery service; a field the code
    does not set is [None]. *)
Record Payload := mkPayload {
  p_to : option string;
  p_subject : JsString;
  p_cc : option string;
  p_bcc : option string;
  p_from : string;
  p_plain : JsString;
  p_html : JsString;
  p_reply_to : option string;
  p_attachments : option (list string)
}.

(** The outcome of the [fetch]: a rejected promise, a response that is
    not [ok] with its text, or an accepted request with the value of its
    [x-message-id] header, [None] when the header is missing. *)
Inductive Response : Type :=
| FetchFailed (message : string)
| NotOk (status : nat) (errorText : string)
| Accepted (x_message_id : option string).

Definition is_lt (c : N) : bool := (c =? 60)%N.
Definition is_gt (c : N) : bool := (c =? 62)%N.

(** [body.replace(/<[^>]*>/g, "")]: from the left, each [<] that has a
    [>] somewhere after it is removed together with everything up to the
    first such [>]; [inside] tells whether a tag is being skipped. *)
Fixpoint strip (inside : bool) (s : JsString) : JsString :=
  match s with
  | [] => []
  | c :: s' =>
      if inside
      then if is_gt c then strip false s' else strip true s'
      else if is_lt c && existsb is_gt s'
           then strip true s'
           else c :: strip false s'
  end.

Definition strip_tags (s : JsString) : JsString := strip false s.

(** A text in a condition: [undefined] and the empty text are falsy. *)
Definition truthy_text (s : option JsString) : bool :=
  match s with
  | Some (_ :: _) => true
  | _ => false
  end.

(** A string option that is set only when truthy. *)
Definition when_truthy (s : option string) : option string :=
  if truthy s then s else None.

Definition payload (from : string) (to : option string)
    (subject body : JsString) (plainText : option JsString)
    (options : Options) : Payload :=
  mkPayload to subject (when_truthy (cc options)) (when_truthy (bcc options))
            from
            (match plainText with
             | Some (c :: t) => c :: t
             | _ => strip_tags body
             end)
            body
            (when_truthy (replyTo options))
            (match attachments options with
             | AttachmentList items => Some items
             | _ => None
             end).

(** [sendEmail]: the message identifier of the result, [null] when the
    header is missing or empty. *)
Definition sendEmail (SENDGRID_API_KEY SENDGRID_FROM_EMAIL : option string)
    (fetch : Payload -> Response) (to : option string)
    (subject body : JsString) (plainText : option JsString)
    (options : Options) : result (option string) :=
  match SENDGRID_FROM_EMAIL with
  | Some from =>
      if negb (truthy SENDGRID_API_KEY) || negb (truthy SENDGRID_FROM_EMAIL)
      then Err (ServiceError
                  "SendGrid API key or from email is not set in the .env file")
      else
        match fetch (payload from to subject body plainText options) with
        | FetchFailed m => Err (ServiceError m)
        | NotOk status errorText =>
            Err (ServiceError ("SendGrid API returned " ++ decimal status
                               ++ ": " ++ errorText)%string)
        | Accepted x_message_id => Ok (when_truthy x_message_id)
        end
  | None =>
      Err (ServiceError
             "SendGrid API key or from email is not set in the .env file")
  end.

Section Template.
(** [formatEmailBody] for the user data of the run: the HTML document
    around the body; its text is not inspected here. *)
Variable formatEmailBody : JsString -> JsString.

(** [sendJobApplicationEmail] as [main] calls it, without [options]:
    the generated body is both formatted and passed as plain text;
    [userEmail] is [userData.email]. *)
Definition sendJobApplicationEmail
    (SENDGRID_API_KEY SENDGRID_FROM_EMAIL : option string)
    (fetch : Payload -> Response) (company : Company)
    (emailContent : ContentParser.Content) (userEmail : option string)
  : result (option string) :=
  sendEmail SENDGRID_API_KEY SENDGRID_FROM_EMAIL fetch
            (contact_email company)
            (ContentParser.content_subject emailContent)
            (formatEmailBody (ContentParser.content_body emailContent))
            (Some (ContentParser.content_body emailContent))
            (mkOptions userEmail None None NoAttachments).
End Template.

End EmailSender.

(** A text with no tag left: no [<] with a [>] somewhere after it. *)
Fixpoint no_tag (s : JsString) : bool :=
  match s with
  | [] => true
  | c :: s' =>
      (negb (EmailSender.is_lt c) || negb (existsb EmailSender.is_gt s'))
      && no_tag s'
  end.

(** A message body read from the left as pieces: a stretch of text
    without [<], or a tag, that is [<], characters other than [>], and
    [>].  [written] is the piece as it stands in the body, [shown] what a
    reader of the plain text is to see of it. *)
Inductive Piece : Type :=
| TextPiece (t : JsString)
| TagPiece (inner : JsString).

Definition piece_ok (p : Piece) : bool :=
  match p with
  | TextPiece t => forallb (fun c => negb (EmailSender.is_lt c)) t
  | TagPiece inner => forallb (fun c => negb (EmailSender.is_gt c)) inner
  end.

Definition written (p : Piece) : JsString :=
  match p with
  | TextPiece t => t
  | TagPiece inner => [60%N] ++ inner ++ [62%N]
  end.

Definition shown (p : Piece) : JsString :=
  match p with
  | TextPiece t => t
  | TagPiece _ => []
  end.

(** Sample data: a delivery service that accepts every request without
    naming the message, and a template. *)
Definition accepts_unnamed : EmailSender.Payload -> EmailSender.Response :=
  fun _ => EmailSender.Accepted (Some "").

Definition bare_template : JsString -> JsString :=
  fun body => js "<html><body>" ++ body ++ js "</body></html>".

Definition unnamed_send : Main.CompanyIO :=
  Main.mkCompanyIO (Ok None)
    (EmailVerification.NotOk 500%nat "Internal Server Error")
    (Ok sample_text)
    (EmailSender.sendJobApplicationEmail bare_template (Some "key")
       (Some "me@example.org") accepts_unnamed (company 2 "Beta" 1 20)
       (parsed sample_text) (Some "me@example.org"))
    no_faults.

(** ** backend/api/emailVerification.js: discovery *)

Module Discovery.

Import EmailVerification.

(** An entry of [findEmailsByDomain]; [confidence] is an integer. *)
Record Found := mkFound {
  found_value : string;
  found_firstName : option string;
  found_lastName : option string;
  found_position : option string;
  found_confidence : Z;
  found_type : option string
}.

(** The answers to the domain search and to the pattern request:
    a rejected promise, a response that is not [ok], or the JSON body
    ([data.data.emails]; [data.data.pattern], [None] when it is
    missing). *)
Inductive DomainResponse : Type :=
| DomainFailed (message : string)
| DomainNotOk (status : nat) (statusText : string)
| DomainAnswer (emails : list Found).

Inductive PatternResponse : Type :=
| PatternFailed (message : string)
| PatternNotOk (status : nat) (statusText : string)
| PatternAnswer (pattern : option string).

Definition no_key {A} : result A :=
  Err (ServiceError "Hunter API key is not set in the .env file").

Definition not_ok {A} (status : nat) (statusText : string) : result A :=
  Err (ServiceError ("Hunter API returned " ++ decimal status ++ ": "
                     ++ statusText)%string).

Definition findEmailsByDomain (HUNTER_API_KEY : option string)
    (response : DomainResponse) : result (list Found) :=
  if negb (truthy HUNTER_API_KEY) then no_key
  else
    match response with
    | DomainFailed m => Err (ServiceError m)
    | DomainNotOk status statusText => not_ok status statusText
    | DomainAnswer emails => Ok emails
    end.

Definition getEmailPattern (HUNTER_API_KEY : option string)
    (response : PatternResponse) : result (list string) :=
  if negb (truthy HUNTER_API_KEY) then no_key
  else
    match response with
    | PatternFailed m => Err (ServiceError m)
    | PatternNotOk status statusText => not_ok status statusText
    | PatternAnswer pattern =>
        if truthy pattern
        then Ok match pattern with Some p => [p] | None => [] end
        else Ok []
    end.

(** What [findBestEmailForPerson] returns besides [null]: an entry of
    the search, or the generated address with the names given. *)
Inductive Best : Type :=
| Listed (e : Found)
| Generated (value firstName lastName : string).

Definition best_value (b : Best) : string :=
  match b with
  | Listed e => found_value e
  | Generated value _ _ => value
  end.

Section Strings.
(** [String.prototype.toLowerCase] and [charAt(0)]. *)
Variable toLowerCase : string -> string.
Variable charAt0 : string -> string.

(** [email.firstName?.toLowerCase() === firstName.toLowerCase()], and
    the same for the last name. *)
Definition same_name (stored : option string) (name : string) : bool :=
  match stored with
  | Some s => (toLowerCase s =? toLowerCase name)%string
  | None => false
  end.

Definition is_exact (firstName lastName : string) (e : Found) : bool :=
  same_name (found_firstName e) firstName
  && same_name (found_lastName e) lastName.

(** The [switch] over the pattern. *)
Definition address (pattern domain firstName lastName : string) : string :=
  let f := toLowerCase firstName in
  let l := toLowerCase lastName in
  let i := toLowerCase (charAt0 firstName) in
  (if pattern =? "first_last" then f ++ "." ++ l ++ "@" ++ domain
   else if pattern =? "firstlast" then f ++ l ++ "@" ++ domain
   else if pattern =? "first.last" then f ++ "." ++ l ++ "@" ++ domain
   else if pattern =? "first" then f ++ "@" ++ domain
   else if pattern =? "last.first" then l ++ "." ++ f ++ "@" ++ domain
   else if pattern =? "lastfirst" then l ++ f ++ "@" ++ domain
   else if pattern =? "first_initial.last" then i ++ "." ++ l ++ "@" ++ domain
   else if pattern =? "first_initiallast" then i ++ l ++ "@" ++ domain
   else f ++ "." ++ l ++ "@" ++ domain)%string.

(** [emails.sort((a, b) => b.confidence - a.confidence)]. *)
Definition by_confidence (a b : Found) : bool :=
  found_confidence b <=? found_confidence a.

(** The block that tries a generated address: [Ok (Some b)] when it
    returns [b], [Ok None] when it falls through, [Err] when the pattern
    request throws. *)
Definition try_pattern (HUNTER_API_KEY : option string)
    (pattern_response : PatternResponse) (verify : string -> Response)
    (domain firstName lastName : string) : result (option Best) :=
  match getEmailPattern HUNTER_API_KEY pattern_response with
  | Err e => Err e
  | Ok [] => Ok None
  | Ok (pattern :: _) =>
      let email := address pattern domain firstName lastName in
      match verifyEmail HUNTER_API_KEY (verify email) email with
      | Ok verification =>
          if isValid verification
          then Ok (Some (Generated email firstName lastName))
          else Ok None
      | Err _ => Ok None
      end
  end.

Definition findBestEmailForPerson (HUNTER_API_KEY : option string)
    (domain_response : DomainResponse) (pattern_response : PatternResponse)
    (verify : string -> Response) (domain firstName lastName : string)
  : result (option Best) :=
  match findEmailsByDomain HUNTER_API_KEY domain_response with
  | Err e => Err e
  | Ok emails =>
      match find (is_exact firstName lastName) emails with
      | Some exactMatch => Ok (Some (Listed exactMatch))
      | None =>
          match
            (if (0 <? List.length emails)%nat
             then try_pattern HUNTER_API_KEY pattern_response verify
                              domain firstName lastName
             else Ok None)
          with
          | Err e => Err e
          | Ok (Some generated) => Ok (Some generated)
          | Ok None =>
              if (0 <? List.length emails)%nat
              then Ok (option_map Listed (hd_error (sort_by by_confidence emails)))
              else Ok None
          end
      end
  end.

End Strings.

End Discovery.

(** Sample data: two addresses found for a domain, none of them of the
    person asked for, and a provider that rejects every address. *)
Definition found_info : Discovery.Found :=
  Discovery.mkFound "info@acme.example" None None None 40 (Some "generic").

Definition found_jobs : Discovery.Found :=
  Discovery.mkFound "jobs@acme.example" (Some "Jo") (Some "Bloggs")
                    (Some "Recruiter") 90 (Some "personal").

Definition rejects_all : string -> EmailVerification.Response :=
  fun _ =>
    EmailVerification.Answer
      (EmailVerification.mkVerifierData
         (EmailVerification.JString "invalid") EmailVerification.JUndefined
         EmailVerification.JUndefined EmailVerification.JUndefined
         EmailVerification.JUndefined EmailVerification.JUndefined).

Definition identity_case : string -> string := fun s => s.
Definition first_letter : string -> string := fun s => substring 0 1 s.

(** The companies the console reports as successfully processed. *)
Definition is_processed (line : Main.LogLine) : bool :=
  match line with
  | Main.LogCompany _ Main.Processed => true
  | _ => false
  end.

Definition processed_count (lines : list Main.LogLine) : Z :=
  Z.of_nat (List.length (filter is_processed lines)).

(** ** backend/api/emails.js: statistics *)

Module Statistics.

Definition has_status (status : string) (e : Email) : bool :=
  (email_status e =? status)%string.

Definition count_status (status : string) (t : list Email) : Z :=
  Z.of_nat (List.length (filter (has_status status) t)).

(** [whole > 0 ? (part / whole) * 100 : 0]: zero, or the double computed
    from the two counts, which is kept as the two counts. *)
Inductive Rate : Type :=
| Zero
| Percent (part whole : Z).

Definition rate (part whole : Z) : Rate :=
  if 0 <? whole then Percent part whole else Zero.

Record Stats := mkStats {
  total : Z;
  sent : Z;
  opened : Z;
  clicked : Z;
  replied : Z;
  bounced : Z;
  openRate : Rate;
  clickRate : Rate;
  replyRate : Rate;
  bounceRate : Rate
}.

(** [.from("emails").select("count", { count: "exact" })], with
    [.eq("status", s)] when a status is given, then [data[0].count]. *)
Definition count_request (fault : option string) (status : option string)
  : M Z :=
  fun db =>
    match fault with
    | Some m => (db, Err (StoreError m))
    | None =>
        (db, Ok match status with
                | Some s => count_status s (emails db)
                | None => Z.of_nat (List.length (emails db))
                end)
    end.

Definition getEmailStatistics (f : Faults) : M Stats :=
  total <- count_request (f 0%nat) None ;;
  sent <- count_request (f 1%nat) (Some "sent") ;;
  opened <- count_request (f 2%nat) (Some "opened") ;;
  clicked <- count_request (f 3%nat) (Some "clicked") ;;
  replied <- count_request (f 4%nat) (Some "replied") ;;
  bounced <- count_request (f 5%nat) (Some "bounced") ;;
  ret (mkStats total sent opened clicked replied bounced
               (rate opened sent) (rate clicked opened)
               (rate replied sent) (rate bounced sent)).

End Statistics.

(** ** Runs of the two orchestrators on one day *)

(** A run of [main] or of the daily workflow, with everything the
    collaborators and the store answer during it. *)
Inductive Run : Type :=
| MainRun (cfg : Main.Config) (f_quota : Faults) (f_select : Select Company)
          (ios : nat -> Main.CompanyIO) (now : Timestamp)
| WorkflowRun (sf : DailyWorkflow.SetupFaults)
              (ios : nat -> DailyWorkflow.CompanyIO) (now : Timestamp).

Definition results_of (r : RunResult) : list CompanyResult :=
  match outcome_list r with
  | Some results => results
  | None => []
  end.

(** The tables after a run and the number of emails it reports: the
    companies [main] logs as processed, the results with status [sent]
    of the workflow. *)
Definition run_one (today : Date) (r : Run) (db : Db) : Db * Z :=
  match r with
  | MainRun cfg f_quota f_select ios now =>
      let out := Main.main cfg f_quota f_select ios now today db in
      (fst out, processed_count (fst (snd out)))
  | WorkflowRun sf ios now =>
      let out := DailyWorkflow.execute sf ios now today db in
      (fst out, sent_count (results_of (snd out)))
  end.

Fixpoint run_all (today : Date) (runs : list Run) (db : Db) : Db * Z :=
  match runs with
  | [] => (db, 0)
  | r :: runs' =>
      let '(db1, n) := run_one today r db in
      let '(db2, m) := run_all today runs' db1 in
      (db2, n + m)
  end.

(** Sample data: the store refuses the insert of the email record. *)
Definition insert_refused : Faults :=
  fun k => if Nat.eqb k 0 then Some "insert failed" else None.

(** * Properties *)

(** ** Tables *)

Lemma filter_update_rows {R} (q p : R -> bool) (u : R -> R) (t : list R) :
  (forall r, q (u r) = q r) ->
  filter q (update_rows p u t) = update_rows p u (filter q t).
Proof.
  intros Hq. unfold update_rows.
  induction t as [|r t IH]; simpl; [reflexivity|].
  destruct (p r) eqn:Hp.
  - rewrite Hq. destruct (q r); simpl; rewrite ?Hp, IH; reflexivity.
  - destruct (q r); simpl; rewrite ?Hp, IH; reflexivity.
Qed.

Lemma update_rows_length {R} (p : R -> bool) (u : R -> R) (t : list R) :
  List.length (update_rows p u t) = List.length t.
Proof. apply length_map. Qed.

Lemma single_some {R} (rows : list R) (r : R) :
  single rows = Some r -> rows = [r].
Proof.
  destruct rows as [|a [|b rows]]; simpl; intros H; try discriminate.
  now inversion H.
Qed.

(** ** The quota tracker *)

Section ScheduleFacts.
Import EmailSchedule.

Lemma has_id_self (s : Schedule) : has_id (schedule_id s) s = true.
Proof. unfold has_id. apply Z.eqb_refl. Qed.

(** After an update by the identifier of the row read for [date], with
    new values that keep the date, the row read for [date] is the
    updated one. *)
Lemma find_schedule_updated (date : Date) (t : list Schedule) (s : Schedule)
      (u : Schedule -> Schedule) :
  (forall r, scheduled_date (u r) = scheduled_date r) ->
  find_schedule date t = Some s ->
  find_schedule date (update_rows (has_id (schedule_id s)) u t) = Some (u s).
Proof.
  intros Hu Hf. unfold find_schedule in *.
  apply single_some in Hf.
  rewrite filter_update_rows.
  - rewrite Hf. simpl. now rewrite has_id_self.
  - intros r. unfold on_date. now rewrite Hu.
Qed.

Lemma updated_rows_head (date : Date) (t : list Schedule) (s : Schedule)
      (u : Schedule -> Schedule) :
  find_schedule date t = Some s ->
  exists r rs, updated_rows (has_id (schedule_id s)) u t = u r :: rs
               /\ schedule_id r = schedule_id s.
Proof.
  intros Hf. unfold find_schedule in Hf. apply single_some in Hf.
  assert (Hin : In s (filter (has_id (schedule_id s)) t)).
  { apply filter_In. split.
    - assert (H : In s (filter (on_date date) t)) by (rewrite Hf; now left).
      now apply filter_In in H.
    - apply has_id_self. }
  unfold updated_rows.
  destruct (filter (has_id (schedule_id s)) t) as [|r rs] eqn:E.
  - destruct Hin.
  - exists r, (map u rs). split; [reflexivity|].
    assert (H : In r (filter (has_id (schedule_id s)) t)) by (rewrite E; now left).
    apply filter_In in H. destruct H as [_ H]. unfold has_id in H.
    now apply Z.eqb_eq in H.
Qed.

(** What a call of [incrementEmailsSent] that returns has done. *)
Lemma increment_returns (f : Faults) (now : Timestamp) (date : Date)
      (db db' : Db) (r : option Schedule) (row : Schedule) :
  find_schedule date (email_schedule db) = Some row ->
  incrementEmailsSent f now date db = (db', Ok r) ->
  emails_sent row < emails_limit row
  /\ db' = with_schedule
             (update_rows (has_id (schedule_id row)) (set_sent row now)
                          (email_schedule db)) db
  /\ find_schedule date (email_schedule db') = Some (set_sent row now row).
Proof.
  intros Hf H.
  unfold incrementEmailsSent, bind, getEmailSchedule in H.
  destruct (f 0%nat); [discriminate|].
  rewrite Hf in H.
  destruct (emails_limit row <=? emails_sent row) eqn:Hl.
  - discriminate.
  - apply Z.leb_gt in Hl.
    unfold update_schedule in H.
    destruct (f 1%nat); [discriminate|].
    unfold ret in H. inversion H; subst. clear H.
    split; [exact Hl|]. split; [reflexivity|].
    simpl. now apply find_schedule_updated.
Qed.

Lemma increments_invariant (date : Date) (calls : list (Faults * Timestamp)) :
  forall (db db' : Db) (row : Schedule),
    find_schedule date (email_schedule db) = Some row ->
    increments calls date db = Some db' ->
    exists row',
      find_schedule date (email_schedule db') = Some row'
      /\ emails_limit row' = emails_limit row
      /\ emails_sent row' = emails_sent row + Z.of_nat (List.length calls)
      /\ (calls <> [] -> emails_sent row' <= emails_limit row').
Proof.
  induction calls as [|[f now] calls IH]; intros db db' row Hf H; simpl in H.
  - inversion H; subst. exists row. simpl.
    split; [assumption|]. split; [reflexivity|]. split; [lia|].
    intros C. now elim C.
  - destruct (incrementEmailsSent f now date db) as [db1 [r|e]] eqn:E;
      [|discriminate].
    destruct (increment_returns _ _ _ _ _ _ _ Hf E) as (Hlt & _ & Hf1).
    destruct (IH _ _ _ Hf1 H) as (row' & Hf' & Hlim & Hsent & Hle).
    exists row'. simpl in Hlim, Hsent.
    split; [assumption|]. split; [assumption|]. split.
    + rewrite Hsent. simpl List.length. rewrite Nat2Z.inj_succ. lia.
    + intros _. destruct calls as [|c calls].
      * simpl in H. inversion H; subst db'.
        rewrite Hf1 in Hf'. inversion Hf'; subst row'. simpl. lia.
      * apply Hle. discriminate.
Qed.

(** At the limit (or past it) the call throws and writes nothing. *)
Lemma increment_at_limit (f : Faults) (now : Timestamp) (date : Date)
      (db : Db) (row : Schedule) :
  find_schedule date (email_schedule db) = Some row ->
  emails_limit row <= emails_sent row ->
  f 0%nat = None ->
  incrementEmailsSent f now date db = (db, Err (QuotaExceeded date)).
Proof.
  intros Hf Hle H0.
  unfold incrementEmailsSent, bind, getEmailSchedule.
  rewrite H0, Hf.
  apply Z.leb_le in Hle. now rewrite Hle.
Qed.

End ScheduleFacts.

(** C1. For every date, after any sequence of [incrementEmailsSent] calls
    that all returned, started from a row with [emails_sent = 0], the row
    of that date has [emails_sent] equal to the number of calls and at most
    [emails_limit] (for the empty sequence this needs a limit that is not
    negative); and a call made when [emails_sent = emails_limit] throws
    [QuotaExceeded] and leaves every table as it was. *)
Theorem increment_sent_respects_limit :
  forall (date : Date) (db db' : Db) (row : Schedule)
         (calls : list (Faults * Timestamp)) (f : Faults) (now : Timestamp),
    EmailSchedule.find_schedule date (email_schedule db) = Some row ->
    emails_sent row = 0 ->
    increments calls date db = Some db' ->
    f 0%nat = None ->
    exists row',
      EmailSchedule.find_schedule date (email_schedule db') = Some row'
      /\ emails_limit row' = emails_limit row
      /\ emails_sent row' = Z.of_nat (List.length calls)
      /\ (calls <> [] \/ 0 <= emails_limit row ->
          emails_sent row' <= emails_limit row')
      /\ (emails_sent row' = emails_limit row' ->
          EmailSchedule.incrementEmailsSent f now date db'
          = (db', Err (QuotaExceeded date))).
Proof.
  intros date db db' row calls f now Hf H0 Hrun Hread.
  destruct (increments_invariant date calls db db' row Hf Hrun)
    as (row' & Hf' & Hlim & Hsent & Hle).
  exists row'.
  split; [assumption|]. split; [assumption|].
  split; [lia|]. split.
  - intros [Hne|Hpos].
    + now apply Hle.
    + destruct calls as [|c calls].
      * simpl in Hsent. lia.
      * apply Hle. discriminate.
  - intros Heq. apply increment_at_limit with (row := row'); auto. lia.
Qed.

Lemma increment_sent_respects_limit_witness :
  exists db' row',
    increments [(no_faults, 1); (no_faults, 2)] sample_day sample_db = Some db'
    /\ EmailSchedule.find_schedule sample_day (email_schedule db') = Some row'
    /\ emails_sent row' = 2
    /\ emails_sent row' <= emails_limit row'
    /\ EmailSchedule.incrementEmailsSent no_faults 3 sample_day db'
       = (db', Err (QuotaExceeded sample_day)).
Proof.
  destruct (increments [(no_faults, 1); (no_faults, 2)] sample_day sample_db)
    as [db'|] eqn:E; [|discriminate E].
  destruct (increment_sent_respects_limit sample_day sample_db db'
              sample_schedule [(no_faults, 1); (no_faults, 2)] no_faults 3
              eq_refl eq_refl E eq_refl)
    as (row' & Hf & Hlim & Hsent & Hle & Hq).
  exists db', row'.
  split; [reflexivity|]. split; [exact Hf|]. split; [exact Hsent|].
  assert (Hle' : emails_sent row' <= emails_limit row').
  { apply Hle. left. discriminate. }
  split; [exact Hle'|].
  apply Hq. rewrite Hlim, Hsent. reflexivity.
Defined.

Lemma no_row_no_schedule (date : Date) (t : list Schedule) :
  existsb (EmailSchedule.on_date date) t = false ->
  filter (EmailSchedule.on_date date) t = [].
Proof.
  induction t as [|r t IH]; simpl; [reflexivity|].
  destruct (EmailSchedule.on_date date r); simpl; [discriminate|exact IH].
Qed.

(** C9. When no row exists for the date, [incrementEmailsSent] throws (the
    "no email schedule found" error, or the store's error when the read
    itself failed) and leaves every table as it was; [getRemainingEmailQuota]
    in the same situation inserts the day's row with the default limit. *)
Theorem increment_sent_needs_schedule :
  forall (DAILY_EMAIL_LIMIT : Z) (f : Faults) (now : Timestamp) (date : Date)
         (db : Db),
    existsb (EmailSchedule.on_date date) (email_schedule db) = false ->
    EmailSchedule.incrementEmailsSent f now date db
    = (db, Err (match f 0%nat with
                | Some m => StoreError m
                | None => NoScheduleFound date
                end))
    /\ EmailSchedule.getRemainingEmailQuota DAILY_EMAIL_LIMIT no_faults now date db
       = (with_schedule
            (email_schedule db
             ++ [new_schedule (email_schedule db) date DAILY_EMAIL_LIMIT now]) db,
          Ok DAILY_EMAIL_LIMIT).
Proof.
  intros D f now date db Hno.
  pose proof (no_row_no_schedule _ _ Hno) as Hfil.
  split.
  - unfold EmailSchedule.incrementEmailsSent, bind, EmailSchedule.getEmailSchedule.
    destruct (f 0%nat); [reflexivity|].
    unfold EmailSchedule.find_schedule. rewrite Hfil. reflexivity.
  - unfold EmailSchedule.getRemainingEmailQuota,
      EmailSchedule.createOrUpdateEmailSchedule, bind,
      EmailSchedule.getEmailSchedule, EmailSchedule.insert_schedule,
      EmailSchedule.find_schedule, shift, no_faults.
    rewrite Hfil. cbn [single]. rewrite Hfil. cbn [single]. rewrite Hno.
    reflexivity.
Qed.

Lemma increment_sent_needs_schedule_witness :
  EmailSchedule.incrementEmailsSent no_faults 7 sample_day empty_db
  = (empty_db, Err (NoScheduleFound sample_day))
  /\ EmailSchedule.getRemainingEmailQuota 5 no_faults 7 sample_day empty_db
     = (mkDb [] [] [mkSchedule 1 sample_day 5 0 false 7] [], Ok 5).
Proof.
  exact (increment_sent_needs_schedule 5 no_faults 7 sample_day empty_db eq_refl).
Defined.

(** ** Keys *)

Lemma key_determines_row {R} (key : R -> Z) (t : list R) (a b : R) :
  NoDup (map key t) -> In a t -> In b t -> key a = key b -> a = b.
Proof.
  induction t as [|r t IH]; simpl; intros Hnd Ha Hb Hk; [contradiction|].
  inversion Hnd as [|x l Hnotin Hnd']; subst.
  destruct Ha as [Ha|Ha], Hb as [Hb|Hb]; subst.
  - reflexivity.
  - exfalso. apply Hnotin. rewrite Hk. now apply in_map.
  - exfalso. apply Hnotin. rewrite <- Hk. now apply in_map.
  - now apply IH.
Qed.

Lemma filter_key_at_most_one {R} (key : R -> Z) (k : Z) (t : list R) :
  NoDup (map key t) ->
  filter (fun r => key r =? k) t = []
  \/ exists r, filter (fun r => key r =? k) t = [r].
Proof.
  induction t as [|r t IH]; simpl; intros Hnd; [now left|].
  inversion Hnd as [|x l Hnotin Hnd']; subst.
  destruct (key r =? k) eqn:E.
  - right. exists r. f_equal.
    destruct (filter (fun r0 => key r0 =? k) t) as [|r' rs] eqn:F; [reflexivity|].
    exfalso. apply Hnotin.
    assert (Hin : In r' (filter (fun r0 => key r0 =? k) t)) by (rewrite F; now left).
    apply filter_In in Hin. destruct Hin as [Hin Hk].
    apply Z.eqb_eq in E. apply Z.eqb_eq in Hk. rewrite E, <- Hk.
    now apply in_map.
  - now apply IH.
Qed.

Lemma fresh_id_above {R} (key : R -> Id) (t : list R) (r : R) :
  In r t -> key r < fresh_id key t.
Proof.
  unfold fresh_id. induction t as [|a t IH]; intros Hin; [contradiction|].
  cbn [map fold_right].
  pose proof (Z.le_max_l (key a) (fold_right Z.max 0 (map key t))).
  pose proof (Z.le_max_r (key a) (fold_right Z.max 0 (map key t))).
  destruct Hin as [->|Hin]; [lia|]. specialize (IH Hin). lia.
Qed.

Lemma fresh_id_is_new {R} (key : R -> Id) (t : list R) :
  ~ In (fresh_id key t) (map key t).
Proof.
  intros Hin. apply in_map_iff in Hin. destruct Hin as (r & Hk & Hin).
  pose proof (fresh_id_above key t r Hin). lia.
Qed.

Lemma map_update_rows_key {R K} (key : R -> K) (p : R -> bool) (u : R -> R)
      (t : list R) :
  (forall r, key (u r) = key r) ->
  map key (update_rows p u t) = map key t.
Proof.
  intros Hu. unfold update_rows. rewrite map_map. apply map_ext.
  intros r. destruct (p r); [apply Hu|reflexivity].
Qed.

(** ** Creating and updating a schedule *)

Section CreateOrUpdate.
Import EmailSchedule.

Lemma find_schedule_in (date : Date) (t : list Schedule) (s : Schedule) :
  find_schedule date t = Some s -> In s t /\ scheduled_date s = date.
Proof.
  unfold find_schedule. intros H. apply single_some in H.
  assert (Hin : In s (filter (on_date date) t)) by (rewrite H; now left).
  apply filter_In in Hin. destruct Hin as [Hin Hd].
  split; [exact Hin|]. unfold on_date in Hd. now apply Z.eqb_eq in Hd.
Qed.

Lemma find_schedule_none (date : Date) (t : list Schedule) :
  NoDup (map scheduled_date t) ->
  find_schedule date t = None ->
  existsb (on_date date) t = false.
Proof.
  intros Hnd H. unfold find_schedule in H.
  destruct (filter_key_at_most_one scheduled_date date t Hnd) as [E|[r E]];
    fold (on_date date) in E; rewrite E in H; [|discriminate].
  destruct (existsb (on_date date) t) eqn:X; [|reflexivity].
  apply existsb_exists in X. destruct X as (r & Hin & Hr).
  assert (In r (filter (on_date date) t)) by (apply filter_In; now split).
  rewrite E in H0. contradiction.
Qed.

Lemma same_row_by_id_or_date (date : Date) (t : list Schedule) (s : Schedule)
      (u : Schedule -> Schedule) :
  schedule_constraints t ->
  find_schedule date t = Some s ->
  update_rows (has_id (schedule_id s)) u t = update_rows (on_date date) u t
  /\ updated_rows (has_id (schedule_id s)) u t = [u s].
Proof.
  intros [Hid Hdate] Hf.
  destruct (find_schedule_in _ _ _ Hf) as [Hin Hd].
  assert (Hsame : forall r, In r t -> has_id (schedule_id s) r = on_date date r).
  { intros r Hr. unfold has_id, on_date.
    destruct (schedule_id r =? schedule_id s) eqn:E1;
      destruct (scheduled_date r =? date) eqn:E2; try reflexivity; exfalso.
    - apply Z.eqb_eq in E1. apply Z.eqb_neq in E2. apply E2.
      rewrite (key_determines_row schedule_id t r s Hid Hr Hin E1). exact Hd.
    - apply Z.eqb_neq in E1. apply Z.eqb_eq in E2. apply E1.
      assert (Hk : scheduled_date r = scheduled_date s) by congruence.
      now rewrite (key_determines_row scheduled_date t r s Hdate Hr Hin Hk). }
  split.
  - unfold update_rows. apply map_ext_in. intros r Hr. now rewrite Hsame.
  - unfold updated_rows.
    rewrite (filter_ext_in (has_id (schedule_id s)) (on_date date) t Hsame).
    unfold find_schedule in Hf. apply single_some in Hf. now rewrite Hf.
Qed.

Lemma find_schedule_other_date_update (date d : Date) (u : Schedule -> Schedule)
      (t : list Schedule) :
  d <> date ->
  (forall r, scheduled_date (u r) = scheduled_date r) ->
  find_schedule d (update_rows (on_date date) u t) = find_schedule d t.
Proof.
  intros Hne Hu. unfold find_schedule. f_equal.
  rewrite filter_update_rows.
  - unfold update_rows. rewrite <- (map_id (filter (on_date d) t)) at 2.
    apply map_ext_in. intros r Hr. apply filter_In in Hr. destruct Hr as [_ Hr].
    unfold on_date in *. apply Z.eqb_eq in Hr.
    destruct (scheduled_date r =? date) eqn:E; [|reflexivity].
    apply Z.eqb_eq in E. congruence.
  - intros r. unfold on_date. now rewrite Hu.
Qed.

Lemma find_schedule_other_date_insert (date d : Date) (row : Schedule)
      (t : list Schedule) :
  d <> scheduled_date row ->
  find_schedule d (t ++ [row]) = find_schedule d t.
Proof.
  intros Hne. unfold find_schedule. rewrite filter_app. simpl.
  unfold on_date at 2. destruct (scheduled_date row =? d) eqn:E.
  - apply Z.eqb_eq in E. congruence.
  - now rewrite app_nil_r.
Qed.

Lemma find_schedule_inserted (row : Schedule) (t : list Schedule) :
  existsb (on_date (scheduled_date row)) t = false ->
  find_schedule (scheduled_date row) (t ++ [row]) = Some row.
Proof.
  intros H. unfold find_schedule. rewrite filter_app.
  rewrite (no_row_no_schedule _ _ H). simpl.
  unfold on_date. now rewrite Z.eqb_refl.
Qed.

(** What [createOrUpdateEmailSchedule] does when the store answers. *)
Lemma create_or_update_cases (f : Faults) (now : Timestamp) (date : Date)
      (limit : Z) (db : Db) :
  schedule_constraints (email_schedule db) ->
  f 0%nat = None -> f 1%nat = None ->
  createOrUpdateEmailSchedule f now date limit db
  = match find_schedule date (email_schedule db) with
    | Some s =>
        (with_schedule (update_rows (on_date date) (set_limit limit now)
                                    (email_schedule db)) db,
         Ok (Some (set_limit limit now s)))
    | None =>
        (with_schedule (email_schedule db
                        ++ [new_schedule (email_schedule db) date limit now]) db,
         Ok (Some (new_schedule (email_schedule db) date limit now)))
    end.
Proof.
  intros Hc H0 H1.
  unfold createOrUpdateEmailSchedule, bind, getEmailSchedule.
  rewrite H0.
  destruct (find_schedule date (email_schedule db)) as [s|] eqn:Hf.
  - unfold update_schedule. rewrite H1.
    destruct (same_row_by_id_or_date date _ s (set_limit limit now) Hc Hf)
      as [E1 E2].
    rewrite E1, E2. reflexivity.
  - unfold insert_schedule. rewrite H1.
    destruct Hc as [_ Hd].
    rewrite (find_schedule_none _ _ Hd Hf). reflexivity.
Qed.

Lemma create_or_update_keeps_constraints (limit : Z) (now : Timestamp)
      (date : Date) (t : list Schedule) :
  schedule_constraints t ->
  schedule_constraints (update_rows (on_date date) (set_limit limit now) t)
  /\ (existsb (on_date date) t = false ->
      schedule_constraints (t ++ [new_schedule t date limit now])).
Proof.
  intros [Hid Hd]. split.
  - split; rewrite map_update_rows_key; auto.
  - intros Hno. split; rewrite map_app; simpl.
    + apply NoDup_app; [exact Hid|repeat constructor; intros []|].
      intros a Ha [<-|[]]. now apply (fresh_id_is_new schedule_id t).
    + apply NoDup_app; [exact Hd|repeat constructor; intros []|].
      intros a Ha [<-|[]].
      apply in_map_iff in Ha. destruct Ha as (r & Hr & Hin).
      assert (X : existsb (on_date date) t = true).
      { apply existsb_exists. exists r. split; [exact Hin|].
        unfold on_date. now apply Z.eqb_eq. }
      congruence.
Qed.

End CreateOrUpdate.

(** What [createOrUpdateEmailSchedule] returns and leaves behind when the
    store answers. *)
Lemma create_or_update_summary :
  forall (f : Faults) (now : Timestamp) (date : Date) (limit : Z) (db : Db),
    schedule_constraints (email_schedule db) ->
    f 0%nat = None -> f 1%nat = None ->
    exists db' s',
      EmailSchedule.createOrUpdateEmailSchedule f now date limit db
      = (db', Ok (Some s'))
      /\ EmailSchedule.find_schedule date (email_schedule db') = Some s'
      /\ emails_limit s' = limit
      /\ companies db' = companies db
      /\ emails db' = emails db
      /\ (forall d, d <> date ->
          EmailSchedule.find_schedule d (email_schedule db')
          = EmailSchedule.find_schedule d (email_schedule db))
      /\ match EmailSchedule.find_schedule date (email_schedule db) with
         | None =>
             emails_sent s' = 0 /\ is_completed s' = false
             /\ email_schedule db' = email_schedule db ++ [s']
         | Some s =>
             emails_sent s' = emails_sent s
             /\ is_completed s' = is_completed s
             /\ schedule_id s' = schedule_id s
             /\ List.length (email_schedule db') = List.length (email_schedule db)
         end
      /\ schedule_constraints (email_schedule db').
Proof.
  intros f now date limit db Hc H0 H1.
  rewrite (create_or_update_cases f now date limit db Hc H0 H1).
  destruct (create_or_update_keeps_constraints limit now date _ Hc) as [K1 K2].
  destruct (EmailSchedule.find_schedule date (email_schedule db)) as [s|] eqn:Hf.
  - eexists. eexists. split; [reflexivity|]. simpl.
    destruct (find_schedule_in _ _ _ Hf) as [Hin Hd].
    destruct (same_row_by_id_or_date date _ s
                (EmailSchedule.set_limit limit now) Hc Hf) as [E _].
    split.
    { rewrite <- E. now apply find_schedule_updated. }
    split; [reflexivity|]. split; [reflexivity|]. split; [reflexivity|].
    split.
    { intros d Hd'. now apply find_schedule_other_date_update. }
    split; [|exact K1].
    repeat split. apply update_rows_length.
  - eexists. eexists. split; [reflexivity|]. simpl.
    destruct Hc as [_ Hdates].
    pose proof (find_schedule_none _ _ Hdates Hf) as Hno.
    split.
    { apply (find_schedule_inserted
               (new_schedule (email_schedule db) date limit now)). exact Hno. }
    split; [reflexivity|]. split; [reflexivity|]. split; [reflexivity|].
    split.
    { intros d Hd'. now apply find_schedule_other_date_insert. }
    split; [|now apply K2].
    repeat split.
Qed.

(** C7. [createOrUpdateEmailSchedule date limit], when the store answers:
    with no row for [date] a row is appended with [emails_sent = 0] (and
    [is_completed = false]) and the given limit; with a row for [date] that
    row gets the given limit and keeps its [emails_sent], [is_completed] and
    identifier, and no row is added.  The rows of the other dates and the
    other tables are as before. *)
Theorem create_or_update_schedule_effect :
  forall (f : Faults) (now : Timestamp) (date : Date) (limit : Z) (db : Db),
    schedule_constraints (email_schedule db) ->
    f 0%nat = None -> f 1%nat = None ->
    exists db' s',
      EmailSchedule.createOrUpdateEmailSchedule f now date limit db
      = (db', Ok (Some s'))
      /\ EmailSchedule.find_schedule date (email_schedule db') = Some s'
      /\ emails_limit s' = limit
      /\ companies db' = companies db
      /\ emails db' = emails db
      /\ (forall d, d <> date ->
          EmailSchedule.find_schedule d (email_schedule db')
          = EmailSchedule.find_schedule d (email_schedule db))
      /\ match EmailSchedule.find_schedule date (email_schedule db) with
         | None =>
             emails_sent s' = 0 /\ is_completed s' = false
             /\ email_schedule db' = email_schedule db ++ [s']
         | Some s =>
             emails_sent s' = emails_sent s
             /\ is_completed s' = is_completed s
             /\ schedule_id s' = schedule_id s
             /\ List.length (email_schedule db') = List.length (email_schedule db)
         end.
Proof.
  intros f now date limit db Hc H0 H1.
  destruct (create_or_update_summary f now date limit db Hc H0 H1)
    as (db' & s' & Hrun & Hfind & Hlim & Hco & Hem & Hframe & Hcase & _).
  exists db', s'. repeat (split; [assumption|]). assumption.
Qed.

Lemma create_or_update_schedule_effect_witness :
  exists db' s',
    EmailSchedule.createOrUpdateEmailSchedule no_faults 9 sample_day 8 used_db
    = (db', Ok (Some s'))
    /\ emails_limit s' = 8 /\ emails_sent s' = 3 /\ is_completed s' = false.
Proof.
  assert (Hc : schedule_constraints (email_schedule used_db)).
  { split; simpl; repeat constructor; intros []. }
  destruct (create_or_update_schedule_effect no_faults 9 sample_day 8 used_db
              Hc eq_refl eq_refl)
    as (db' & s' & Hrun & _ & Hlim & _ & _ & _ & Hcase).
  exists db', s'. simpl in Hcase. destruct Hcase as (Hsent & Hdone & _).
  repeat split; assumption.
Defined.

(** ** Generating schedules *)

Lemma latest_is_most_recent (t : list Schedule) (l : Schedule) :
  EmailSchedule.latest t = Some l ->
  In l t /\ forall r, In r t -> scheduled_date r <= scheduled_date l.
Proof.
  revert l. induction t as [|s t IH]; simpl; intros l H; [discriminate|].
  destruct (EmailSchedule.latest t) as [s'|] eqn:E.
  - destruct (IH s' eq_refl) as [Hin Hmax].
    destruct (scheduled_date s' <=? scheduled_date s) eqn:C;
      inversion H; subst; clear H.
    + apply Z.leb_le in C. split; [now left|].
      intros r [<-|Hr]; [lia|]. specialize (Hmax r Hr). lia.
    + apply Z.leb_gt in C. split; [now right|].
      intros r [<-|Hr]; [lia|]. now apply Hmax.
  - inversion H; subst. split; [now left|].
    intros r [<-|Hr]; [lia|].
    destruct t; [contradiction|]. simpl in E.
    destruct (EmailSchedule.latest t); [destruct (_ <=? _)|]; discriminate.
Qed.

Lemma generate_loop_rows (RATE : Z) (f : Faults) (now : Timestamp)
      (dates : nat -> Date) :
  (forall k, f k = None) ->
  forall (days i : nat) (limit : Z) (db : Db),
    schedule_constraints (email_schedule db) ->
    exists db' rows,
      EmailSchedule.generate_loop RATE f now dates days i limit db
      = (db', Ok (map Some rows))
      /\ schedule_constraints (email_schedule db')
      /\ List.length rows = days
      /\ companies db' = companies db
      /\ emails db' = emails db
      /\ (forall d, (forall k, (k < days)%nat -> dates (i + k)%nat <> d) ->
          EmailSchedule.find_schedule d (email_schedule db')
          = EmailSchedule.find_schedule d (email_schedule db))
      /\ (forall k, (k < days)%nat ->
          exists s,
            nth_error rows k = Some s
            /\ scheduled_date s = dates (i + k)%nat
            /\ emails_limit s = limit + Z.of_nat k * RATE
            /\ ((forall j, (k < j < days)%nat ->
                            dates (i + j)%nat <> dates (i + k)%nat) ->
                EmailSchedule.find_schedule (dates (i + k)%nat)
                  (email_schedule db') = Some s)).
Proof.
  intros Hf. induction days as [|days IH]; intros i limit db Hc.
  - exists db, []. simpl. unfold ret.
    repeat (split; [reflexivity || assumption|]). intros k Hk. lia.
  - cbn [EmailSchedule.generate_loop]. unfold bind at 1.
    destruct (create_or_update_summary (shift (2 * i) f) now
                (dates i) limit db Hc (Hf _) (Hf _))
      as (db1 & s1 & Hrun & Hfind & Hlim & Hco & Hem & Hframe & _ & Hc1).
    rewrite Hrun.
    destruct (IH (S i) (limit + RATE) db1 Hc1)
      as (db' & rows & Hloop & Hc' & Hlen & Hco' & Hem' & Hframe' & Hrows).
    unfold bind. rewrite Hloop. unfold ret.
    exists db', (s1 :: rows).
    split; [reflexivity|]. split; [exact Hc'|].
    split; [simpl; now rewrite Hlen|].
    split; [congruence|]. split; [congruence|].
    split.
    + intros d Hd. rewrite Hframe'.
      * apply Hframe. intros E. apply (Hd 0%nat); [lia|].
        now rewrite Nat.add_0_r.
      * intros k Hk. replace (S i + k)%nat with (i + S k)%nat by lia.
        apply Hd. lia.
    + intros [|k] Hk.
      * exists s1. rewrite Nat.add_0_r.
        split; [reflexivity|].
        split; [now destruct (find_schedule_in _ _ _ Hfind)|].
        split; [simpl; lia|].
        intros Hlater. rewrite Hframe'; [exact Hfind|].
        intros k Hk'. replace (S i + k)%nat with (i + S k)%nat by lia.
        apply Hlater. lia.
      * destruct (Hrows k ltac:(lia)) as (s & Hn & Hd & Hl & Hfs).
        exists s. replace (i + S k)%nat with (S i + k)%nat by lia.
        split; [exact Hn|]. split; [exact Hd|]. split; [lia|].
        intros Hlater. apply Hfs. intros j Hj.
        replace (S i + j)%nat with (i + S j)%nat by lia.
        apply Hlater. lia.
Qed.

(** C6, as the code has it. [generateEmailSchedules days], when the store
    answers, returns [days] schedules; the one at index [k] (from 0) is
    dated [dates k], the date its iteration computes, which is the date of
    the run plus [k] where local days and UTC dates advance together.
    When the most recent schedule has limit [L] that schedule has limit
    [L + (k + 1) * increment], so the limits [L + j * increment] for
    [j = 1..days] go to the indices [j - 1], the first being the day of
    the run; with no schedule at all the schedule at index [k] has limit
    [default + k * increment].  It is the row the store holds for its date
    afterwards unless a later iteration computes the same date. *)
Theorem generate_schedules_limits :
  forall (DAILY_EMAIL_LIMIT RATE : Z) (f : Faults) (now : Timestamp)
         (dates : nat -> Date) (days : nat) (db : Db),
    schedule_constraints (email_schedule db) ->
    (forall k, f k = None) ->
    exists db' rows,
      EmailSchedule.generateEmailSchedules DAILY_EMAIL_LIMIT RATE f now dates days db
      = (db', Ok (map Some rows))
      /\ List.length rows = days
      /\ forall k, (k < days)%nat ->
           exists s,
             nth_error rows k = Some s
             /\ scheduled_date s = dates k
             /\ ((forall j, (k < j < days)%nat -> dates j <> dates k) ->
                 EmailSchedule.find_schedule (dates k) (email_schedule db')
                 = Some s)
             /\ match EmailSchedule.latest (email_schedule db) with
                | Some l =>
                    emails_limit s = emails_limit l + (Z.of_nat k + 1) * RATE
                | None =>
                    emails_limit s = DAILY_EMAIL_LIMIT + Z.of_nat k * RATE
                end.
Proof.
  intros D RATE f now dates days db Hc Hf.
  unfold EmailSchedule.generateEmailSchedules, bind, EmailSchedule.select_latest.
  rewrite Hf.
  assert (Hs : forall k, shift 1 f k = None) by (intros k; apply Hf).
  destruct (generate_loop_rows RATE (shift 1 f) now dates Hs days 0
              (match EmailSchedule.latest (email_schedule db) with
               | Some l => emails_limit l + RATE
               | None => D
               end) db Hc)
    as (db' & rows & Hloop & _ & Hlen & _ & _ & _ & Hrows).
  exists db', rows. split; [exact Hloop|]. split; [exact Hlen|].
  intros k Hk. destruct (Hrows k Hk) as (s & Hn & Hd & Hl & Hfs).
  exists s. simpl in Hd, Hfs.
  split; [exact Hn|]. split; [exact Hd|]. split; [exact Hfs|].
  destruct (EmailSchedule.latest (email_schedule db)); lia.
Qed.

(** Three days from the day of the run, no clock change in between. *)
Lemma generate_schedules_limits_witness :
  exists db' rows s,
    EmailSchedule.generateEmailSchedules 5 2 no_faults 9 (days_from sample_day)
                                         3 today_only_db
    = (db', Ok (map Some rows))
    /\ nth_error rows 2 = Some s
    /\ scheduled_date s = sample_day + 2
    /\ emails_limit s = 5 + (2 + 1) * 2
    /\ EmailSchedule.find_schedule (sample_day + 2) (email_schedule db') = Some s.
Proof.
  assert (Hc : schedule_constraints (email_schedule today_only_db)).
  { split; simpl; repeat constructor; intros []. }
  destruct (generate_schedules_limits 5 2 no_faults 9 (days_from sample_day) 3
              today_only_db Hc (fun _ => eq_refl))
    as (db' & rows & Hrun & _ & Hrows).
  destruct (Hrows 2%nat ltac:(repeat constructor)) as (s & Hn & Hd & Hfs & Hl).
  exists db', rows, s. simpl in Hl.
  split; [exact Hrun|]. split; [exact Hn|]. split; [exact Hd|].
  split; [exact Hl|]. apply Hfs. intros j Hj. lia.
Defined.

(** C6 as the specification words it fails: with today's row as the most
    recent schedule (limit 5, increment 2) and no clock change between the
    two days, [generateEmailSchedules 2] gives tomorrow, day offset 1, the
    limit 9 and not [5 + 1 * 2]; today's own limit is raised to 7. *)
Lemma generate_schedules_offset_counterexample :
  exists db' s0 s1,
    EmailSchedule.generateEmailSchedules 5 2 no_faults 9 (days_from sample_day)
                                         2 today_only_db
    = (db', Ok [Some s0; Some s1])
    /\ option_map emails_limit
         (EmailSchedule.latest (email_schedule today_only_db)) = Some 5
    /\ EmailSchedule.find_schedule sample_day (email_schedule db') = Some s0
    /\ emails_limit s0 = 7
    /\ EmailSchedule.find_schedule (sample_day + 1) (email_schedule db') = Some s1
    /\ emails_limit s1 = 9
    /\ emails_limit s1 <> 5 + 1 * 2.
Proof.
  eexists. eexists. eexists.
  split; [vm_compute; reflexivity|].
  repeat split; try reflexivity.
  simpl. discriminate.
Qed.

(** ** Ordering of query results *)

Section SortFacts.
Context {R : Type} (key : R -> Z).

Let le (a b : R) : bool := key a <=? key b.

Lemma insert_sorted_perm (x : R) (l : list R) :
  Permutation (insert_sorted le x l) (x :: l).
Proof.
  induction l as [|y l IH]; simpl; [apply Permutation_refl|].
  destruct (le x y); [apply Permutation_refl|].
  apply perm_trans with (y :: x :: l); [now apply perm_skip|apply perm_swap].
Qed.

Lemma sort_by_perm (l : list R) : Permutation (sort_by le l) l.
Proof.
  induction l as [|x l IH]; simpl; [apply perm_nil|].
  apply perm_trans with (x :: sort_by le l);
    [apply insert_sorted_perm|now apply perm_skip].
Qed.

Lemma insert_sorted_sorted (x : R) (l : list R) :
  StronglySorted (fun a b => key a <= key b) l ->
  StronglySorted (fun a b => key a <= key b) (insert_sorted le x l).
Proof.
  induction l as [|y l IH]; simpl; intros Hs.
  - constructor; constructor.
  - inversion Hs as [|a b Hs' Hall]; subst.
    unfold le at 1. destruct (key x <=? key y) eqn:E.
    + apply Z.leb_le in E. constructor; [exact Hs|].
      constructor; [exact E|].
      eapply Forall_impl; [|exact Hall]. simpl. intros a Ha. lia.
    + apply Z.leb_gt in E. constructor; [now apply IH|].
      apply (Permutation_Forall (Permutation_sym (insert_sorted_perm x l))).
      constructor; [lia|exact Hall].
Qed.

Lemma sort_by_sorted (l : list R) :
  StronglySorted (fun a b => key a <= key b) (sort_by le l).
Proof.
  induction l as [|x l IH]; simpl; [constructor|].
  now apply insert_sorted_sorted.
Qed.

End SortFacts.

(** Two arrangements of the same numbers in ascending order are equal. *)
Lemma sorted_perm_unique (l1 l2 : list Z) :
  StronglySorted Z.le l1 -> StronglySorted Z.le l2 -> Permutation l1 l2 ->
  l1 = l2.
Proof.
  revert l2. induction l1 as [|a l1 IH]; intros l2 H1 H2 Hp.
  - apply Permutation_nil in Hp. now subst.
  - destruct l2 as [|b l2];
      [apply Permutation_sym, Permutation_nil in Hp; discriminate|].
    inversion H1 as [|x y H1' A1]; subst.
    inversion H2 as [|x y H2' A2]; subst.
    rewrite Forall_forall in A1, A2.
    assert (Hab : a = b).
    { assert (Hb : In b (a :: l1))
        by (apply (Permutation_in _ (Permutation_sym Hp)); now left).
      assert (Ha : In a (b :: l2)) by (apply (Permutation_in _ Hp); now left).
      destruct Hb as [Hb|Hb]; [now symmetry|].
      destruct Ha as [Ha|Ha]; [exact (eq_sym Ha)|].
      specialize (A1 b Hb). specialize (A2 a Ha). lia. }
    subst b. f_equal. apply IH; [exact H1'|exact H2'|].
    now apply Permutation_cons_inv in Hp.
Qed.

Lemma sorted_keys {R} (key : R -> Z) (l : list R) :
  StronglySorted (fun a b => key a <= key b) l ->
  StronglySorted Z.le (map key l).
Proof.
  induction l as [|a l IH]; intros Hs; simpl; [constructor|].
  inversion Hs as [|x y Hs' Hall]; subst.
  constructor; [now apply IH|].
  apply Forall_forall. intros k Hk. apply in_map_iff in Hk.
  destruct Hk as (r & <- & Hr). rewrite Forall_forall in Hall. now apply Hall.
Qed.

Lemma same_keys_same_rows {R} (key : R -> Z) (l1 l2 : list R) :
  (forall a b, In a l1 -> In b l2 -> key a = key b -> a = b) ->
  map key l1 = map key l2 -> l1 = l2.
Proof.
  revert l2. induction l1 as [|a l1 IH]; intros [|b l2] Hinj Hm;
    try discriminate; [reflexivity|].
  simpl in Hm. inversion Hm as [[Hk Hm']].
  f_equal.
  - apply Hinj; [now left|now left|exact Hk].
  - apply IH; [|exact Hm'].
    intros x y Hx Hy. apply Hinj; now right.
Qed.

(** Rows that differ in [key] and are in ascending [key] order can be
    arranged in one way only. *)
Lemma sorted_by_key_unique {R} (key : R -> Z) (l1 l2 : list R) :
  (forall a b, In a l1 -> In b l2 -> key a = key b -> a = b) ->
  Permutation l1 l2 ->
  StronglySorted (fun a b => key a <= key b) l1 ->
  StronglySorted (fun a b => key a <= key b) l2 ->
  l1 = l2.
Proof.
  intros Hinj Hp H1 H2. apply (same_keys_same_rows key); [exact Hinj|].
  apply sorted_perm_unique; [now apply sorted_keys|now apply sorted_keys|].
  now apply Permutation_map.
Qed.

Section Position.
Context {R : Type} (eq_dec : forall a b : R, {a = b} + {a <> b}).

Lemma position_bound (x : R) (l : list R) : 0 <= position eq_dec x l.
Proof.
  induction l as [|a l IH]; cbn [position]; [lia|].
  destruct (eq_dec x a); lia.
Qed.

Lemma position_app (x : R) (pre l : list R) :
  ~ In x pre ->
  position eq_dec x (pre ++ l)
  = Z.of_nat (List.length pre) + position eq_dec x l.
Proof.
  induction pre as [|a pre IH]; intros Hn; [reflexivity|].
  cbn [app position List.length].
  destruct (eq_dec x a) as [E|_]; [elim Hn; now left|].
  rewrite IH by (intros H; apply Hn; now right). lia.
Qed.

Lemma position_injective (l : list R) (x y : R) :
  In x l -> In y l -> position eq_dec x l = position eq_dec y l -> x = y.
Proof.
  induction l as [|a l IH]; intros Hx Hy; [contradiction|].
  cbn [position].
  destruct (eq_dec x a) as [->|Nx], (eq_dec y a) as [->|Ny];
    try reflexivity; intros E.
  - pose proof (position_bound y l). lia.
  - pose proof (position_bound x l). lia.
  - apply IH; [now destruct Hx as [Hx|Hx]; [elim Nx|]
               |now destruct Hy as [Hy|Hy]; [elim Ny|]|lia].
Qed.

Lemma position_sorted (pre l : list R) :
  NoDup (pre ++ l) ->
  StronglySorted (fun a b => position eq_dec a (pre ++ l)
                             <= position eq_dec b (pre ++ l)) l.
Proof.
  revert pre. induction l as [|a l IH]; intros pre Hnd; [constructor|].
  assert (Ha : ~ In a pre).
  { intros Hin. apply NoDup_remove_2 in Hnd. apply Hnd.
    apply in_or_app. now left. }
  constructor.
  - specialize (IH (pre ++ [a])). rewrite <- app_assoc in IH. now apply IH.
  - apply Forall_forall. intros b Hb.
    assert (Hbpre : ~ In b pre).
    { intros Hin. clear IH Ha. induction pre as [|p pre IHp]; [contradiction|].
      simpl in Hnd. inversion Hnd as [|? ? Hp Hnd']; subst.
      destruct Hin as [->|Hin]; [|now apply IHp].
      apply Hp. apply in_or_app. right. now right. }
    rewrite !position_app by assumption. cbn [position].
    destruct (eq_dec a a) as [_|N]; [|now elim N].
    destruct (eq_dec b a); pose proof (position_bound b l); lia.
Qed.

(** A list in the order [le] asks for is left as it is. *)
Lemma sort_by_of_sorted (le : R -> R -> bool) (l : list R) :
  StronglySorted (fun a b => le a b = true) l -> sort_by le l = l.
Proof.
  induction 1 as [|a l Hs IH Hall]; [reflexivity|]. simpl. rewrite IH.
  destruct l as [|b l]; [reflexivity|]. simpl.
  inversion Hall as [|? ? Hab _]; subst. now rewrite Hab.
Qed.

(** Every arrangement of distinct rows in the order [le] asks for is the
    answer of the store for some rank. *)
Lemma store_order_any (le : R -> R -> bool) (l target : list R) :
  Permutation target l -> NoDup target ->
  StronglySorted (fun a b => le a b = true) target ->
  exists rank, store_order le rank l = target.
Proof.
  intros Hp Hnd Hs.
  pose (rank := fun x => position eq_dec x target).
  exists rank. unfold store_order.
  assert (Hr : sort_by (fun a b => rank a <=? rank b) l = target).
  { apply (sorted_by_key_unique rank).
    - intros a b Ha Hb. apply position_injective; [|exact Hb].
      apply (Permutation_in _ (sort_by_perm rank l)) in Ha.
      now apply (Permutation_in _ (Permutation_sym Hp)).
    - apply perm_trans with l; [apply (sort_by_perm rank)|].
      now apply Permutation_sym.
    - apply (sort_by_sorted rank).
    - exact (position_sorted [] target Hnd). }
  rewrite Hr. now apply sort_by_of_sorted.
Qed.

End Position.

(** ** The daily selection *)

Lemma in_firstn {R} (n : nat) (l : list R) (x : R) :
  In x (firstn n l) -> In x l.
Proof.
  revert l. induction n as [|n IH]; intros [|a l] H; simpl in *; try contradiction.
  destruct H as [H|H]; [now left|right; now apply IH].
Qed.

Lemma ready_spec (c : Company) :
  Companies.ready c = true <->
  email_verified c = true /\ company_status c = "pending".
Proof.
  unfold Companies.ready. rewrite andb_true_iff, String.eqb_eq.
  destruct (email_verified c); simpl; intuition congruence.
Qed.

Lemma store_order_perm {R} (key : R -> Z) (rank : R -> Z) (l : list R) :
  Permutation (store_order (fun a b => key a <=? key b) rank l) l.
Proof.
  unfold store_order.
  apply perm_trans with (sort_by (fun a b => rank a <=? rank b) l).
  - apply (sort_by_perm key).
  - apply (sort_by_perm rank).
Qed.

Lemma firstn_strongly_sorted {R} (rel : R -> R -> Prop) (n : nat) (l : list R) :
  StronglySorted rel l -> StronglySorted rel (firstn n l).
Proof.
  revert n. induction l as [|a l IH]; intros n Hs; destruct n; simpl;
    try constructor.
  - inversion Hs; subst. now apply IH.
  - inversion Hs as [|x y Hs' Hall]; subst. apply Forall_forall. intros x Hx.
    apply in_firstn in Hx. rewrite Forall_forall in Hall. now apply Hall.
Qed.

(** What the daily query returns, whatever order the store chooses among
    companies of equal priority. *)
Lemma daily_query_facts (rank : Company -> Z) (limit : Z) (t : list Company) :
  List.length (Companies.daily_query rank limit t)
  = Nat.min (Z.to_nat limit) (List.length (filter Companies.ready t))
  /\ (forall c, In c (Companies.daily_query rank limit t) ->
      In c t /\ email_verified c = true /\ company_status c = "pending")
  /\ StronglySorted (fun a b => priority a <= priority b)
       (Companies.daily_query rank limit t)
  /\ exists ordered,
       Companies.daily_query rank limit t = firstn (Z.to_nat limit) ordered
       /\ Permutation ordered (filter Companies.ready t)
       /\ StronglySorted (fun a b => priority a <= priority b) ordered.
Proof.
  unfold Companies.daily_query, limit_rows.
  set (ordered := store_order Companies.by_priority rank
                              (filter Companies.ready t)).
  assert (Hperm : Permutation ordered (filter Companies.ready t))
    by apply (store_order_perm priority).
  assert (Hsorted : StronglySorted (fun a b => priority a <= priority b) ordered)
    by apply (sort_by_sorted priority).
  split.
  { rewrite length_firstn. now rewrite (Permutation_length Hperm). }
  split.
  { intros c Hc. apply in_firstn in Hc.
    apply (Permutation_in _ Hperm) in Hc. apply filter_In in Hc.
    destruct Hc as [Hin Hr]. apply ready_spec in Hr. tauto. }
  split; [now apply firstn_strongly_sorted|].
  exists ordered. split; [reflexivity|]. split; [exact Hperm|exact Hsorted].
Qed.

(** ** Relations that store programs respect *)

Section Respects.
Variable rel : Db -> Db -> Prop.
Hypothesis rel_refl : forall db, rel db db.
Hypothesis rel_trans : forall a b c, rel a b -> rel b c -> rel a c.

Lemma respects_ret {A} (a : A) : respects rel (ret a).
Proof. intros db. apply rel_refl. Qed.

Lemma respects_throw {A} (e : Error) : respects rel (@throw A e).
Proof. intros db. apply rel_refl. Qed.

Lemma respects_pure {A} (r : result A) : respects rel (fun db => (db, r)).
Proof. intros db. apply rel_refl. Qed.

Lemma respects_bind {A B} (m : M A) (k : A -> M B) :
  respects rel m -> (forall a, respects rel (k a)) -> respects rel (bind m k).
Proof.
  intros Hm Hk db. unfold bind. specialize (Hm db).
  destruct (m db) as [db1 [a|e]]; simpl in *.
  - eapply rel_trans; [exact Hm|apply Hk].
  - exact Hm.
Qed.

Lemma respects_read {A} (fault : option string) (q : Db -> A) :
  respects rel (fun db => match fault with
                          | Some m => (db, Err (StoreError m))
                          | None => (db, Ok (q db))
                          end).
Proof. intros db. destruct fault; apply rel_refl. Qed.

End Respects.

Ltac respects_step :=
  first
    [ apply respects_ret; assumption
    | apply respects_throw; assumption
    | apply respects_pure; assumption
    | apply respects_read; assumption
    | apply respects_bind; [assumption| |intros ?]
    | match goal with
      | |- respects _ (match ?x with _ => _ end) => destruct x
      | |- respects _ (if ?x then _ else _) => destruct x
      | |- respects _ (let '(_, _) := ?x in _) => destruct x
      end ].

Lemma same_companies_refl (db : Db) : same_companies db db.
Proof. reflexivity. Qed.

Lemma same_companies_trans (a b c : Db) :
  same_companies a b -> same_companies b c -> same_companies a c.
Proof. unfold same_companies. congruence. Qed.

Lemma keeps_other_companies_refl (i : Id) (db : Db) :
  keeps_other_companies i db db.
Proof. intros x Hx _. exact Hx. Qed.

Lemma keeps_other_companies_trans (i : Id) (a b c : Db) :
  keeps_other_companies i a b -> keeps_other_companies i b c ->
  keeps_other_companies i a c.
Proof. intros H1 H2 x Hx Hne. apply H2; [now apply H1|exact Hne]. Qed.

Lemma in_update_rows_other {R} (p : R -> bool) (u : R -> R) (t : list R) (x : R) :
  In x t -> p x = false -> In x (update_rows p u t).
Proof.
  intros Hin Hp. unfold update_rows. apply in_map_iff.
  exists x. now rewrite Hp.
Qed.

Section CompanyFrames.
Variable rel : Db -> Db -> Prop.
Hypothesis rel_refl : forall db, rel db db.
Hypothesis rel_trans : forall a b c, rel a b -> rel b c -> rel a c.
Hypothesis rel_schedule : forall db t, rel db (with_schedule t db).
Hypothesis rel_emails : forall db t, rel db (with_emails t db).

Lemma respects_update_schedule (fault : option string) (i : Id)
      (u : Schedule -> Schedule) :
  respects rel (EmailSchedule.update_schedule fault i u).
Proof.
  intros db. unfold EmailSchedule.update_schedule.
  destruct fault; simpl; [apply rel_refl|apply rel_schedule].
Qed.

Lemma respects_insert_schedule (fault : option string) (date : Date)
      (limit : Z) (now : Timestamp) :
  respects rel (EmailSchedule.insert_schedule fault date limit now).
Proof.
  intros db. unfold EmailSchedule.insert_schedule.
  destruct fault; simpl; [apply rel_refl|].
  destruct (existsb _ _); simpl; [apply rel_refl|apply rel_schedule].
Qed.

Lemma respects_createEmail (fault : option string) (email : Id -> Email) :
  respects rel (Emails.createEmail fault email).
Proof.
  intros db. unfold Emails.createEmail.
  destruct fault; simpl; [apply rel_refl|apply rel_emails].
Qed.

Lemma respects_createOrUpdate (f : Faults) (now : Timestamp) (date : Date)
      (limit : Z) :
  respects rel (EmailSchedule.createOrUpdateEmailSchedule f now date limit).
Proof.
  unfold EmailSchedule.createOrUpdateEmailSchedule,
    EmailSchedule.getEmailSchedule.
  repeat first [ apply respects_update_schedule
               | apply respects_insert_schedule | respects_step ].
Qed.

Lemma respects_increment (f : Faults) (now : Timestamp) (date : Date) :
  respects rel (EmailSchedule.incrementEmailsSent f now date).
Proof.
  unfold EmailSchedule.incrementEmailsSent, EmailSchedule.getEmailSchedule.
  repeat first [ apply respects_update_schedule | respects_step ].
Qed.

Lemma respects_quota (D : Z) (f : Faults) (now : Timestamp) (today : Date) :
  respects rel (EmailSchedule.getRemainingEmailQuota D f now today).
Proof.
  unfold EmailSchedule.getRemainingEmailQuota, EmailSchedule.getEmailSchedule.
  repeat first [ apply respects_createOrUpdate | respects_step ].
Qed.

End CompanyFrames.

(** ** What a run of [main] does to the companies table *)

Lemma quota_keeps_companies (D : Z) (f : Faults) (now : Timestamp)
      (today : Date) (db : Db) :
  companies (fst (EmailSchedule.getRemainingEmailQuota D f now today db))
  = companies db.
Proof.
  apply (respects_quota same_companies same_companies_refl
           same_companies_trans); reflexivity.
Qed.

(** Processing a company leaves the rows of the other companies alone. *)
Lemma process_company_frame (cfg : Main.Config) (io : Main.CompanyIO)
      (now : Timestamp) (today : Date) (c : Company) :
  respects (keeps_other_companies (company_id_ c))
           (Main.company_try cfg io now today c).
Proof.
  pose proof (keeps_other_companies_refl (company_id_ c)) as Hr.
  pose proof (keeps_other_companies_trans (company_id_ c)) as Ht.
  assert (Hs : forall db t, keeps_other_companies (company_id_ c) db
                              (with_schedule t db))
    by (intros db t x Hx _; exact Hx).
  assert (He : forall db t, keeps_other_companies (company_id_ c) db
                              (with_emails t db))
    by (intros db t x Hx _; exact Hx).
  assert (Hm : forall fault,
             respects (keeps_other_companies (company_id_ c))
               (Companies.markCompanyAsContacted fault now (company_id_ c))).
  { intros fault db. unfold Companies.markCompanyAsContacted,
      Companies.updateCompany.
    destruct fault; simpl; [apply Hr|].
    intros x Hx Hne. apply in_update_rows_other; [exact Hx|].
    unfold Companies.has_id. now apply Z.eqb_neq. }
  unfold Main.company_try, Main.verification_gate, Main.lift.
  repeat first [ apply Hm
               | apply respects_increment; assumption
               | apply respects_createEmail; assumption
               | respects_step ].
Qed.

Lemma company_loop_frame (cfg : Main.Config) (ios : nat -> Main.CompanyIO)
      (now : Timestamp) (today : Date) (cs : list Company) :
  forall (i : nat) (db : Db),
    processed (snd (Main.company_loop cfg ios now today i cs db))
    = map company_name cs
    /\ forall x, In x (companies db) ->
                 ~ In (company_id_ x) (map company_id_ cs) ->
                 In x (companies (fst (Main.company_loop cfg ios now today i cs db))).
Proof.
  induction cs as [|c cs IH]; intros i db; simpl.
  - split; [reflexivity|]. intros x Hx _. exact Hx.
  - pose proof (process_company_frame cfg (ios i) now today c db) as Hc.
    unfold Main.process_company.
    destruct (Main.company_try cfg (ios i) now today c db) as [db1 r] eqn:E.
    simpl in Hc.
    assert (Hstep : forall o,
               processed (snd (let '(db2, lines) :=
                                 Main.company_loop cfg ios now today (S i) cs db1 in
                               (db2, Main.LogCompany (company_name c) o :: lines)))
               = company_name c :: map company_name cs
               /\ forall x, In x (companies db) ->
                    ~ (company_id_ c = company_id_ x
                       \/ In (company_id_ x) (map company_id_ cs)) ->
                    In x (companies (fst (let '(db2, lines) :=
                                 Main.company_loop cfg ios now today (S i) cs db1 in
                               (db2, Main.LogCompany (company_name c) o :: lines))))).
    { intros o. destruct (IH (S i) db1) as [Hp Hf].
      destruct (Main.company_loop cfg ios now today (S i) cs db1) as [db2 lines].
      simpl in *. split; [now rewrite Hp|].
      intros x Hx Hn. apply Hf.
      - apply Hc; [exact Hx|]. intros Heq. apply Hn. now left.
      - intros Hin. apply Hn. now right. }
    destruct r as [o|e]; apply Hstep.
Qed.

(** C2, as the code has it. A run of [main] with quota [q > 0] goes through
    exactly the companies the daily query selects: the first [q] (all of
    them when there are fewer) of the rows with [email_verified = true] and
    [status = "pending"], in ascending [priority]; the query names no
    second sort key, so companies of equal priority come in the order the
    store chooses, and creation time plays no part.  Every row that does
    not carry the identifier of a selected company is left as it was; in
    particular its status stays [pending]. *)
Theorem daily_selection_by_priority :
  forall (cfg : Main.Config) (f_quota : Faults) (rank : Company -> Z)
         (ios : nat -> Main.CompanyIO) (now : Timestamp) (today : Date)
         (db db1 : Db) (quota : Z),
    EmailSchedule.getRemainingEmailQuota (Main.DAILY_EMAIL_LIMIT cfg)
      f_quota now today db = (db1, Ok quota) ->
    0 < quota ->
    let selected := Companies.daily_query rank quota (companies db) in
    exists db' lines,
      Main.main cfg f_quota (Ranked rank) ios now today db
      = (db', (lines, Undefined))
      /\ processed lines = map company_name selected
      /\ List.length selected
         = Nat.min (Z.to_nat quota)
                   (List.length (filter Companies.ready (companies db)))
      /\ (forall c, In c selected ->
          In c (companies db) /\ email_verified c = true
          /\ company_status c = "pending")
      /\ StronglySorted (fun a b => priority a <= priority b) selected
      /\ (exists ordered,
           selected = firstn (Z.to_nat quota) ordered
           /\ Permutation ordered (filter Companies.ready (companies db))
           /\ StronglySorted (fun a b => priority a <= priority b) ordered)
      /\ (forall x, In x (companies db) ->
          ~ In (company_id_ x) (map company_id_ selected) ->
          In x (companies db')).
Proof.
  intros cfg f_quota rank ios now today db db1 quota Hq Hpos selected.
  pose proof (quota_keeps_companies (Main.DAILY_EMAIL_LIMIT cfg) f_quota now
                today db) as Hsame.
  rewrite Hq in Hsame. simpl in Hsame.
  destruct (daily_query_facts rank quota (companies db))
    as (Hlen & Hin & Hsorted & Hordered).
  fold selected in Hlen, Hin, Hsorted, Hordered.
  unfold Main.main. rewrite Hq.
  assert (Hz : (quota <=? 0) = false) by (apply Z.leb_gt; lia).
  rewrite Hz. unfold Companies.getCompaniesForDailyEmails.
  rewrite Hsame. fold selected.
  destruct selected as [|c cs] eqn:Hsel.
  - exists db1, [Main.LogNoCompanies].
    split; [reflexivity|]. split; [reflexivity|].
    repeat (split; [assumption|]).
    intros x Hx _. now rewrite Hsame.
  - destruct (company_loop_frame cfg ios now today (c :: cs) 0%nat db1)
      as [Hp Hf].
    destruct (Main.company_loop cfg ios now today 0 (c :: cs) db1)
      as [db3 lines] eqn:Hloop.
    exists db3, (lines ++ [Main.LogCompleted]).
    split; [reflexivity|].
    split.
    { cbn [snd fst] in Hp. rewrite <- Hp. clear. induction lines as [|l lines IH];
        [reflexivity|]. destruct l; simpl; now rewrite ?IH. }
    repeat (split; [assumption|]).
    intros x Hx Hn. apply Hf; [now rewrite Hsame|exact Hn].
Qed.

(** The spec's quota of 2 against five eligible companies, the store
    keeping companies of equal priority in stored order. *)
Lemma daily_selection_by_priority_witness :
  exists db' lines,
    Main.main sample_config no_faults in_stored_order (fun _ => all_fine) 7
              sample_day five_db
    = (db', (lines, Undefined))
    /\ processed lines = ["Beta"; "Delta"]
    /\ In (company 1 "Alpha" 3 10) (companies db')
    /\ In (company 3 "Gamma" 2 30) (companies db')
    /\ In (company 5 "Epsilon" 5 50) (companies db').
Proof.
  destruct (daily_selection_by_priority sample_config no_faults (fun _ => 0)
              (fun _ => all_fine) 7 sample_day five_db five_db 2
              eq_refl eq_refl)
    as (db' & lines & Hrun & Hp & _ & _ & _ & _ & Hframe).
  exists db', lines. split; [exact Hrun|]. split; [exact Hp|].
  repeat split; apply Hframe; simpl; intuition discriminate.
Defined.

(** C2 as the specification words it fails: of two verified pending
    companies with the same priority, stored in the order of their
    creation, the daily query with limit 1 returns the one created later
    when the store puts that row first, as the query allows it to. *)
Lemma tie_break_counterexample :
  Companies.daily_query company_id_ 1 [earlier_company; later_company]
  = [later_company]
  /\ priority later_company = priority earlier_company
  /\ company_created_at earlier_company < company_created_at later_company.
Proof. repeat split. Qed.

(** ** The tracking webhook *)















(** The batch of the specification: identifiers A, B, C with B unknown and
    the store refusing the write for C. *)
Lemma sendgrid_batch_example :
  snd (Webhook.processSendGridWebhook third_write_fails 30
         (Webhook.PArray [sg "open" "A"; sg "open" "B"; sg "click" "C"])
         webhook_db)
  = Webhook.SgProcessed "Processed 3 SendGrid events"
      [ Webhook.mkSgResult "open" "A" (Some 1) "success" None None None;
        Webhook.mkSgResult "open" "B" None "skipped" (Some "Email not found")
                           None None;
        Webhook.mkSgResult "click" "C" None "error" None None
                           (Some "write failed") ].
Proof. reflexivity. Qed.

(** ** Bounces *)

Lemma email_for_found (m : string) (db : Db) (e : Email) :
  email_for m db = Some e ->
  limit_rows 1 (filter (Webhook.has_message_id m) (emails db)) = [e]
  /\ In e (emails db).
Proof.
  unfold email_for. intros H.
  destruct (filter (Webhook.has_message_id m) (emails db)) as [|x l] eqn:F;
    [discriminate|].
  inversion H; subst. split; [reflexivity|].
  assert (Hin : In e (filter (Webhook.has_message_id m) (emails db)))
    by (rewrite F; now left).
  now apply filter_In in Hin.
Qed.

Lemma bounce_writes (now : Timestamp) (e : Email) (db : Db) :
  In e (emails db) ->
  bounce_outcome e db
    (with_companies
       (update_rows (Companies.has_id (company_id e))
                    (Companies.set_unverified now) (companies db))
       (with_emails
          (update_rows (Webhook.has_id (email_id e)) (Webhook.set_bounced now)
                       (emails db)) db)).
Proof.
  intros Hin. unfold bounce_outcome. simpl.
  split.
  { intros x Hx Hid. unfold update_rows in Hx. apply in_map_iff in Hx.
    destruct Hx as (y & Hy & _).
    destruct (Webhook.has_id (email_id e) y) eqn:E; subst x.
    - reflexivity.
    - unfold Webhook.has_id in E. apply Z.eqb_neq in E. contradiction. }
  split.
  { exists (Webhook.set_bounced now e). split; [|split; reflexivity].
    unfold update_rows. apply in_map_iff. exists e.
    unfold Webhook.has_id. now rewrite Z.eqb_refl. }
  split.
  { intros c Hc Hid. unfold update_rows in Hc. apply in_map_iff in Hc.
    destruct Hc as (y & Hy & _).
    destruct (Companies.has_id (company_id e) y) eqn:E; subst c.
    - reflexivity.
    - unfold Companies.has_id in E. apply Z.eqb_neq in E. contradiction. }
  split; [now apply map_update_rows_key|].
  split; [now apply map_update_rows_key|].
  split; [|reflexivity].
  intros c Hc Hne. apply in_update_rows_other; [exact Hc|].
  unfold Companies.has_id. now apply Z.eqb_neq.
Qed.

(** C4. A bounce event for the stored email record [e], from either
    provider and with the store answering, sets the status of that record
    to [bounced], sets [email_verified] of the owning company to [false]
    and leaves the [status] of every company as it was. *)
Theorem bounce_unverifies_company :
  forall (f : Faults) (now : Timestamp) (m : string) (e : Email) (db : Db)
         (sg_ev : Webhook.SgEvent) (mg_ev : Webhook.MgEvent),
    email_for m db = Some e ->
    f 0%nat = None -> f 1%nat = None -> f 2%nat = None ->
    Webhook.sg_event sg_ev = "bounce" -> Webhook.sg_message_id sg_ev = m ->
    Webhook.mg_event mg_ev = "bounced" -> Webhook.mg_message_id mg_ev = m ->
    bounce_outcome e db (fst (Webhook.sendgrid_event f now sg_ev db))
    /\ Webhook.r_status (snd (Webhook.sendgrid_event f now sg_ev db)) = "success"
    /\ bounce_outcome e db (fst (Webhook.processMailgunWebhook f now mg_ev db))
    /\ Webhook.m_success (snd (Webhook.processMailgunWebhook f now mg_ev db)) = true.
Proof.
  intros f now m e db sg_ev mg_ev Hfound H0 H1 H2 Hsg Hsgm Hmg Hmgm.
  destruct (email_for_found m db e Hfound) as [Hsel Hin].
  pose proof (bounce_writes now e db Hin) as Hout.
  unfold Webhook.sendgrid_event, Webhook.sendgrid_try,
    Webhook.processMailgunWebhook, Webhook.mailgun_try, bind,
    Webhook.select_by_message_id, Webhook.update_email,
    Companies.update_by_id, ret.
  rewrite H0, H1, H2, Hsg, Hsgm, Hmg, Hmgm, Hsel. simpl.
  repeat split; try reflexivity; apply Hout.
Qed.

Lemma bounce_unverifies_company_witness :
  exists db',
    Webhook.sendgrid_event no_faults 30 (sg "bounce" "A") webhook_db
    = (db', Webhook.mkSgResult "bounce" "A" (Some 1) "success" None None None)
    /\ bounce_outcome (sent_record 1 "A") webhook_db db'
    /\ map email_verified (companies db') = [false]
    /\ map company_status (companies db') = ["contacted"]
    /\ map email_status (emails db') = ["bounced"; "sent"].
Proof.
  destruct (bounce_unverifies_company no_faults 30 "A" (sent_record 1 "A")
              webhook_db (sg "bounce" "A")
              (Webhook.mkMgEvent "bounced" "A" (Some 1700000000) None None)
              eq_refl eq_refl eq_refl eq_refl eq_refl eq_refl eq_refl eq_refl)
    as (Hsg & _ & _ & _).
  eexists. split; [reflexivity|]. split; [exact Hsg|].
  repeat split.
Defined.

(** Single-event mode: an unknown message identifier is answered with a
    failure and no table is written. *)
Lemma mailgun_not_found (f : Faults) (now : Timestamp)
      (payload : Webhook.MgEvent) (db : Db) :
  f 0%nat = None ->
  email_for (Webhook.mg_message_id payload) db = None ->
  Webhook.processMailgunWebhook f now payload db
  = (db, Webhook.mkMgResult false (Some "Email not found") None
                            (Webhook.mg_message_id payload) None None None).
Proof.
  intros H0 Hnone. unfold email_for in Hnone.
  unfold Webhook.processMailgunWebhook, Webhook.mailgun_try, bind,
    Webhook.select_by_message_id.
  rewrite H0.
  destruct (filter _ (emails db)) as [|e l]; [reflexivity|discriminate].
Qed.

(** ** Parsing the generated text *)

Section ParserFacts.
Import ContentParser.

Lemma strip_prefix_split (p s t : JsString) :
  strip_prefix p s = Some t -> s = p ++ t.
Proof.
  revert s. induction p as [|a p IH]; intros s H; simpl in H.
  - now inversion H.
  - destruct s as [|b s]; [discriminate|].
    destruct (N.eqb_spec a b); [|discriminate].
    subst. simpl. f_equal. now apply IH.
Qed.

Lemma first_marker_split (s before after : JsString) :
  first_marker s = Some (before, after) -> s = before ++ MARKER ++ after.
Proof.
  revert before. induction s as [|c s IH]; intros before H.
  - simpl in H. discriminate.
  - cbn [first_marker] in H.
    destruct (strip_prefix MARKER (c :: s)) as [t|] eqn:E.
    + inversion H; subst. exact (strip_prefix_split MARKER _ _ E).
    + destruct (first_marker s) as [[b a]|]; [|discriminate].
      inversion H; subst. simpl. f_equal. now apply IH.
Qed.

(** A pattern that starts with the marker matches where the text after
    the first marker lets it, and nowhere in a text without marker. *)
Lemma search_from_marker {A} (g : JsString -> option A) (s : JsString) :
  match first_marker s with
  | None =>
      search (fun s => match strip_prefix MARKER s with
                       | Some t => g t
                       | None => None
                       end) s = None
  | Some (_, after) =>
      forall r, g after = Some r ->
        search (fun s => match strip_prefix MARKER s with
                         | Some t => g t
                         | None => None
                         end) s = Some r
  end.
Proof.
  induction s as [|c s IH].
  - reflexivity.
  - cbn [first_marker search].
    destruct (strip_prefix MARKER (c :: s)) as [t|] eqn:E.
    + intros r Hr. now rewrite Hr.
    + destruct (first_marker s) as [[b a]|]; exact IH.
Qed.

Lemma scan_line_text (text ending : JsString) :
  forallb not_terminator text = true ->
  match ending with [] => True | c :: _ => c = 10%N end ->
  scan_line (text ++ ending) = Some (text, tl ending).
Proof.
  intros Ht He. induction text as [|c text IH]; simpl.
  - destruct ending as [|c ending]; [reflexivity|]. subst. reflexivity.
  - simpl in Ht. apply andb_true_iff in Ht. destruct Ht as [Hc Ht].
    unfold not_terminator in Hc. apply negb_true_iff in Hc.
    assert (Hn : (c =? 10)%N = false).
    { unfold is_line_terminator in Hc.
      repeat (apply orb_false_iff in Hc; destruct Hc as [Hc ?]). exact Hc. }
    rewrite Hn, Hc, (IH Ht). reflexivity.
Qed.

Lemma spaces_then_line_text (text ending : JsString) :
  forallb not_terminator text = true ->
  match ending with [] => True | c :: _ => c = 10%N end ->
  existsb not_space text = true \/ ending = [] ->
  spaces_then_line (text ++ ending) = Some (trim_start text).
Proof.
  intros Ht He. induction text as [|c text IH]; intros Hx.
  - destruct Hx as [Hx|Hx]; [discriminate|]. subst. reflexivity.
  - pose proof (scan_line_text (c :: text) ending Ht He) as Hs.
    simpl in Ht. apply andb_true_iff in Ht. destruct Ht as [_ Ht].
    cbn [app spaces_then_line trim_start].
    destruct (is_space c) eqn:Hc.
    + rewrite (IH Ht); [reflexivity|].
      destruct Hx as [Hx|Hx]; [left|now right].
      simpl in Hx. unfold not_space at 1 in Hx. now rewrite Hc in Hx.
    + change (c :: text ++ ending) with ((c :: text) ++ ending).
      rewrite Hs. reflexivity.
Qed.

Lemma trim_start_idempotent (s : JsString) :
  trim_start (trim_start s) = trim_start s.
Proof.
  induction s as [|c s IH]; [reflexivity|]. simpl.
  destruct (is_space c) eqn:E; [exact IH|]. simpl. now rewrite E.
Qed.

Lemma trim_after_trim_start (s : JsString) : trim (trim_start s) = trim s.
Proof. unfold trim. now rewrite trim_start_idempotent. Qed.

End ParserFacts.

(** [parseGeneratedContent] on the responses the prompt asks for.  When
    the response holds no [SUBJECT:] marker
    the subject is "Job Application" and the body is the whole response.
    When the first marker is followed on its line by [text], the line
    ending with a line feed or with the response, and [text] holds no other
    line terminator and at least one character that is not white space (or
    the response ends with the line), the subject is [text] trimmed and the
    body is what follows the line, trimmed. *)
Theorem parse_generated_content_lines :
  forall content : JsString,
    (ContentParser.first_marker content = None ->
     ContentParser.parseGeneratedContent content
     = (ContentParser.DEFAULT_SUBJECT, content))
    /\ (forall before text ending,
          ContentParser.first_marker content = Some (before, text ++ ending) ->
          forallb not_terminator text = true ->
          match ending with [] => True | c :: _ => c = 10%N end ->
          existsb not_space text = true \/ ending = [] ->
          content = before ++ ContentParser.MARKER ++ text ++ ending
          /\ ContentParser.parseGeneratedContent content
             = (ContentParser.trim text, ContentParser.trim (tl ending))).
Proof.
  intros content.
  pose proof (search_from_marker ContentParser.spaces_then_line content) as Hs.
  pose proof (search_from_marker
                (fun t => option_map snd (ContentParser.scan_line t)) content)
    as Hb.
  unfold ContentParser.parseGeneratedContent, ContentParser.subjectMatch,
    ContentParser.bodyMatch.
  split.
  - intros Hnone. rewrite Hnone in Hs, Hb. now rewrite Hs, Hb.
  - intros before text ending Hm Ht He Hx.
    split; [now apply first_marker_split|].
    rewrite Hm in Hs, Hb.
    rewrite (Hs _ (spaces_then_line_text text ending Ht He Hx)).
    rewrite (Hb (tl ending)).
    + now rewrite trim_after_trim_start.
    + now rewrite (scan_line_text text ending Ht He).
Qed.

(** The response the prompt asks for. *)
Lemma parse_generated_content_lines_witness :
  ContentParser.parseGeneratedContent
    (js "SUBJECT: Application for the backend role" ++ LF ++ LF
     ++ js "Dear team," ++ LF ++ js "I would like to apply." ++ LF)
  = (js "Application for the backend role",
     js "Dear team," ++ LF ++ js "I would like to apply.").
Proof.
  destruct (parse_generated_content_lines
              (js "SUBJECT: Application for the backend role" ++ LF ++ LF
               ++ js "Dear team," ++ LF ++ js "I would like to apply." ++ LF))
    as [_ H].
  destruct (H [] (js " Application for the backend role")
              (LF ++ LF ++ js "Dear team," ++ LF
               ++ js "I would like to apply." ++ LF)
              eq_refl eq_refl eq_refl (or_introl eq_refl)) as [_ Hp].
  exact Hp.
Defined.

(** C8. [parseGeneratedContent] on two responses that hold the marker,
    where it does not do what its comments say ([Extract the subject line],
    [Extract the body (everything after the subject line)]).  With nothing
    after the marker on its line, [\s*] runs over the line end: the subject
    is taken from the next line and that line is also in the body.  With a
    CR LF line ending, [.] stops at the CR and neither pattern matches: the
    subject is the default and the body is the whole response, marker
    included. *)
Lemma parse_generated_content_counterexample :
  ContentParser.parseGeneratedContent blank_subject_text
  = (js "Hello", js "Hello" ++ LF ++ js "World")
  /\ ContentParser.first_marker crlf_text = Some ([], js " Hi" ++ CRLF ++ js "Body")
  /\ ContentParser.parseGeneratedContent crlf_text
     = (ContentParser.DEFAULT_SUBJECT, crlf_text).
Proof. repeat split. Qed.

(** ** Email verification *)

Lemma strict_eq_string_spec (x : EmailVerification.JsValue) (s : string) :
  EmailVerification.strict_eq_string x s = true
  <-> x = EmailVerification.JString s.
Proof.
  destruct x; simpl; try (split; intros H; discriminate).
  rewrite String.eqb_eq. split; intros H; [now subst|now inversion H].
Qed.

(** C10, as the code has it. [verifyEmail] answers [isValid = true]
    exactly when the provider's [status] is the string "valid".  [main]
    asks for this check only under [if (!company.email_verified)]: a
    company whose flag is [false] and whose address gets any other status
    is skipped, nothing being generated, sent or written; a company whose
    flag is [true] passes the gate with no request made, whatever the
    provider would answer; and the daily query selects companies whose
    flag is [true] only. *)
Theorem only_valid_status_passes :
  forall (cfg : Main.Config) (key address : string) (io : Main.CompanyIO)
         (now : Timestamp) (today : Date) (c : Company)
         (data : EmailVerification.VerifierData) (db : Db),
    Main.HUNTER_API_KEY cfg = Some key ->
    key <> "" ->
    contact_email c = Some address ->
    address <> "" ->
    Main.io_verify io = EmailVerification.Answer data ->
    (exists v,
        EmailVerification.verifyEmail (Some key)
          (EmailVerification.Answer data) address = Ok v
        /\ EmailVerification.ver_status v = EmailVerification.v_status data
        /\ (EmailVerification.isValid v = true
            <-> EmailVerification.v_status data
                = EmailVerification.JString "valid"))
    /\ (email_verified c = false ->
        EmailVerification.v_status data <> EmailVerification.JString "valid" ->
        Main.process_company cfg io now today c db = (db, Main.SkippedInvalid))
    /\ (email_verified c = true ->
        Main.verification_gate cfg io c db = (db, Ok None))
    /\ (forall rank limit x,
          In x (Companies.daily_query rank limit (companies db)) ->
          email_verified x = true).
Proof.
  intros cfg key address io now today c data db Hkey Hk Hc Ha Hio.
  assert (Hkt : truthy (Some key) = true).
  { simpl. apply negb_true_iff. now apply String.eqb_neq. }
  split.
  { unfold EmailVerification.verifyEmail. rewrite Hkt.
    eexists. split; [reflexivity|]. split; [reflexivity|].
    simpl. apply strict_eq_string_spec. }
  split.
  { intros Hv Hs.
    assert (Hf : EmailVerification.strict_eq_string
                   (EmailVerification.v_status data) "valid" = false).
    { destruct (EmailVerification.strict_eq_string _ _) eqn:E; [|reflexivity].
      apply strict_eq_string_spec in E. contradiction. }
    assert (Ht : truthy (Some address) = true).
    { simpl. apply negb_true_iff. now apply String.eqb_neq. }
    unfold Main.process_company, Main.company_try, Main.verification_gate,
      bind, Main.lift, ret.
    unfold EmailVerification.verifyEmail.
    rewrite Hv, Hc, Ht, Hkey, Hkt, Hio. simpl. rewrite Hf. reflexivity. }
  split.
  { intros Hv. unfold Main.verification_gate. now rewrite Hv. }
  intros rank limit x Hx.
  destruct (daily_query_facts rank limit (companies db)) as (_ & H & _).
  now destruct (H x Hx) as (_ & Hverified & _).
Qed.

Lemma only_valid_status_passes_witness :
  Main.process_company sample_config accept_all_io 7 sample_day
    unverified_company unverified_db
  = (unverified_db, Main.SkippedInvalid).
Proof.
  destruct (only_valid_status_passes sample_config "hunter-key"
              "jobs@initech.example" accept_all_io 7 sample_day
              unverified_company accept_all_answer unverified_db
              eq_refl ltac:(discriminate) eq_refl
              ltac:(discriminate) eq_refl)
    as (_ & H & _).
  apply H; [reflexivity|discriminate].
Defined.

(** C10 as the specification words it fails: a company whose address the
    provider classifies as accept-all, so not valid, is mailed by [main]
    all the same when the store holds it as verified; no verification is
    requested for it. *)
Lemma verified_company_is_not_checked :
  exists db' v,
    Main.main sample_config no_faults in_stored_order (fun _ => accept_all_io)
              7 sample_day trusted_db
    = (db', ([Main.LogCompany "Initech" Main.Processed; Main.LogCompleted],
             Undefined))
    /\ EmailVerification.verifyEmail (Some "hunter-key")
         (Main.io_verify accept_all_io) "jobs@initech.example" = Ok v
    /\ EmailVerification.isValid v = false
    /\ contact_email trusted_company = Some "jobs@initech.example"
    /\ map company_id (emails db') = [company_id_ trusted_company]
    /\ map company_status (companies db') = ["contacted"].
Proof.
  eexists. eexists.
  split; [vm_compute; reflexivity|].
  split; [reflexivity|]. repeat split.
Qed.

(** ** The orchestrators *)

(** The companies [main] selects are verified already: the block under
    [if (!company.email_verified)] is not entered for them. *)
Lemma selected_companies_pass_the_gate (cfg : Main.Config)
      (io : Main.CompanyIO) (rank : Company -> Z) (quota : Z)
      (t : list Company) (c : Company) (db : Db) :
  In c (Companies.daily_query rank quota t) ->
  Main.verification_gate cfg io c db = (db, Ok None).
Proof.
  intros Hin. destruct (daily_query_facts rank quota t) as (_ & H & _).
  destruct (H c Hin) as (_ & Hv & _).
  unfold Main.verification_gate. now rewrite Hv.
Qed.

(** The loop of the daily workflow ends before the last company only by
    its [break], with the schedule in memory completed; its results name
    the companies it went through, in order. *)
Lemma workflow_loop_shape (ios : nat -> DailyWorkflow.CompanyIO)
      (now : Timestamp) (template : Template) (cs : list Company) :
  forall (i : nat) (schedule : Schedule) (db : Db),
    map cr_company
        (snd (snd (DailyWorkflow.company_loop ios now template i cs schedule db)))
    = firstn (List.length
                (snd (snd (DailyWorkflow.company_loop ios now template i cs
                             schedule db))))
             (map company_name cs)
    /\ (List.length
          (snd (snd (DailyWorkflow.company_loop ios now template i cs schedule db)))
        = List.length cs
        \/ is_completed
             (fst (snd (DailyWorkflow.company_loop ios now template i cs
                          schedule db))) = true).
Proof.
  induction cs as [|c cs IH]; intros i schedule db.
  - simpl. split; [reflexivity|now left].
  - cbn [DailyWorkflow.company_loop].
    destruct (DailyWorkflow.company_try (ios i) now template schedule c db)
      as [db1 [[content record]|e]].
    + destruct (is_completed (DailyWorkflow.bump schedule)) eqn:Hdone.
      * simpl. split; [reflexivity|]. right. exact Hdone.
      * specialize (IH (S i) (DailyWorkflow.bump schedule) db1).
        destruct (DailyWorkflow.company_loop ios now template (S i) cs
                    (DailyWorkflow.bump schedule) db1) as [db2 [s2 rs]].
        simpl in *. destruct IH as [Hn Hl].
        split; [now rewrite Hn|]. destruct Hl as [Hl|Hl]; [left|now right].
        now rewrite Hl.
    + specialize (IH (S i) schedule db1).
      destruct (DailyWorkflow.company_loop ios now template (S i) cs
                  schedule db1) as [db2 [s2 rs]].
      simpl in *. destruct IH as [Hn Hl].
      split; [now rewrite Hn|]. destruct Hl as [Hl|Hl]; [left|now right].
      now rewrite Hl.
Qed.

Lemma main_returns_undefined (cfg : Main.Config) (f_quota : Faults)
      (f_select : Select Company) (ios : nat -> Main.CompanyIO)
      (now : Timestamp) (today : Date) (db : Db) :
  snd (snd (Main.main cfg f_quota f_select ios now today db)) = Undefined.
Proof.
  unfold Main.main.
  destruct (EmailSchedule.getRemainingEmailQuota _ _ _ _ _) as [db1 [q|e]];
    [|reflexivity].
  destruct (q <=? 0); [reflexivity|].
  destruct (Companies.getCompaniesForDailyEmails _ _ _) as [db2 [[|c cs]|e]];
    try reflexivity.
  destruct (Main.company_loop _ _ _ _ _ _ _). reflexivity.
Qed.

(** C5, as the code has it. A failure while a company is processed is
    caught in both orchestrators and the loop goes on with the next
    company.  The daily workflow records it as that company's "error"
    result, ends its loop early only by the [break] that follows a send
    completing the schedule, and returns the results with the schedule it
    holds in memory.  [main] reports the failure on the console, goes
    through every selected company, and returns no value. *)
Theorem company_failures_do_not_abort :
  forall (ios : nat -> DailyWorkflow.CompanyIO) (mios : nat -> Main.CompanyIO)
         (cfg : Main.Config) (now : Timestamp) (today : Date)
         (template : Template) (schedule : Schedule) (i : nat) (c : Company)
         (rest : list Company) (db db1 db2 : Db) (e e' : Error),
    DailyWorkflow.company_try (ios i) now template schedule c db = (db1, Err e) ->
    Main.company_try cfg (mios i) now today c db = (db2, Err e') ->
    (exists after final results,
        DailyWorkflow.company_loop ios now template (S i) rest schedule db1
        = (after, (final, results))
        /\ DailyWorkflow.company_loop ios now template i (c :: rest) schedule db
           = (after, (final, DailyWorkflow.error_result c e :: results))
        /\ cr_company (DailyWorkflow.error_result c e) = company_name c
        /\ cr_status (DailyWorkflow.error_result c e) = "error"
        /\ cr_error (DailyWorkflow.error_result c e) = Some (message e))
    /\ (forall cs j s d,
          map cr_company
              (snd (snd (DailyWorkflow.company_loop ios now template j cs s d)))
          = firstn (List.length
                      (snd (snd (DailyWorkflow.company_loop ios now template j
                                   cs s d))))
                   (map company_name cs)
          /\ (List.length
                (snd (snd (DailyWorkflow.company_loop ios now template j cs s d)))
              = List.length cs
              \/ is_completed
                   (fst (snd (DailyWorkflow.company_loop ios now template j
                                cs s d))) = true))
    /\ (forall sf rank d ds dq sch c0 cs0,
          DailyWorkflow.f_templates sf = Ranked rank ->
          DailyWorkflow.todays_schedule sf now today d = (ds, Ok sch) ->
          is_completed sch || (emails_limit sch <=? emails_sent sch) = false ->
          Companies.getCompaniesForDailyEmails (DailyWorkflow.f_companies sf)
            (emails_limit sch - emails_sent sch) ds = (dq, Ok (c0 :: cs0)) ->
          exists after final results,
            DailyWorkflow.company_loop ios now (template_of rank dq) 0
              (c0 :: cs0) sch dq = (after, (final, results))
            /\ DailyWorkflow.execute sf ios now today d
               = (after,
                  RunDone ("Processed " ++ decimal (List.length results)
                           ++ " companies")%string
                          (Some results) (Some final)))
    /\ (exists after lines,
          Main.company_loop cfg mios now today (S i) rest db2 = (after, lines)
          /\ Main.company_loop cfg mios now today i (c :: rest) db
             = (after, Main.LogCompany (company_name c) (Main.Failed e') :: lines))
    /\ (forall cs j d,
          processed (snd (Main.company_loop cfg mios now today j cs d))
          = map company_name cs)
    /\ (forall f_quota f_select d,
          snd (snd (Main.main cfg f_quota f_select mios now today d))
          = Undefined).
Proof.
  intros ios mios cfg now today template schedule i c rest db db1 db2 e e'
         Hw Hm.
  split.
  { destruct (DailyWorkflow.company_loop ios now template (S i) rest schedule db1)
      as [after [final results]] eqn:Hloop.
    exists after, final, results. split; [reflexivity|].
    cbn [DailyWorkflow.company_loop]. rewrite Hw, Hloop.
    repeat split. }
  split.
  { intros cs j s d. apply workflow_loop_shape. }
  split.
  { intros sf rank d ds dq sch c0 cs0 Ht Hs Hq Hc.
    destruct (DailyWorkflow.company_loop ios now (template_of rank dq) 0
                (c0 :: cs0) sch dq) as [after [final results]] eqn:Hloop.
    exists after, final, results. split; [reflexivity|].
    unfold DailyWorkflow.execute. rewrite Hs, Hq, Hc, Ht.
    fold (template_of rank dq). rewrite Hloop. reflexivity. }
  split.
  { destruct (Main.company_loop cfg mios now today (S i) rest db2)
      as [after lines] eqn:Hloop.
    exists after, lines. split; [reflexivity|].
    cbn [Main.company_loop]. unfold Main.process_company.
    rewrite Hm, Hloop. reflexivity. }
  split.
  { intros cs j d. apply company_loop_frame. }
  intros f_quota f_select d. apply main_returns_undefined.
Qed.

Lemma company_failures_do_not_abort_witness :
  exists after final results,
    DailyWorkflow.company_loop workflow_ios 7 DailyWorkflow.default_template 1
      [delta] sample_schedule five_db = (after, (final, results))
    /\ DailyWorkflow.company_loop workflow_ios 7 DailyWorkflow.default_template 0
         [beta; delta] sample_schedule five_db
       = (after, (final, DailyWorkflow.error_result beta send_refused :: results))
    /\ map cr_status results = ["sent"]
    /\ emails_sent final = 1.
Proof.
  destruct (company_failures_do_not_abort workflow_ios main_ios sample_config
              7 sample_day DailyWorkflow.default_template sample_schedule
              0%nat beta [delta] five_db five_db five_db
              send_refused send_refused eq_refl eq_refl)
    as ((after & final & results & Hrest & Hall & _) & _).
  exists after, final, results.
  split; [exact Hrest|]. split; [exact Hall|].
  vm_compute in Hrest. inversion Hrest. split; reflexivity.
Defined.

(** C5 as the specification words it fails for [main]: a run in which the
    delivery service refuses the first company goes on to the second, but
    the failure is only written to the console and the run returns
    [undefined], neither an outcome list nor a schedule. *)
Lemma main_returns_no_outcome_list :
  exists db' lines,
    Main.main sample_config no_faults in_stored_order main_ios 7 sample_day
              five_db
    = (db', (lines, Undefined))
    /\ lines = [ Main.LogCompany "Beta" (Main.Failed send_refused);
                 Main.LogCompany "Delta" Main.Processed;
                 Main.LogCompleted ]
    /\ outcome_list Undefined = None
    /\ final_schedule Undefined = None.
Proof. eexists. eexists. repeat split. Qed.

(** The counter of the daily workflow, which has no limit check of its own
    at step 4.5, stays within the limit all the same: the loop is entered
    below the limit and left by the [break] when the limit is reached. *)
Lemma workflow_counter_within_limit (ios : nat -> DailyWorkflow.CompanyIO)
      (now : Timestamp) (template : Template) (cs : list Company) :
  forall (i : nat) (schedule : Schedule) (db : Db),
    emails_sent schedule < emails_limit schedule ->
    emails_limit
      (fst (snd (DailyWorkflow.company_loop ios now template i cs schedule db)))
    = emails_limit schedule
    /\ emails_sent schedule
       <= emails_sent
            (fst (snd (DailyWorkflow.company_loop ios now template i cs
                         schedule db)))
       <= emails_limit schedule.
Proof.
  induction cs as [|c cs IH]; intros i schedule db Hlt.
  - simpl. split; [reflexivity|lia].
  - cbn [DailyWorkflow.company_loop].
    destruct (DailyWorkflow.company_try (ios i) now template schedule c db)
      as [db1 [[content record]|e]].
    + destruct (is_completed (DailyWorkflow.bump schedule)) eqn:Hdone.
      * simpl. split; [reflexivity|lia].
      * simpl in Hdone. apply Z.leb_gt in Hdone.
        specialize (IH (S i) (DailyWorkflow.bump schedule) db1).
        simpl in IH. specialize (IH Hdone).
        destruct (DailyWorkflow.company_loop ios now template (S i) cs
                    (DailyWorkflow.bump schedule) db1) as [db2 [s2 rs]].
        simpl in *. destruct IH as [Hl Hs]. split; [exact Hl|lia].
    + specialize (IH (S i) schedule db1 Hlt).
      destruct (DailyWorkflow.company_loop ios now template (S i) cs
                  schedule db1) as [db2 [s2 rs]].
      simpl in *. exact IH.
Qed.

(** * Further properties *)

(** ** The quota tracker *)

(** With today's row in place and the store answering, the remaining quota
    is [max(0, limit - sent)] and reading it writes nothing; it is positive
    exactly when [incrementEmailsSent] goes through, and when it is zero
    the increment throws the limit error. *)
Theorem quota_agrees_with_increment :
  forall (D : Z) (f g : Faults) (now : Timestamp) (today : Date) (db : Db)
         (row : Schedule),
    EmailSchedule.find_schedule today (email_schedule db) = Some row ->
    f 0%nat = None -> g 0%nat = None -> g 1%nat = None ->
    EmailSchedule.getRemainingEmailQuota D f now today db
    = (db, Ok (Z.max 0 (emails_limit row - emails_sent row)))
    /\ EmailSchedule.canSendMoreEmails D f now today db
       = (db, Ok (emails_sent row <? emails_limit row))
    /\ (if emails_sent row <? emails_limit row
        then returned (EmailSchedule.incrementEmailsSent g now today db) = true
        else EmailSchedule.incrementEmailsSent g now today db
             = (db, Err (QuotaExceeded today))).
Proof.
  intros D f g now today db row Hf Hf0 Hg0 Hg1.
  assert (Hq : EmailSchedule.getRemainingEmailQuota D f now today db
               = (db, Ok (Z.max 0 (emails_limit row - emails_sent row)))).
  { unfold EmailSchedule.getRemainingEmailQuota, bind,
      EmailSchedule.getEmailSchedule.
    now rewrite Hf0, Hf. }
  split; [exact Hq|]. split.
  - unfold EmailSchedule.canSendMoreEmails, bind. rewrite Hq. unfold ret.
    f_equal. f_equal.
    destruct (emails_sent row <? emails_limit row) eqn:E.
    + apply Z.ltb_lt in E. apply Z.ltb_lt. lia.
    + apply Z.ltb_ge in E. apply Z.ltb_ge. lia.
  - destruct (emails_sent row <? emails_limit row) eqn:E.
    + apply Z.ltb_lt in E.
      unfold EmailSchedule.incrementEmailsSent, bind,
        EmailSchedule.getEmailSchedule, EmailSchedule.update_schedule.
      rewrite Hg0, Hf, Hg1.
      assert (Hl : (emails_limit row <=? emails_sent row) = false)
        by (apply Z.leb_gt; lia).
      now rewrite Hl.
    + apply Z.ltb_ge in E. now apply increment_at_limit with (row := row).
Qed.

Lemma quota_agrees_with_increment_witness :
  EmailSchedule.getRemainingEmailQuota 5 no_faults 7 sample_day used_db
  = (used_db, Ok 2)
  /\ EmailSchedule.canSendMoreEmails 5 no_faults 7 sample_day used_db
     = (used_db, Ok true)
  /\ returned (EmailSchedule.incrementEmailsSent no_faults 7 sample_day used_db)
     = true.
Proof.
  exact (quota_agrees_with_increment 5 no_faults no_faults 7 sample_day used_db
           used_schedule eq_refl eq_refl eq_refl eq_refl).
Defined.

(** A call of [incrementEmailsSent] that returns hands back the row with
    the counter one higher, lowers the remaining quota of the day by
    exactly one, and sets [is_completed] exactly when no quota is left;
    the other tables are not written. *)
Theorem increment_uses_one_unit :
  forall (D : Z) (f g : Faults) (now later : Timestamp) (today : Date)
         (db db' : Db) (row : Schedule) (r : option Schedule),
    schedule_constraints (email_schedule db) ->
    EmailSchedule.find_schedule today (email_schedule db) = Some row ->
    EmailSchedule.incrementEmailsSent f now today db = (db', Ok r) ->
    g 0%nat = None ->
    exists row',
      r = Some row'
      /\ EmailSchedule.find_schedule today (email_schedule db') = Some row'
      /\ emails_sent row' = emails_sent row + 1
      /\ emails_limit row' = emails_limit row
      /\ EmailSchedule.getRemainingEmailQuota D g later today db'
         = (db', Ok (emails_limit row - emails_sent row - 1))
      /\ is_completed row' = (emails_limit row - emails_sent row - 1 =? 0)
      /\ companies db' = companies db
      /\ emails db' = emails db.
Proof.
  intros D f g now later today db db' row r Hc Hf Hrun Hg0.
  destruct (increment_returns f now today db db' r row Hf Hrun)
    as (Hlt & Hdb & Hf').
  destruct (same_row_by_id_or_date today (email_schedule db) row
              (EmailSchedule.set_sent row now) Hc Hf) as [_ Hupd].
  unfold EmailSchedule.incrementEmailsSent, bind,
    EmailSchedule.getEmailSchedule in Hrun.
  destruct (f 0%nat); [discriminate|]. rewrite Hf in Hrun.
  destruct (emails_limit row <=? emails_sent row); [discriminate|].
  unfold EmailSchedule.update_schedule in Hrun.
  destruct (f 1%nat); [discriminate|]. unfold ret in Hrun.
  rewrite Hupd in Hrun. simpl in Hrun. inversion Hrun as [[Hd Hr]].
  exists (EmailSchedule.set_sent row now row).
  split; [reflexivity|]. split; [now rewrite Hd|].
  split; [reflexivity|]. split; [reflexivity|].
  split.
  { rewrite Hd. unfold EmailSchedule.getRemainingEmailQuota, bind,
      EmailSchedule.getEmailSchedule.
    rewrite Hg0, Hf'. unfold ret. simpl. f_equal. f_equal. lia. }
  split.
  { simpl. destruct (emails_limit row <=? emails_sent row + 1) eqn:E.
    - apply Z.leb_le in E. symmetry. apply Z.eqb_eq. lia.
    - apply Z.leb_gt in E. symmetry. apply Z.eqb_neq. lia. }
  split; reflexivity.
Qed.

Lemma increment_uses_one_unit_witness :
  exists db' row',
    EmailSchedule.incrementEmailsSent no_faults 7 sample_day used_db
    = (db', Ok (Some row'))
    /\ emails_sent row' = 4
    /\ EmailSchedule.getRemainingEmailQuota 5 no_faults 8 sample_day db'
       = (db', Ok 1)
    /\ is_completed row' = false.
Proof.
  assert (Hc : schedule_constraints (email_schedule used_db)).
  { split; simpl; repeat constructor; intros []. }
  destruct (EmailSchedule.incrementEmailsSent no_faults 7 sample_day used_db)
    as [db' [r|e]] eqn:E; [|discriminate E].
  destruct (increment_uses_one_unit 5 no_faults no_faults 7 8 sample_day
              used_db db' used_schedule r Hc eq_refl E eq_refl)
    as (row' & Hr & _ & Hs & _ & Hq & Hdone & _).
  exists db', row'. subst r.
  split; [reflexivity|]. split; [exact Hs|]. split; [exact Hq|exact Hdone].
Defined.

(** Rows a run of the generator finds in place keep their counter, their
    completion flag and their identifier. *)
Lemma generate_loop_keeps_counters (RATE : Z) (f : Faults) (now : Timestamp)
      (dates : nat -> Date) :
  (forall k, f k = None) ->
  forall (days i : nat) (limit : Z) (db : Db),
    schedule_constraints (email_schedule db) ->
    forall d s,
      EmailSchedule.find_schedule d (email_schedule db) = Some s ->
      exists s',
        EmailSchedule.find_schedule d
          (email_schedule
             (fst (EmailSchedule.generate_loop RATE f now dates days i limit db)))
        = Some s'
        /\ emails_sent s' = emails_sent s
        /\ is_completed s' = is_completed s
        /\ schedule_id s' = schedule_id s
        /\ ((forall k, (k < days)%nat -> dates (i + k)%nat <> d) -> s' = s).
Proof.
  intros Hf. induction days as [|days IH]; intros i limit db Hc d s Hs.
  - exists s. simpl. repeat (split; [assumption || reflexivity|]). tauto.
  - cbn [EmailSchedule.generate_loop]. unfold bind at 1.
    destruct (create_or_update_summary (shift (2 * i) f) now
                (dates i) limit db Hc (Hf _) (Hf _))
      as (db1 & s1 & Hrun & Hfind & Hlim & _ & _ & Hframe & Hcase & Hc1).
    rewrite Hrun.
    assert (Hmid : exists m,
               EmailSchedule.find_schedule d (email_schedule db1) = Some m
               /\ emails_sent m = emails_sent s
               /\ is_completed m = is_completed s
               /\ schedule_id m = schedule_id s
               /\ (d <> dates i -> m = s)).
    { destruct (Z.eq_dec d (dates i)) as [->|Hne].
      - rewrite Hs in Hcase. destruct Hcase as (H1 & H2 & H3 & _).
        exists s1. repeat (split; [assumption|]). intros C. now elim C.
      - exists s. rewrite (Hframe d Hne).
        repeat (split; [assumption || reflexivity|]). reflexivity. }
    destruct Hmid as (m & Hm & Hm1 & Hm2 & Hm3 & Hm4).
    destruct (IH (S i) (limit + RATE) db1 Hc1 d m Hm)
      as (s' & Hs' & H1 & H2 & H3 & H4).
    unfold bind.
    destruct (EmailSchedule.generate_loop RATE f now dates days (S i)
                (limit + RATE) db1) as [db2 [rows|e]]; simpl in *;
      exists s'; (split; [exact Hs'|]);
      (split; [congruence|]); (split; [congruence|]); (split; [congruence|]);
      intros Hd; (rewrite H4;
        [apply Hm4; intros C; apply (Hd 0%nat); [lia|];
         now rewrite Nat.add_0_r
        |intros k Hk; replace (S (i + k)) with (i + S k)%nat by lia;
         apply Hd; lia]).
Qed.

(** [generateEmailSchedules], with the store answering, changes limits
    only: every row it finds keeps [emails_sent], [is_completed] and its
    identifier, a row whose date is none of the dates the run writes is
    untouched, the key constraints still hold, and the other tables are not
    written.  [dates i] is the date the [i]-th pass of the loop reads. *)
Theorem generate_schedules_keeps_counters :
  forall (D RATE : Z) (f : Faults) (now : Timestamp) (dates : nat -> Date)
         (days : nat) (db : Db) (d : Date) (s : Schedule),
    schedule_constraints (email_schedule db) ->
    (forall k, f k = None) ->
    EmailSchedule.find_schedule d (email_schedule db) = Some s ->
    exists db' rows s',
      EmailSchedule.generateEmailSchedules D RATE f now dates days db
      = (db', Ok rows)
      /\ EmailSchedule.find_schedule d (email_schedule db') = Some s'
      /\ emails_sent s' = emails_sent s
      /\ is_completed s' = is_completed s
      /\ schedule_id s' = schedule_id s
      /\ ((forall i, (i < days)%nat -> dates i <> d) -> s' = s)
      /\ schedule_constraints (email_schedule db')
      /\ companies db' = companies db
      /\ emails db' = emails db.
Proof.
  intros D RATE f now dates days db d s Hc Hf Hs.
  assert (Hsh : forall k, shift 1 f k = None) by (intros k; apply Hf).
  unfold EmailSchedule.generateEmailSchedules, bind, EmailSchedule.select_latest.
  rewrite Hf.
  set (limit := match EmailSchedule.latest (email_schedule db) with
                | Some l => emails_limit l + RATE
                | None => D
                end).
  destruct (generate_loop_rows RATE (shift 1 f) now dates Hsh days 0 limit db Hc)
    as (db' & rows & Hloop & Hc' & _ & Hco & Hem & _ & _).
  destruct (generate_loop_keeps_counters RATE (shift 1 f) now dates Hsh days 0
              limit db Hc d s Hs) as (s' & Hs' & H1 & H2 & H3 & H4).
  rewrite Hloop in *. simpl in Hs'.
  exists db', (map Some rows), s'.
  split; [reflexivity|]. split; [exact Hs'|].
  split; [exact H1|]. split; [exact H2|]. split; [exact H3|].
  split; [intros Hd; apply H4; intros k Hk; simpl; now apply Hd|].
  split; [exact Hc'|]. split; assumption.
Qed.

Lemma generate_schedules_keeps_counters_witness :
  exists db' rows s',
    EmailSchedule.generateEmailSchedules 5 2 no_faults 9
      (days_from sample_day) 3 used_db
    = (db', Ok rows)
    /\ EmailSchedule.find_schedule sample_day (email_schedule db') = Some s'
    /\ emails_sent s' = 3
    /\ schedule_id s' = 4.
Proof.
  assert (Hc : schedule_constraints (email_schedule used_db)).
  { split; simpl; repeat constructor; intros []. }
  destruct (generate_schedules_keeps_counters 5 2 no_faults 9
              (days_from sample_day) 3
              used_db sample_day used_schedule Hc (fun _ => eq_refl) eq_refl)
    as (db' & rows & s' & Hrun & Hs' & H1 & _ & H3 & _).
  exists db', rows, s'. repeat (split; [assumption|]). exact H3.
Defined.

(** [createOrUpdateEmailSchedule] does not recompute [is_completed].  When
    the limit of a completed day is raised above its counter, the flag
    stays set: [getRemainingEmailQuota], and with it [main], sees the new
    room, while the daily workflow, which tests the flag first, reports the
    limit as reached and writes nothing. *)
Theorem raised_limit_splits_the_orchestrators :
  forall (D : Z) (f g : Faults) (now later : Timestamp) (today : Date)
         (limit : Z) (db : Db) (s : Schedule)
         (sf : DailyWorkflow.SetupFaults) (ios : nat -> DailyWorkflow.CompanyIO),
    schedule_constraints (email_schedule db) ->
    EmailSchedule.find_schedule today (email_schedule db) = Some s ->
    is_completed s = true ->
    emails_sent s < limit ->
    f 0%nat = None -> f 1%nat = None -> g 0%nat = None ->
    DailyWorkflow.f_schedule_read sf = None ->
    exists db' s',
      EmailSchedule.createOrUpdateEmailSchedule f now today limit db
      = (db', Ok (Some s'))
      /\ emails_limit s' = limit
      /\ is_completed s' = true
      /\ EmailSchedule.getRemainingEmailQuota D g later today db'
         = (db', Ok (limit - emails_sent s))
      /\ 0 < limit - emails_sent s
      /\ DailyWorkflow.execute sf ios later today db'
         = (db', RunDone "Email limit reached for today" None (Some s')).
Proof.
  intros D f g now later today limit db s sf ios Hc Hs Hdone Hlt Hf0 Hf1 Hg0 Hsf.
  destruct (create_or_update_summary f now today limit db Hc Hf0 Hf1)
    as (db' & s' & Hrun & Hfind & Hlim & _ & _ & _ & Hcase & _).
  rewrite Hs in Hcase. destruct Hcase as (Hsent & Hflag & _).
  exists db', s'. split; [exact Hrun|]. split; [exact Hlim|].
  split; [congruence|].
  split.
  { unfold EmailSchedule.getRemainingEmailQuota, bind,
      EmailSchedule.getEmailSchedule.
    rewrite Hg0, Hfind. unfold ret. rewrite Hlim, Hsent.
    f_equal. f_equal. lia. }
  split; [lia|].
  unfold DailyWorkflow.execute, DailyWorkflow.todays_schedule, bind,
    EmailSchedule.getEmailSchedule.
  rewrite Hsf, Hfind. unfold ret.
  assert (Hflag' : is_completed s' = true) by congruence.
  now rewrite Hflag'.
Qed.

Lemma raised_limit_splits_the_orchestrators_witness :
  exists db' s',
    EmailSchedule.createOrUpdateEmailSchedule no_faults 9 sample_day 6
      full_day_db = (db', Ok (Some s'))
    /\ EmailSchedule.getRemainingEmailQuota 5 no_faults 10 sample_day db'
       = (db', Ok 4)
    /\ DailyWorkflow.execute DailyWorkflow.no_setup_faults workflow_ios 10
         sample_day db'
       = (db', RunDone "Email limit reached for today" None (Some s')).
Proof.
  assert (Hc : schedule_constraints (email_schedule full_day_db)).
  { split; simpl; repeat constructor; intros []. }
  destruct (raised_limit_splits_the_orchestrators 5 no_faults no_faults 9 10
              sample_day 6 full_day_db full_schedule
              DailyWorkflow.no_setup_faults workflow_ios
              Hc eq_refl eq_refl eq_refl eq_refl eq_refl eq_refl eq_refl)
    as (db' & s' & Hrun & _ & _ & Hq & _ & Hex).
  exists db', s'. split; [exact Hrun|]. split; [exact Hq|exact Hex].
Defined.

(** ** Sorting by any total order *)

Section AnyOrder.
Context {R : Type} (le : R -> R -> bool) (rel : R -> R -> Prop).
Hypothesis le_rel : forall a b, le a b = true -> rel a b.
Hypothesis le_total : forall a b, le a b = false -> rel b a.
Hypothesis rel_trans : forall a b c, rel a b -> rel b c -> rel a c.

Lemma insert_any_perm (x : R) (l : list R) :
  Permutation (insert_sorted le x l) (x :: l).
Proof.
  induction l as [|y l IH]; simpl; [apply Permutation_refl|].
  destruct (le x y); [apply Permutation_refl|].
  apply perm_trans with (y :: x :: l); [now apply perm_skip|apply perm_swap].
Qed.

Lemma sort_any_perm (l : list R) : Permutation (sort_by le l) l.
Proof.
  induction l as [|x l IH]; simpl; [apply perm_nil|].
  apply perm_trans with (x :: sort_by le l);
    [apply insert_any_perm|now apply perm_skip].
Qed.

Lemma insert_any_sorted (x : R) (l : list R) :
  StronglySorted rel l -> StronglySorted rel (insert_sorted le x l).
Proof.
  induction l as [|y l IH]; simpl; intros Hs.
  - constructor; constructor.
  - inversion Hs as [|a b Hs' Hall]; subst.
    destruct (le x y) eqn:E.
    + constructor; [exact Hs|]. constructor; [now apply le_rel|].
      eapply Forall_impl; [|exact Hall]. simpl. intros a Ha.
      eapply rel_trans; [apply le_rel; exact E|exact Ha].
    + constructor; [now apply IH|].
      apply (Permutation_Forall (Permutation_sym (insert_any_perm x l))).
      constructor; [now apply le_total|exact Hall].
Qed.

Lemma sort_any_sorted (l : list R) : StronglySorted rel (sort_by le l).
Proof.
  induction l as [|x l IH]; simpl; [constructor|].
  now apply insert_any_sorted.
Qed.

End AnyOrder.

(** ** [getCompanies] *)

Lemma priority_then_created_spec (a b : Company) :
  CompaniesApi.by_priority_then_created a b = true -> priority_then_created a b.
Proof.
  unfold CompaniesApi.by_priority_then_created, priority_then_created.
  intros H. apply orb_true_iff in H. destruct H as [H|H].
  - left. now apply Z.ltb_lt.
  - apply andb_true_iff in H. destruct H as [H1 H2].
    right. split; [now apply Z.eqb_eq|now apply Z.leb_le].
Qed.

Lemma priority_then_created_total (a b : Company) :
  CompaniesApi.by_priority_then_created a b = false -> priority_then_created b a.
Proof.
  unfold CompaniesApi.by_priority_then_created, priority_then_created.
  intros H. apply orb_false_iff in H. destruct H as [H1 H2].
  apply Z.ltb_ge in H1. apply andb_false_iff in H2.
  destruct H2 as [H2|H2].
  - apply Z.eqb_neq in H2. left. lia.
  - apply Z.leb_gt in H2. destruct (Z.eq_dec (priority a) (priority b));
      [right; split; lia|left; lia].
Qed.

Lemma priority_then_created_trans (a b c : Company) :
  priority_then_created a b -> priority_then_created b c ->
  priority_then_created a c.
Proof. unfold priority_then_created. intros [H|[H H']] [K|[K K']]; lia. Qed.

Lemma filters_pass (filters : CompaniesApi.Filters) (t : list Company)
      (c : Company) :
  In c (CompaniesApi.where_verified filters
          (CompaniesApi.where_priority filters
             (CompaniesApi.where_status filters t))) <->
  In c t /\ passes filters c.
Proof.
  unfold CompaniesApi.where_verified, CompaniesApi.where_priority,
    CompaniesApi.where_status, passes.
  destruct filters as [st pr ve li off]; simpl.
  assert (Hst : forall l,
             In c (match st with
                   | Some s => if negb (s =? "")%string
                               then filter (fun c => (company_status c =? s)%string) l
                               else l
                   | None => l
                   end)
             <-> In c l /\ (forall s, st = Some s -> s <> "" -> company_status c = s)).
  { intros l. destruct st as [s|].
    - destruct (s =? "")%string eqn:E; simpl.
      + apply String.eqb_eq in E. split; [intros H; split; [exact H|]|tauto].
        intros s' Hs' Hne. inversion Hs'. congruence.
      + rewrite filter_In, String.eqb_eq. split.
        * intros [H1 H2]. split; [exact H1|]. intros s' Hs' _. now inversion Hs'; subst.
        * intros [H1 H2]. split; [exact H1|]. apply H2; [reflexivity|].
          now apply String.eqb_neq.
    - split; [intros H; split; [exact H|discriminate]|tauto]. }
  assert (Hpr : forall l,
             In c (match pr with
                   | Some p => if negb (p =? 0)
                               then filter (fun c => priority c =? p) l
                               else l
                   | None => l
                   end)
             <-> In c l /\ (forall p, pr = Some p -> p <> 0 -> priority c = p)).
  { intros l. destruct pr as [p|].
    - destruct (p =? 0) eqn:E; simpl.
      + apply Z.eqb_eq in E. split; [intros H; split; [exact H|]|tauto].
        intros p' Hp' Hne. inversion Hp'. congruence.
      + rewrite filter_In, Z.eqb_eq. split.
        * intros [H1 H2]. split; [exact H1|]. intros p' Hp' _. now inversion Hp'; subst.
        * intros [H1 H2]. split; [exact H1|]. apply H2; [reflexivity|].
          now apply Z.eqb_neq.
    - split; [intros H; split; [exact H|discriminate]|tauto]. }
  assert (Hve : forall l,
             In c (match ve with
                   | Some b => filter (fun c => Bool.eqb (email_verified c) b) l
                   | None => l
                   end)
             <-> In c l /\ (forall b, ve = Some b -> email_verified c = b)).
  { intros l. destruct ve as [b|].
    - rewrite filter_In, Bool.eqb_true_iff. split.
      + intros [H1 H2]. split; [exact H1|]. intros b' Hb'. now inversion Hb'; subst.
      + intros [H1 H2]. split; [exact H1|]. now apply H2.
    - split; [intros H; split; [exact H|discriminate]|tauto]. }
  rewrite Hve, Hpr, Hst. tauto.
Qed.

Lemma filter_twice {R} (p q : R -> bool) (l : list R) :
  filter p (filter q l) = filter (fun x => p x && q x) l.
Proof.
  induction l as [|a l IH]; [reflexivity|]. simpl.
  destruct (q a); simpl; destruct (p a); simpl; now rewrite ?IH.
Qed.

Lemma filter_all {R} (l : list R) : filter (fun _ => true) l = l.
Proof. induction l as [|a l IH]; [reflexivity|]. simpl. now rewrite IH. Qed.

(** The three conditions of [getCompanies] as one test of a row. *)
Lemma filters_as_one_test (filters : CompaniesApi.Filters) :
  exists p : Company -> bool,
    (forall c, p c = true <-> passes filters c)
    /\ forall t,
         CompaniesApi.where_verified filters
           (CompaniesApi.where_priority filters
              (CompaniesApi.where_status filters t))
         = filter p t.
Proof.
  assert (H : exists p, forall t,
               CompaniesApi.where_verified filters
                 (CompaniesApi.where_priority filters
                    (CompaniesApi.where_status filters t))
               = filter p t).
  { assert (H1 : exists p1, forall t,
                 CompaniesApi.where_status filters t = filter p1 t).
    { unfold CompaniesApi.where_status.
      destruct (CompaniesApi.f_status filters) as [s|].
      - destruct (truthy (Some s)); eexists; intros t;
          [reflexivity|symmetry; apply filter_all].
      - eexists; intros t; symmetry; apply filter_all. }
    assert (H2 : exists p2, forall t,
                 CompaniesApi.where_priority filters t = filter p2 t).
    { unfold CompaniesApi.where_priority.
      destruct (CompaniesApi.f_priority filters) as [n|].
      - destruct (CompaniesApi.truthy_number (Some n)); eexists; intros t;
          [reflexivity|symmetry; apply filter_all].
      - eexists; intros t; symmetry; apply filter_all. }
    assert (H3 : exists p3, forall t,
                 CompaniesApi.where_verified filters t = filter p3 t).
    { unfold CompaniesApi.where_verified.
      destruct (CompaniesApi.f_emailVerified filters) as [v|].
      - eexists; intros t; reflexivity.
      - eexists; intros t; symmetry; apply filter_all. }
    destruct H1 as [p1 H1], H2 as [p2 H2], H3 as [p3 H3].
    exists (fun c => (p3 c && p2 c) && p1 c). intros t.
    now rewrite H1, H2, H3, !filter_twice. }
  destruct H as [p Hp]. exists p. split; [|exact Hp].
  intros c. specialize (Hp [c]).
  pose proof (filters_pass filters [c] c) as Hf. rewrite Hp in Hf.
  simpl in Hf. destruct (p c).
  - split; [intros _; apply Hf; now left|reflexivity].
  - split; [discriminate|]. intros Hc.
    destruct Hf as [_ Hf]. destruct (Hf (conj (or_introl eq_refl) Hc)).
Qed.

(** [getCompanies] without an offset, the store answering.  The rows that
    pass the filters in force (an empty status and a priority of 0 are no
    filter, [emailVerified: false] is one) are put in ascending priority,
    rows of equal priority by ascending creation time: [ordered] is such an
    arrangement of exactly those rows of the table.  With no limit, or a
    limit of 0, which is not applied, all of [ordered] is returned; with a
    limit [n] the first [n] rows of [ordered] are, that is [n] rows or all
    of them when fewer pass. *)
Theorem get_companies_order_and_filters :
  forall (client_offset : Z -> result (list Company -> list Company))
         (rank : Company -> Z) (filters : CompaniesApi.Filters) (db : Db),
    CompaniesApi.truthy_number (CompaniesApi.f_offset filters) = false ->
    (forall n, CompaniesApi.f_limit filters = Some n -> 0 <= n) ->
    exists (p : Company -> bool) (ordered rows : list Company),
      CompaniesApi.getCompanies client_offset (Ranked rank) filters db
      = (db, Ok rows)
      /\ (forall c, p c = true <-> passes filters c)
      /\ Permutation ordered (filter p (companies db))
      /\ StronglySorted priority_then_created ordered
      /\ (CompaniesApi.truthy_number (CompaniesApi.f_limit filters) = false ->
          rows = ordered)
      /\ (forall n, CompaniesApi.f_limit filters = Some n -> n <> 0 ->
          rows = firstn (Z.to_nat n) ordered
          /\ List.length rows
             = Nat.min (Z.to_nat n) (List.length (filter p (companies db)))).
Proof.
  intros client_offset rank filters db Hoff _.
  destruct (filters_as_one_test filters) as (p & Hp & Hkept).
  set (ordered := store_order CompaniesApi.by_priority_then_created rank
                    (filter p (companies db))).
  assert (Hsorted : StronglySorted priority_then_created ordered).
  { apply (sort_any_sorted CompaniesApi.by_priority_then_created
             priority_then_created priority_then_created_spec
             priority_then_created_total priority_then_created_trans). }
  assert (Hperm : Permutation ordered (filter p (companies db))).
  { unfold ordered, store_order.
    eapply perm_trans; [apply sort_any_perm|apply sort_any_perm]. }
  exists p, ordered, (CompaniesApi.with_limit filters ordered).
  split.
  { unfold CompaniesApi.getCompanies. rewrite Hkept. fold ordered.
    destruct (CompaniesApi.f_offset filters) as [n|]; [|reflexivity].
    now rewrite Hoff. }
  split; [exact Hp|]. split; [exact Hperm|]. split; [exact Hsorted|].
  unfold CompaniesApi.with_limit.
  split.
  { intros Hlim.
    destruct (CompaniesApi.f_limit filters) as [n|]; [|reflexivity].
    now rewrite Hlim. }
  intros n Hn Hne. rewrite Hn.
  assert (Ht : CompaniesApi.truthy_number (Some n) = true).
  { simpl. apply negb_true_iff. now apply Z.eqb_neq. }
  rewrite Ht. unfold limit_rows. split; [reflexivity|].
  now rewrite length_firstn, (Permutation_length Hperm).
Qed.

Lemma get_companies_order_and_filters_witness :
  exists rows,
    CompaniesApi.getCompanies no_offset in_stored_order
      (CompaniesApi.mkFilters (Some "pending") (Some 0) None (Some 1) None)
      (mkDb [later_company; earlier_company] [] [] [])
    = (mkDb [later_company; earlier_company] [] [] [], Ok rows)
    /\ rows = [earlier_company].
Proof.
  destruct (get_companies_order_and_filters no_offset (fun _ => 0)
              (CompaniesApi.mkFilters (Some "pending") (Some 0) None (Some 1) None)
              (mkDb [later_company; earlier_company] [] [] []) eq_refl)
    as (p & ordered & rows & Hrun & _).
  { intros n Hn. inversion Hn. lia. }
  exists rows. split; [exact Hrun|].
  vm_compute in Hrun. now inversion Hrun.
Defined.

Lemma priority_then_created_by_priority (l : list Company) :
  StronglySorted priority_then_created l ->
  StronglySorted (fun a b => priority a <= priority b) l.
Proof.
  induction 1 as [|a l Hs IH Hall]; constructor; [exact IH|].
  eapply Forall_impl; [|exact Hall]. unfold priority_then_created.
  simpl. intros b Hb. lia.
Qed.

(** The daily query and [getCompanies] for pending, verified companies with
    the same limit [n > 0]: both return [n] of the eligible rows of the
    table, or all of them when there are fewer, and the priorities of the
    rows returned are the same, position by position.  Which of the
    companies of equal priority are returned, and in what order, is not
    fixed for the daily query, so the two answers are the same rows only
    when no two eligible companies share a priority. *)
Theorem daily_query_matches_get_companies_in_priority :
  forall (client_offset : Z -> result (list Company -> list Company))
         (rank rank' : Company -> Z) (limit : Z) (db : Db),
    0 < limit ->
    exists daily rows,
      Companies.getCompaniesForDailyEmails (Ranked rank) limit db
      = (db, Ok daily)
      /\ CompaniesApi.getCompanies client_offset (Ranked rank')
           (daily_filters limit) db
         = (db, Ok rows)
      /\ map priority daily = map priority rows
      /\ List.length daily
         = Nat.min (Z.to_nat limit)
                   (List.length (filter Companies.ready (companies db)))
      /\ (forall c, In c daily \/ In c rows ->
          In c (companies db) /\ Companies.ready c = true)
      /\ StronglySorted priority_then_created rows
      /\ ((forall a b, In a (companies db) -> In b (companies db) ->
                       Companies.ready a = true -> Companies.ready b = true ->
                       priority a = priority b -> a = b) ->
          daily = rows).
Proof.
  intros client_offset rank rank' limit db Hpos.
  assert (Ht : CompaniesApi.truthy_number (Some limit) = true).
  { simpl. apply negb_true_iff. apply Z.eqb_neq. lia. }
  set (kept := filter Companies.ready (companies db)).
  set (A := store_order Companies.by_priority rank kept).
  set (B := store_order CompaniesApi.by_priority_then_created rank' kept).
  assert (HpA : Permutation A kept) by apply (store_order_perm priority).
  assert (HpB : Permutation B kept).
  { unfold B, store_order.
    eapply perm_trans; [apply sort_any_perm|apply sort_any_perm]. }
  assert (HsA : StronglySorted (fun a b => priority a <= priority b) A)
    by apply (sort_by_sorted priority).
  assert (HsB : StronglySorted priority_then_created B).
  { apply (sort_any_sorted CompaniesApi.by_priority_then_created
             priority_then_created priority_then_created_spec
             priority_then_created_total priority_then_created_trans). }
  assert (Hkeys : map priority A = map priority B).
  { apply sorted_perm_unique.
    - now apply sorted_keys.
    - apply sorted_keys. now apply priority_then_created_by_priority.
    - apply Permutation_map.
      apply perm_trans with kept; [exact HpA|now apply Permutation_sym]. }
  assert (Hq : CompaniesApi.with_limit (daily_filters limit)
                 (store_order CompaniesApi.by_priority_then_created rank'
                    (CompaniesApi.where_verified (daily_filters limit)
                       (CompaniesApi.where_priority (daily_filters limit)
                          (CompaniesApi.where_status (daily_filters limit)
                             (companies db)))))
               = firstn (Z.to_nat limit) B).
  { unfold CompaniesApi.with_limit, CompaniesApi.where_verified,
      CompaniesApi.where_priority, CompaniesApi.where_status, daily_filters.
    cbn [CompaniesApi.f_limit CompaniesApi.f_emailVerified
         CompaniesApi.f_priority CompaniesApi.f_status].
    rewrite Ht. cbn [truthy String.eqb negb].
    rewrite filter_twice. reflexivity. }
  exists (firstn (Z.to_nat limit) A), (firstn (Z.to_nat limit) B).
  split; [reflexivity|].
  split.
  { unfold CompaniesApi.getCompanies. rewrite Hq. reflexivity. }
  assert (Hmap : map priority (firstn (Z.to_nat limit) A)
                 = map priority (firstn (Z.to_nat limit) B)).
  { now rewrite <- !firstn_map, Hkeys. }
  split; [exact Hmap|].
  split.
  { now rewrite length_firstn, (Permutation_length HpA). }
  assert (Hin : forall c, In c (firstn (Z.to_nat limit) A)
                          \/ In c (firstn (Z.to_nat limit) B) ->
                          In c (companies db) /\ Companies.ready c = true).
  { intros c [Hc|Hc]; apply in_firstn in Hc;
      [apply (Permutation_in _ HpA) in Hc|apply (Permutation_in _ HpB) in Hc];
      now apply filter_In in Hc. }
  split; [exact Hin|].
  split; [now apply firstn_strongly_sorted|].
  intros Hinj. apply (same_keys_same_rows priority); [|exact Hmap].
  intros a b Ha Hb. destruct (Hin a (or_introl Ha)), (Hin b (or_intror Hb)).
  now apply Hinj.
Qed.

Lemma daily_query_matches_get_companies_in_priority_witness :
  exists daily rows,
    Companies.getCompaniesForDailyEmails (Ranked company_id_) 2 five_db
    = (five_db, Ok daily)
    /\ CompaniesApi.getCompanies no_offset in_stored_order (daily_filters 2)
         five_db
       = (five_db, Ok rows)
    /\ map priority daily = map priority rows
    /\ List.length daily = 2%nat.
Proof.
  destruct (daily_query_matches_get_companies_in_priority no_offset
              company_id_ (fun _ => 0) 2 five_db ltac:(lia))
    as (daily & rows & H1 & H2 & H3 & H4 & _).
  exists daily, rows. split; [exact H1|]. split; [exact H2|].
  split; [exact H3|exact H4].
Defined.

(** ** The pool of eligible companies *)

Lemma pool_refl (db : Db) : pool_only_shrinks db db.
Proof.
  unfold pool_only_shrinks. induction (companies db) as [|c t IH];
    constructor; [split; reflexivity || (intros _; reflexivity)|exact IH].
Qed.

Lemma pool_trans (a b c : Db) :
  pool_only_shrinks a b -> pool_only_shrinks b c -> pool_only_shrinks a c.
Proof.
  unfold pool_only_shrinks.
  generalize (companies a) as la, (companies b) as lb, (companies c) as lc.
  intros la lb lc H. revert lc.
  induction H as [|x y la lb [Hid Hr] H IH]; intros lc K; inversion K; subst.
  - constructor.
  - constructor; [|now apply IH].
    destruct H2 as [Hid' Hr']. split; [congruence|].
    intros Hready. specialize (Hr' Hready). subst.
    now apply Hr.
Qed.

Lemma pool_update (db : Db) (p : Company -> bool) (u : Company -> Company) :
  (forall c, company_id_ (u c) = company_id_ c /\ Companies.ready (u c) = false) ->
  pool_only_shrinks db (with_companies (update_rows p u (companies db)) db).
Proof.
  intros Hu. unfold pool_only_shrinks, update_rows. simpl.
  induction (companies db) as [|c t IH]; simpl; constructor; [|exact IH].
  destruct (p c); [|split; reflexivity || (intros _; reflexivity)].
  destruct (Hu c) as [Hid Hr]. split; [exact Hid|]. intros H. congruence.
Qed.

Lemma set_contacted_not_ready (now : Timestamp) (c : Company) :
  company_id_ (Companies.set_contacted now c) = company_id_ c
  /\ Companies.ready (Companies.set_contacted now c) = false.
Proof.
  split; [reflexivity|]. unfold Companies.ready. simpl. apply andb_false_r.
Qed.

Lemma set_unverified_not_ready (now : Timestamp) (c : Company) :
  company_id_ (Companies.set_unverified now c) = company_id_ c
  /\ Companies.ready (Companies.set_unverified now c) = false.
Proof. split; reflexivity. Qed.

Lemma pool_schedule (db : Db) (t : list Schedule) :
  pool_only_shrinks db (with_schedule t db).
Proof. exact (pool_refl db). Qed.

Lemma pool_emails (db : Db) (t : list Email) :
  pool_only_shrinks db (with_emails t db).
Proof. exact (pool_refl db). Qed.

Lemma pool_update_by_id (fault : option string) (i : Id)
      (u : Company -> Company) :
  (forall c, company_id_ (u c) = company_id_ c /\ Companies.ready (u c) = false) ->
  respects pool_only_shrinks (Companies.update_by_id fault i u).
Proof.
  intros Hu db. unfold Companies.update_by_id.
  destruct fault; simpl; [apply pool_refl|now apply pool_update].
Qed.

Lemma pool_mark_contacted (fault : option string) (now : Timestamp) (i : Id) :
  respects pool_only_shrinks (Companies.markCompanyAsContacted fault now i).
Proof.
  intros db. unfold Companies.markCompanyAsContacted, Companies.updateCompany.
  destruct fault; simpl; [apply pool_refl|].
  apply pool_update. apply set_contacted_not_ready.
Qed.

Ltac pool_step :=
  first
    [ apply pool_mark_contacted
    | apply pool_update_by_id;
      first [apply set_contacted_not_ready|apply set_unverified_not_ready]
    | apply respects_increment;
      [apply pool_refl|apply pool_trans|apply pool_schedule]
    | apply respects_createEmail; [apply pool_refl|apply pool_emails]
    | apply respects_update_schedule; [apply pool_refl|apply pool_schedule]
    | apply respects_insert_schedule; [apply pool_refl|apply pool_schedule]
    | apply respects_quota;
      [apply pool_refl|apply pool_trans|apply pool_schedule]
    | apply respects_ret; apply pool_refl
    | apply respects_throw; apply pool_refl
    | apply respects_pure; apply pool_refl
    | apply respects_read; apply pool_refl
    | apply respects_bind; [apply pool_trans| |intros ?]
    | match goal with
      | |- respects _ (match ?x with _ => _ end) => destruct x
      | |- respects _ (if ?x then _ else _) => destruct x
      end ].

Lemma pool_main_try (cfg : Main.Config) (io : Main.CompanyIO)
      (now : Timestamp) (today : Date) (c : Company) :
  respects pool_only_shrinks (Main.company_try cfg io now today c).
Proof.
  unfold Main.company_try, Main.verification_gate, Main.lift.
  repeat pool_step.
Qed.

Lemma pool_workflow_try (io : DailyWorkflow.CompanyIO) (now : Timestamp)
      (template : Template) (schedule : Schedule) (c : Company) :
  respects pool_only_shrinks
           (DailyWorkflow.company_try io now template schedule c).
Proof.
  unfold DailyWorkflow.company_try, DailyWorkflow.lift.
  repeat pool_step.
Qed.

Lemma pool_sendgrid_try (f : Faults) (now : Timestamp)
      (event : Webhook.SgEvent) :
  respects pool_only_shrinks (Webhook.sendgrid_try f now event).
Proof.
  assert (He : forall fault i u,
             respects pool_only_shrinks (Webhook.update_email fault i u)).
  { intros fault i u db. unfold Webhook.update_email.
    destruct fault; simpl; [apply pool_refl|exact (pool_refl db)]. }
  unfold Webhook.sendgrid_try, Webhook.select_by_message_id.
  repeat first [apply He | pool_step].
Qed.

Lemma pool_mailgun_try (f : Faults) (now : Timestamp)
      (payload : Webhook.MgEvent) :
  respects pool_only_shrinks (Webhook.mailgun_try f now payload).
Proof.
  assert (He : forall fault i u,
             respects pool_only_shrinks (Webhook.update_email fault i u)).
  { intros fault i u db. unfold Webhook.update_email.
    destruct fault; simpl; [apply pool_refl|exact (pool_refl db)]. }
  unfold Webhook.mailgun_try, Webhook.select_by_message_id.
  repeat first [apply He | pool_step].
Qed.

Lemma pool_main_loop (cfg : Main.Config) (ios : nat -> Main.CompanyIO)
      (now : Timestamp) (today : Date) (cs : list Company) :
  forall (i : nat) (db : Db),
    pool_only_shrinks db (fst (Main.company_loop cfg ios now today i cs db)).
Proof.
  induction cs as [|c cs IH]; intros i db; simpl; [apply pool_refl|].
  pose proof (pool_main_try cfg (ios i) now today c db) as H.
  unfold Main.process_company.
  destruct (Main.company_try cfg (ios i) now today c db) as [db1 r].
  simpl in H. specialize (IH (S i) db1).
  assert (K : forall o,
             pool_only_shrinks db
               (fst (let '(db2, lines) :=
                       Main.company_loop cfg ios now today (S i) cs db1 in
                     (db2, Main.LogCompany (company_name c) o :: lines)))).
  { intros o.
    destruct (Main.company_loop cfg ios now today (S i) cs db1) as [db2 lines].
    simpl in *. eapply pool_trans; eauto. }
  destruct r; apply K.
Qed.

Lemma pool_workflow_loop (ios : nat -> DailyWorkflow.CompanyIO)
      (now : Timestamp) (template : Template) (cs : list Company) :
  forall (i : nat) (schedule : Schedule) (db : Db),
    pool_only_shrinks db
      (fst (DailyWorkflow.company_loop ios now template i cs schedule db)).
Proof.
  induction cs as [|c cs IH]; intros i schedule db;
    cbn [DailyWorkflow.company_loop]; [apply pool_refl|].
  pose proof (pool_workflow_try (ios i) now template schedule c db) as H.
  destruct (DailyWorkflow.company_try (ios i) now template schedule c db)
    as [db1 [[content record]|e]]; simpl in H.
  - destruct (is_completed (DailyWorkflow.bump schedule)); [exact H|].
    specialize (IH (S i) (DailyWorkflow.bump schedule) db1).
    destruct (DailyWorkflow.company_loop ios now template (S i) cs
                (DailyWorkflow.bump schedule) db1) as [db2 [s2 rs]].
    simpl in *. eapply pool_trans; eauto.
  - specialize (IH (S i) schedule db1).
    destruct (DailyWorkflow.company_loop ios now template (S i) cs schedule db1)
      as [db2 [s2 rs]].
    simpl in *. eapply pool_trans; eauto.
Qed.

Lemma pool_sendgrid_loop (plans : nat -> Faults) (now : Timestamp)
      (events : list Webhook.SgEvent) :
  forall (i : nat) (db : Db),
    pool_only_shrinks db (fst (Webhook.sendgrid_loop plans now i events db)).
Proof.
  induction events as [|ev events IH]; intros i db; simpl; [apply pool_refl|].
  pose proof (pool_sendgrid_try (plans i) now ev db) as H.
  unfold Webhook.sendgrid_event.
  destruct (Webhook.sendgrid_try (plans i) now ev db) as [db1 r].
  simpl in H. specialize (IH (S i) db1).
  destruct r;
    destruct (Webhook.sendgrid_loop plans now (S i) events db1) as [db2 rs];
    simpl in *; eapply pool_trans; eauto.
Qed.

Lemma ready_row_was_there (l l' : list Company) (c : Company) :
  Forall2 (fun c c' => company_id_ c' = company_id_ c
                       /\ (Companies.ready c' = true -> c' = c)) l l' ->
  In c l' -> Companies.ready c = true -> In c l.
Proof.
  intros Hp. induction Hp as [|x y l l' [_ Hxy] Hp IH]; intros Hc Hr;
    [contradiction|].
  destruct Hc as [->|Hc].
  - left. symmetry. now apply Hxy.
  - right. now apply IH.
Qed.

Lemma pool_selectable (db db' : Db) (rank : Company -> Z) (limit : Z)
      (c : Company) :
  pool_only_shrinks db db' ->
  In c (Companies.daily_query rank limit (companies db')) ->
  In c (companies db) /\ Companies.ready c = true.
Proof.
  intros Hp Hin.
  destruct (daily_query_facts rank limit (companies db')) as (_ & H & _).
  destruct (H c Hin) as (Hc & Hv & Hs).
  assert (Hr : Companies.ready c = true) by (apply ready_spec; now split).
  split; [|exact Hr].
  exact (ready_row_was_there _ _ c Hp Hc Hr).
Qed.

(** No run makes a company eligible.  After [main], after the daily
    workflow, after a batch of SendGrid events and after a Mailgun event,
    whatever the collaborators and the store answered, the companies table
    holds the same identifiers in the same places, and every company the
    daily query could select then is a row that was there, verified and
    pending, before the run: nothing in these paths sets [email_verified]
    to [true] or [status] back to [pending]. *)
Theorem no_run_makes_a_company_eligible :
  forall (cfg : Main.Config) (f_quota : Faults) (f_select : Select Company)
         (mios : nat -> Main.CompanyIO) (sf : DailyWorkflow.SetupFaults)
         (ios : nat -> DailyWorkflow.CompanyIO) (plans : nat -> Faults)
         (payload : Webhook.Payload) (f : Faults) (mg : Webhook.MgEvent)
         (now : Timestamp) (today : Date) (db : Db),
    no_new_eligible db
      (fst (Main.main cfg f_quota f_select mios now today db))
    /\ no_new_eligible db (fst (DailyWorkflow.execute sf ios now today db))
    /\ no_new_eligible db
         (fst (Webhook.processSendGridWebhook plans now payload db))
    /\ no_new_eligible db (fst (Webhook.processMailgunWebhook f now mg db)).
Proof.
  intros cfg fq fs mios sf ios plans payload f mg now today db.
  assert (Hkey : forall db', pool_only_shrinks db db' -> no_new_eligible db db').
  { intros db' Hp. split.
    - unfold pool_only_shrinks in Hp. revert Hp.
      generalize (companies db) as l, (companies db') as l'.
      intros l l' Hp.
      induction Hp as [|x y l l' [Hid _] Hp IH]; [reflexivity|].
      simpl. now rewrite Hid, IH.
    - intros rank limit c Hc.
      destruct (pool_selectable db db' rank limit c Hp Hc) as [H1 H2].
      apply ready_spec in H2. tauto. }
  split; [|split; [|split]]; apply Hkey.
  - unfold Main.main.
    pose proof (respects_quota pool_only_shrinks pool_refl pool_trans
                  pool_schedule (Main.DAILY_EMAIL_LIMIT cfg) fq now today db)
      as Hq.
    destruct (EmailSchedule.getRemainingEmailQuota _ _ _ _ _)
      as [db1 [q|e]]; simpl in Hq; [|exact Hq].
    destruct (q <=? 0); [exact Hq|].
    unfold Companies.getCompaniesForDailyEmails.
    destruct fs as [m|rank]; [exact Hq|].
    destruct (Companies.daily_query rank q (companies db1)) as [|c cs];
      [exact Hq|].
    pose proof (pool_main_loop cfg mios now today (c :: cs) 0%nat db1) as Hl.
    destruct (Main.company_loop cfg mios now today 0 (c :: cs) db1)
      as [db3 lines].
    simpl in *. eapply pool_trans; eauto.
  - unfold DailyWorkflow.execute.
    assert (Hs : respects pool_only_shrinks
                   (DailyWorkflow.todays_schedule sf now today)).
    { unfold DailyWorkflow.todays_schedule, EmailSchedule.getEmailSchedule.
      repeat pool_step. }
    specialize (Hs db).
    destruct (DailyWorkflow.todays_schedule sf now today db)
      as [db1 [sch|e]]; simpl in Hs; [|exact Hs].
    destruct (is_completed sch || (emails_limit sch <=? emails_sent sch));
      [exact Hs|].
    unfold Companies.getCompaniesForDailyEmails.
    destruct (DailyWorkflow.f_companies sf) as [m|rank]; [exact Hs|].
    destruct (Companies.daily_query _ _ (companies db1)) as [|c cs];
      [exact Hs|].
    destruct (DailyWorkflow.f_templates sf) as [m'|rank']; [exact Hs|].
    match goal with
    | |- context [DailyWorkflow.company_loop ?a ?b ?t ?i ?l ?s ?d] =>
        pose proof (pool_workflow_loop a b t l i s d) as Hl;
        destruct (DailyWorkflow.company_loop a b t i l s d)
          as [db3 [s3 rs]]
    end.
    simpl in *. eapply pool_trans; eauto.
  - unfold Webhook.processSendGridWebhook.
    destruct payload as [events|]; [|apply pool_refl].
    pose proof (pool_sendgrid_loop plans now events 0%nat db) as Hl.
    destruct (Webhook.sendgrid_loop plans now 0 events db) as [db1 rs].
    exact Hl.
  - unfold Webhook.processMailgunWebhook.
    pose proof (pool_mailgun_try f now mg db) as Hl.
    destruct (Webhook.mailgun_try f now mg db) as [db1 [r|e]]; exact Hl.
Qed.

(** ** Leaving the pool *)

Lemma gate_outcome (cfg : Main.Config) (io : Main.CompanyIO) (c : Company)
      (db : Db) :
  fst (Main.verification_gate cfg io c db) = db
  /\ snd (Main.verification_gate cfg io c db) <> Ok (Some Main.Processed).
Proof.
  unfold Main.verification_gate, bind, Main.lift, ret, throw.
  destruct (negb (email_verified c)); [|split; [reflexivity|discriminate]].
  destruct (negb (truthy (contact_email c))).
  - destruct (website c); [|split; [reflexivity|discriminate]].
    destruct (Main.io_find io) as [[a|]|e]; simpl;
      try (split; [reflexivity|discriminate]).
    destruct (EmailVerification.verifyEmail _ _ _) as [v|e]; simpl;
      [|split; [reflexivity|discriminate]].
    destruct (negb (EmailVerification.isValid v));
      split; reflexivity || discriminate.
  - simpl. destruct (contact_email c) as [a|]; simpl;
      [|split; [reflexivity|discriminate]].
    destruct (EmailVerification.verifyEmail _ _ _) as [v|e]; simpl;
      [|split; [reflexivity|discriminate]].
    destruct (negb (EmailVerification.isValid v));
      split; reflexivity || discriminate.
Qed.

(** What [main] has done for a company it reports as processed. *)
Lemma processed_company_writes (cfg : Main.Config) (io : Main.CompanyIO)
      (now : Timestamp) (today : Date) (c : Company) (db db' : Db) :
  Main.process_company cfg io now today c db = (db', Main.Processed) ->
  exists content mid row,
    ContentParser.generateEmailContent (Main.GEMINI_API_KEY cfg)
      (Main.io_generate io) = Ok content
    /\ Main.io_send io = Ok mid
    /\ EmailSchedule.find_schedule today (email_schedule db) = Some row
    /\ emails_sent row < emails_limit row
    /\ companies db'
       = update_rows (Companies.has_id (company_id_ c))
                     (Companies.set_contacted now) (companies db)
    /\ emails db'
       = emails db
         ++ [Emails.sent_email c (ContentParser.content_subject content)
               (ContentParser.content_body content) mid "default" now
               (fresh_id email_id (emails db))]
    /\ email_schedule db'
       = update_rows (EmailSchedule.has_id (schedule_id row))
                     (EmailSchedule.set_sent row now) (email_schedule db).
Proof.
  unfold Main.process_company, Main.company_try. unfold bind at 1.
  destruct (gate_outcome cfg io c db) as [Hdb Hnot].
  destruct (Main.verification_gate cfg io c db) as [db0 [[o|]|e]];
    simpl in Hdb, Hnot; subst db0.
  - unfold ret. intros H. inversion H; subst. now elim Hnot.
  - unfold bind, Main.lift, ret.
    destruct (ContentParser.generateEmailContent _ _) as [content|e];
      [|discriminate].
    destruct (Main.io_send io) as [mid|e]; [|discriminate].
    unfold Emails.createEmail.
    destruct (Main.io_store io 0%nat); [discriminate|].
    unfold Companies.markCompanyAsContacted, Companies.updateCompany.
    destruct (Main.io_store io 1%nat); [discriminate|].
    unfold EmailSchedule.incrementEmailsSent, bind,
      EmailSchedule.getEmailSchedule, shift.
    destruct (Main.io_store io (2 + 0)%nat); [discriminate|].
    cbn [email_schedule with_companies with_emails].
    destruct (EmailSchedule.find_schedule today (email_schedule db))
      as [row|]; [|discriminate].
    destruct (emails_limit row <=? emails_sent row) eqn:E; [discriminate|].
    unfold EmailSchedule.update_schedule.
    destruct (Main.io_store io (2 + 1)%nat); [discriminate|].
    unfold ret. intros H. inversion H; subst. clear H.
    exists content, mid, row. apply Z.leb_gt in E.
    repeat split; try reflexivity. exact E.
  - discriminate.
Qed.

(** A company [main] reports as processed has its email record stored with
    status [sent], is marked [contacted] and is never selected by the daily
    query again: a company is sent at most one email by these runs. *)
Theorem processed_company_leaves_the_pool :
  forall (cfg : Main.Config) (io : Main.CompanyIO) (now : Timestamp)
         (today : Date) (c : Company) (db db' : Db),
    Main.process_company cfg io now today c db = (db', Main.Processed) ->
    (forall x, In x (companies db') -> company_id_ x = company_id_ c ->
               company_status x = "contacted")
    /\ (forall rank limit x, In x (Companies.daily_query rank limit (companies db')) ->
                        company_id_ x <> company_id_ c)
    /\ (exists e, In e (emails db') /\ company_id e = company_id_ c
                  /\ email_status e = "sent"
                  /\ Main.io_send io = Ok (message_id e)
                  /\ List.length (emails db') = S (List.length (emails db))).
Proof.
  intros cfg io now today c db db' H.
  destruct (processed_company_writes cfg io now today c db db' H)
    as (content & mid & row & _ & Hsend & _ & _ & Hco & Hem & _).
  assert (Hst : forall x, In x (companies db') ->
                          company_id_ x = company_id_ c ->
                          company_status x = "contacted").
  { intros x Hx Hid. rewrite Hco in Hx. unfold update_rows in Hx.
    apply in_map_iff in Hx. destruct Hx as (y & Hy & _).
    destruct (Companies.has_id (company_id_ c) y) eqn:E; subst x.
    - reflexivity.
    - unfold Companies.has_id in E. apply Z.eqb_neq in E. contradiction. }
  split; [exact Hst|]. split.
  - intros rank limit x Hx Hid.
    destruct (daily_query_facts rank limit (companies db')) as (_ & Hq & _).
    destruct (Hq x Hx) as (Hin & _ & Hp).
    rewrite (Hst x Hin Hid) in Hp. discriminate.
  - eexists. rewrite Hem. split; [apply in_or_app; right; now left|].
    split; [reflexivity|]. split; [reflexivity|].
    split; [exact Hsend|]. rewrite length_app. simpl. lia.
Qed.

Lemma processed_company_leaves_the_pool_witness :
  exists db',
    Main.process_company sample_config all_fine 7 sample_day beta five_db
    = (db', Main.Processed)
    /\ (forall rank limit x, In x (Companies.daily_query rank limit (companies db')) ->
                        company_id_ x <> 2)
    /\ List.length (emails db') = 1%nat.
Proof.
  destruct (Main.process_company sample_config all_fine 7 sample_day beta
              five_db) as [db' o] eqn:E.
  assert (Ho : o = Main.Processed) by (vm_compute in E; now inversion E).
  subst o.
  destruct (processed_company_leaves_the_pool sample_config all_fine 7
              sample_day beta five_db db' E)
    as (_ & Hpool & e & _ & _ & _ & _ & Hlen).
  exists db'. split; [reflexivity|]. split; [exact Hpool|exact Hlen].
Defined.

(** A bounce takes the owning company out of the pool for good: with the
    store answering, after a bounce event for the email record [e], from
    either provider, the daily query selects no company with the
    identifier [company_id e], whatever its limit. *)
Theorem bounced_company_leaves_the_pool :
  forall (f : Faults) (now : Timestamp) (m : string) (e : Email) (db : Db)
         (sg_ev : Webhook.SgEvent) (mg_ev : Webhook.MgEvent),
    email_for m db = Some e ->
    f 0%nat = None -> f 1%nat = None -> f 2%nat = None ->
    Webhook.sg_event sg_ev = "bounce" -> Webhook.sg_message_id sg_ev = m ->
    Webhook.mg_event mg_ev = "bounced" -> Webhook.mg_message_id mg_ev = m ->
    (forall rank limit x,
        In x (Companies.daily_query rank limit
                (companies (fst (Webhook.sendgrid_event f now sg_ev db)))) ->
        company_id_ x <> company_id e)
    /\ (forall rank limit x,
          In x (Companies.daily_query rank limit
                  (companies (fst (Webhook.processMailgunWebhook f now mg_ev db)))) ->
          company_id_ x <> company_id e).
Proof.
  intros f now m e db sg_ev mg_ev Hfound H0 H1 H2 Hsg Hsgm Hmg Hmgm.
  destruct (email_for_found m db e Hfound) as [Hsel Hin].
  destruct (bounce_writes now e db Hin) as (_ & _ & Hun & _).
  assert (Hkey : forall rank limit x,
             In x (Companies.daily_query rank limit
                     (update_rows (Companies.has_id (company_id e))
                        (Companies.set_unverified now) (companies db))) ->
             company_id_ x <> company_id e).
  { intros rank limit x Hx Hid.
    destruct (daily_query_facts rank limit
                (update_rows (Companies.has_id (company_id e))
                   (Companies.set_unverified now) (companies db)))
      as (_ & Hq & _).
    destruct (Hq x Hx) as (Hxin & Hv & _).
    simpl in Hun. rewrite (Hun x Hxin Hid) in Hv. discriminate. }
  unfold Webhook.sendgrid_event, Webhook.sendgrid_try,
    Webhook.processMailgunWebhook, Webhook.mailgun_try, bind,
    Webhook.select_by_message_id, Webhook.update_email,
    Companies.update_by_id, ret.
  rewrite H0, H1, H2, Hsg, Hsgm, Hmg, Hmgm, Hsel. simpl.
  split; exact Hkey.
Qed.

Lemma bounced_company_leaves_the_pool_witness :
  Companies.daily_query (fun _ => 0) 5 (companies bounce_db) = [company 7 "Acme" 2 10]
  /\ Companies.daily_query (fun _ => 0) 5
       (companies (fst (Webhook.sendgrid_event no_faults 30 (sg "bounce" "A")
                          bounce_db))) = [].
Proof.
  split; [reflexivity|].
  destruct (bounced_company_leaves_the_pool no_faults 30 "A"
              (sent_record 1 "A") bounce_db (sg "bounce" "A")
              (Webhook.mkMgEvent "bounced" "A" (Some 1700000000) None None)
              eq_refl eq_refl eq_refl eq_refl eq_refl eq_refl eq_refl eq_refl)
    as [Hsg _].
  destruct (Companies.daily_query (fun _ => 0) 5
              (companies (fst (Webhook.sendgrid_event no_faults 30
                                 (sg "bounce" "A") bounce_db))))
    as [|x l] eqn:E; [reflexivity|].
  exfalso. apply (Hsg (fun _ => 0) 5 x); [rewrite E; now left|].
  vm_compute in E. discriminate E.
Defined.

(** ** Discovery and verification in [main] *)

Lemma verified_company_try (cfg : Main.Config) (io io' : Main.CompanyIO)
      (now : Timestamp) (today : Date) (c : Company) (db : Db) :
  email_verified c = true ->
  same_but_verification io io' ->
  Main.process_company cfg io now today c db
  = Main.process_company cfg io' now today c db.
Proof.
  intros Hv (Hg & Hs & Hst).
  unfold Main.process_company, Main.company_try, Main.verification_gate.
  rewrite Hv. cbn [negb]. unfold bind at 1 3. unfold ret at 1 3.
  rewrite Hg, Hs, Hst. reflexivity.
Qed.

Lemma verified_company_loop (cfg : Main.Config) (ios ios' : nat -> Main.CompanyIO)
      (now : Timestamp) (today : Date) (cs : list Company) :
  (forall i, same_but_verification (ios i) (ios' i)) ->
  Forall (fun c => email_verified c = true) cs ->
  forall (i : nat) (db : Db),
    Main.company_loop cfg ios now today i cs db
    = Main.company_loop cfg ios' now today i cs db.
Proof.
  intros Hio Hall. induction Hall as [|c cs Hc Hall IH]; intros i db;
    [reflexivity|].
  cbn [Main.company_loop].
  rewrite (verified_company_try cfg (ios i) (ios' i) now today c db Hc (Hio i)).
  destruct (Main.process_company cfg (ios' i) now today c db) as [db1 o].
  now rewrite IH.
Qed.

(** [main] never consults discovery or verification.  The daily query
    returns verified companies only, so the block that would look for an
    address and verify it is skipped for every company of every run: two
    runs whose collaborators differ only in what discovery and
    verification would answer end in the same tables with the same
    console report. *)
Theorem main_never_consults_verification :
  forall (cfg : Main.Config) (f_quota : Faults) (f_select : Select Company)
         (ios ios' : nat -> Main.CompanyIO) (now : Timestamp) (today : Date)
         (db : Db),
    (forall i, same_but_verification (ios i) (ios' i)) ->
    Main.main cfg f_quota f_select ios now today db
    = Main.main cfg f_quota f_select ios' now today db.
Proof.
  intros cfg fq fs ios ios' now today db Hio.
  unfold Main.main.
  destruct (EmailSchedule.getRemainingEmailQuota _ _ _ _ _) as [db1 [q|e]];
    [|reflexivity].
  destruct (q <=? 0); [reflexivity|].
  unfold Companies.getCompaniesForDailyEmails.
  destruct fs as [m|rank]; [reflexivity|].
  destruct (Companies.daily_query rank q (companies db1)) as [|c cs] eqn:E;
    [reflexivity|].
  rewrite (verified_company_loop cfg ios ios' now today (c :: cs) Hio);
    [reflexivity|].
  apply Forall_forall. intros x Hx.
  destruct (daily_query_facts rank q (companies db1)) as (_ & H & _).
  rewrite E in H. now destruct (H x Hx) as (_ & Hv & _).
Qed.

Lemma main_never_consults_verification_witness :
  Main.main sample_config no_faults in_stored_order main_ios 7 sample_day five_db
  = Main.main sample_config no_faults in_stored_order hostile_ios 7 sample_day five_db.
Proof.
  apply main_never_consults_verification.
  intros i. repeat split.
Defined.

(** ** Importing, reading and deleting companies *)

Lemma keyed_row_is_single {R} (key : R -> Z) (t : list R) (r : R) :
  NoDup (map key t) -> In r t ->
  filter (fun x => key x =? key r) t = [r].
Proof.
  intros Hnd Hin.
  destruct (filter_key_at_most_one key (key r) t Hnd) as [E|[x E]].
  - assert (H : In r (filter (fun x => key x =? key r) t))
      by (apply filter_In; split; [exact Hin|apply Z.eqb_refl]).
    rewrite E in H. contradiction.
  - assert (H : In r (filter (fun x => key x =? key r) t))
      by (apply filter_In; split; [exact Hin|apply Z.eqb_refl]).
    rewrite E in H. destruct H as [->|[]]. exact E.
Qed.



(** [deleteCompany], with the store answering: [getCompanyById] then
    throws for that identifier, no email of the
    company is left ([ON DELETE CASCADE]), so no webhook event finds one;
    the other companies and their emails, and the schedule, are as
    before. *)
Theorem deleted_company_takes_its_emails :
  forall (i : Id) (db : Db),
    exists db',
      CompaniesApi.deleteCompany None i db = (db', Ok tt)
      /\ CompaniesApi.getCompanyById None i db' = (db', Err no_single_row)
      /\ (forall m e, email_for m db' = Some e -> company_id e <> i)
      /\ (forall c, In c (companies db') <->
                    In c (companies db) /\ company_id_ c <> i)
      /\ (forall e, In e (emails db') <->
                    In e (emails db) /\ company_id e <> i)
      /\ email_schedule db' = email_schedule db.
Proof.
  intros i db. eexists. split; [reflexivity|]. simpl.
  assert (Hc : forall c,
             In c (filter (fun c => negb (Companies.has_id i c)) (companies db))
             <-> In c (companies db) /\ company_id_ c <> i).
  { intros c. rewrite filter_In. unfold Companies.has_id.
    rewrite negb_true_iff, Z.eqb_neq. tauto. }
  assert (He : forall e,
             In e (filter (fun e => negb (company_id e =? i)) (emails db))
             <-> In e (emails db) /\ company_id e <> i).
  { intros e. rewrite filter_In, negb_true_iff, Z.eqb_neq. tauto. }
  split.
  { unfold CompaniesApi.getCompanyById. simpl.
    rewrite filter_twice.
    assert (Hnil : filter (fun x => Companies.has_id i x
                                    && negb (Companies.has_id i x))
                          (companies db) = []).
    { clear Hc He. induction (companies db) as [|c t IH]; [reflexivity|].
      simpl. destruct (Companies.has_id i c); simpl; exact IH. }
    now rewrite Hnil. }
  split.
  { intros m e Hm. unfold email_for in Hm. simpl in Hm.
    destruct (filter (Webhook.has_message_id m) _) as [|x l] eqn:F;
      [discriminate|].
    inversion Hm; subst.
    assert (Hin : In e (filter (Webhook.has_message_id m)
                          (filter (fun e => negb (company_id e =? i)) (emails db))))
      by (rewrite F; now left).
    apply filter_In in Hin. destruct Hin as [Hin _].
    now apply He in Hin. }
  split; [exact Hc|]. split; [exact He|reflexivity].
Qed.

(** ** Email records *)

Lemma update_rows_no_match {R} (p : R -> bool) (u : R -> R) (t : list R) :
  (forall r, In r t -> p r = false) ->
  update_rows p u t = t /\ updated_rows p u t = [].
Proof.
  intros H. unfold update_rows, updated_rows.
  induction t as [|r t IH]; [split; reflexivity|]. simpl.
  rewrite (H r (or_introl eq_refl)).
  destruct IH as [H1 H2]; [intros x Hx; apply H; now right|].
  now rewrite H1, H2.
Qed.

Lemma with_emails_same (db : Db) : with_emails (emails db) db = db.
Proof. now destruct db. Qed.

Lemma with_companies_same (db : Db) : with_companies (companies db) db = db.
Proof. now destruct db. Qed.

(** Updating a row that is not there is not an error.  When no email (no
    company) has the identifier, [updateEmail] and the [markEmailAs...]
    functions ([updateCompany] and [markCompanyAsContacted]) return
    [undefined] and leave every table as it was, while [getEmailById] and
    [getCompanyById] throw for the same identifier. *)
Theorem update_of_a_missing_row_is_silent :
  forall (now : Timestamp) (i : Id) (updates : Email -> Email)
         (changes : Company -> Company) (messageId : option string) (db : Db),
    (forall e, In e (emails db) -> email_id e <> i) ->
    (forall c, In c (companies db) -> company_id_ c <> i) ->
    EmailsApi.updateEmail None now i updates db = (db, Ok None)
    /\ EmailsApi.markEmailAsSent None now i messageId db = (db, Ok None)
    /\ EmailsApi.markEmailAsOpened None now i db = (db, Ok None)
    /\ EmailsApi.markEmailAsClicked None now i db = (db, Ok None)
    /\ EmailsApi.markEmailAsBounced None now i db = (db, Ok None)
    /\ EmailsApi.getEmailById None i db = (db, Err no_single_row)
    /\ Companies.updateCompany None i changes db = (db, Ok None)
    /\ Companies.markCompanyAsContacted None now i db = (db, Ok None)
    /\ CompaniesApi.getCompanyById None i db = (db, Err no_single_row).
Proof.
  intros now i updates changes messageId db He Hc.
  assert (Hpe : forall e, In e (emails db) -> Webhook.has_id i e = false).
  { intros e Hin. unfold Webhook.has_id. apply Z.eqb_neq. now apply He. }
  assert (Hpc : forall c, In c (companies db) -> Companies.has_id i c = false).
  { intros c Hin. unfold Companies.has_id. apply Z.eqb_neq. now apply Hc. }
  assert (Hu : forall u, EmailsApi.updateEmail None now i u db = (db, Ok None)).
  { intros u. unfold EmailsApi.updateEmail.
    destruct (update_rows_no_match (Webhook.has_id i)
                (fun e => EmailsApi.stamp now (u e)) (emails db) Hpe)
      as [H1 H2].
    now rewrite H1, H2, with_emails_same. }
  assert (Hv : forall u, Companies.updateCompany None i u db = (db, Ok None)).
  { intros u. unfold Companies.updateCompany.
    destruct (update_rows_no_match (Companies.has_id i) u (companies db) Hpc)
      as [H1 H2].
    now rewrite H1, H2, with_companies_same. }
  assert (Hfe : filter (Webhook.has_id i) (emails db) = []).
  { clear Hu. induction (emails db) as [|e t IH]; [reflexivity|]. simpl.
    rewrite (Hpe e (or_introl eq_refl)). apply IH.
    - intros x Hx. apply He. now right.
    - intros x Hx. apply Hpe. now right. }
  assert (Hfc : filter (Companies.has_id i) (companies db) = []).
  { clear Hv. induction (companies db) as [|c t IH]; [reflexivity|]. simpl.
    rewrite (Hpc c (or_introl eq_refl)). apply IH.
    - intros x Hx. apply Hc. now right.
    - intros x Hx. apply Hpc. now right. }
  repeat split; try apply Hu; try apply Hv.
  - unfold EmailsApi.getEmailById. now rewrite Hfe.
  - unfold CompaniesApi.getCompanyById. now rewrite Hfc.
Qed.

Lemma update_of_a_missing_row_is_silent_witness :
  EmailsApi.markEmailAsSent None 9 42 (Some "A") webhook_db
  = (webhook_db, Ok None)
  /\ Companies.markCompanyAsContacted None 9 42 webhook_db
     = (webhook_db, Ok None)
  /\ EmailsApi.getEmailById None 42 webhook_db
     = (webhook_db, Err no_single_row).
Proof.
  destruct (update_of_a_missing_row_is_silent 9 42 (fun e => e) (fun c => c)
              (Some "A") webhook_db)
    as (_ & H1 & _ & _ & _ & H2 & _ & H3 & _).
  - simpl. intros e [<-|[<-|[]]]; discriminate.
  - simpl. intros c [<-|[]]. discriminate.
  - split; [exact H1|]. split; [exact H3|exact H2].
Defined.

(** A stored email is found again.  With the primary key holding and the
    store answering, the row [createEmail] returns is the row
    [getEmailById] returns for its identifier; once [markEmailAsSent] has
    given it a message identifier no other email carries, a webhook event
    with that identifier refers to it, with status [sent]. *)
Theorem stored_email_is_found_again :
  forall (now later : Timestamp) (email : Id -> Email) (m : string)
         (db db' : Db) (row : Email),
    email_keys db ->
    unknown_message m db ->
    (forall i, email_id (email i) = i /\ message_id (email i) = None) ->
    Emails.createEmail None email db = (db', Ok row) ->
    email_keys db'
    /\ EmailsApi.getEmailById None (email_id row) db' = (db', Ok row)
    /\ (forall m', email_for m' db' = email_for m' db)
    /\ exists db'' sent,
         EmailsApi.markEmailAsSent None later (email_id row) (Some m) db'
         = (db'', Ok (Some sent))
         /\ email_for m db'' = Some sent
         /\ EmailsApi.getEmailById None (email_id row) db'' = (db'', Ok sent)
         /\ email_id sent = email_id row
         /\ email_status sent = "sent"
         /\ sent_at sent = Some later
         /\ subject sent = subject row /\ body sent = body row
         /\ company_id sent = company_id row.
Proof.
  intros now later email m db db' row Hk Hun Hmk Hrun.
  unfold Emails.createEmail in Hrun. inversion Hrun as [[Hdb Hrow]]. clear Hrun.
  set (i := fresh_id email_id (emails db)) in *.
  destruct (Hmk i) as [Hid Hmid].
  assert (Hk' : NoDup (map email_id (emails db ++ [email i]))).
  { rewrite map_app. simpl.
    apply NoDup_app; [exact Hk|repeat constructor; intros []|].
    intros a Ha [<-|[]]. rewrite Hid in Ha.
    now apply (fresh_id_is_new email_id (emails db)). }
  assert (Hin : In (email i) (emails db ++ [email i]))
    by (apply in_or_app; right; now left).
  pose proof (keyed_row_is_single email_id _ (email i) Hk' Hin) as Hs.
  split; [exact Hk'|].
  split.
  { unfold EmailsApi.getEmailById. simpl. unfold Webhook.has_id.
    change (fun e : Email => email_id e =? email_id (email i))
      with (fun x : Email => email_id x =? email_id (email i)).
    now rewrite Hs. }
  split.
  { intros m'. unfold email_for. simpl. rewrite filter_app. simpl.
    unfold Webhook.has_message_id at 2. rewrite Hmid. now rewrite app_nil_r. }
  set (u := fun e => EmailsApi.stamp later (EmailsApi.as_sent later (Some m) e)).
  exists (with_emails (update_rows (Webhook.has_id (email_id (email i))) u
                         (emails db ++ [email i]))
                      (with_emails (emails db ++ [email i]) db)),
         (u (email i)).
  assert (Hupd : updated_rows (Webhook.has_id (email_id (email i))) u
                   (emails db ++ [email i]) = [u (email i)]).
  { unfold updated_rows, Webhook.has_id.
    change (fun e : Email => email_id e =? email_id (email i))
      with (fun x : Email => email_id x =? email_id (email i)).
    now rewrite Hs. }
  assert (Hold : forall e, In e (emails db) ->
                           Webhook.has_id (email_id (email i)) e = false).
  { intros e He. unfold Webhook.has_id. apply Z.eqb_neq. rewrite Hid.
    pose proof (fresh_id_above email_id (emails db) e He). fold i in H. lia. }
  assert (Hrows : update_rows (Webhook.has_id (email_id (email i))) u
                    (emails db ++ [email i]) = emails db ++ [u (email i)]).
  { unfold update_rows. rewrite map_app. simpl.
    unfold Webhook.has_id at 2. rewrite Z.eqb_refl. f_equal.
    destruct (update_rows_no_match (Webhook.has_id (email_id (email i))) u
                (emails db) Hold) as [H1 _].
    exact H1. }
  split.
  { unfold EmailsApi.markEmailAsSent, EmailsApi.updateEmail. simpl.
    fold u. now rewrite Hupd. }
  split.
  { unfold email_for. simpl. rewrite Hrows, filter_app.
    assert (Hnone : filter (Webhook.has_message_id m) (emails db) = []).
    { clear -Hun. unfold unknown_message in Hun.
      induction (emails db) as [|e t IH]; [reflexivity|]. simpl.
      assert (He : Webhook.has_message_id m e = false).
      { unfold Webhook.has_message_id.
        destruct (message_id e) as [m0|] eqn:E; [|reflexivity].
        apply String.eqb_neq. intros ->.
        apply (Hun e (or_introl eq_refl)). exact E. }
      rewrite He. apply IH. intros x Hx. apply Hun. now right. }
    rewrite Hnone. simpl. unfold Webhook.has_message_id. simpl.
    now rewrite String.eqb_refl. }
  split.
  { unfold EmailsApi.getEmailById. simpl. rewrite Hrows.
    assert (Hk'' : NoDup (map email_id (emails db ++ [u (email i)]))).
    { rewrite map_app. simpl. rewrite map_app in Hk'. exact Hk'. }
    assert (Hin' : In (u (email i)) (emails db ++ [u (email i)]))
      by (apply in_or_app; right; now left).
    pose proof (keyed_row_is_single email_id _ (u (email i)) Hk'' Hin') as Hs'.
    unfold Webhook.has_id.
    change (fun e : Email => email_id e =? email_id (email i))
      with (fun x : Email => email_id x =? email_id (u (email i))).
    now rewrite Hs'. }
  repeat split.
Qed.

Lemma stored_email_is_found_again_witness :
  exists db'' sent,
    EmailsApi.markEmailAsSent None 8 3 (Some "M") 
      (fst (Emails.createEmail None draft webhook_db)) = (db'', Ok (Some sent))
    /\ email_for "M" db'' = Some sent
    /\ email_status sent = "sent".
Proof.
  assert (Hk : email_keys webhook_db).
  { unfold email_keys. simpl.
    repeat (constructor; [simpl; intuition discriminate|]). constructor. }
  assert (Hun : unknown_message "M" webhook_db).
  { intros e. simpl. intros [<-|[<-|[]]]; discriminate. }
  destruct (stored_email_is_found_again 7 8 draft "M" webhook_db
              (fst (Emails.createEmail None draft webhook_db))
              (draft 3) Hk Hun (fun i => conj eq_refl eq_refl) eq_refl)
    as (_ & _ & _ & db'' & sent & Hrun & Hfound & _ & _ & Hst & _).
  exists db'', sent. split; [exact Hrun|]. split; [exact Hfound|exact Hst].
Defined.

(** ** Tracking events *)

Lemma Forall2_same {R} (rel : R -> R -> Prop) (l : list R) :
  (forall x, rel x x) -> Forall2 rel l l.
Proof. intros H. induction l; constructor; auto. Qed.

Lemma Forall2_chain {R} (rel : R -> R -> Prop) (a b c : list R) :
  (forall x y z, rel x y -> rel y z -> rel x z) ->
  Forall2 rel a b -> Forall2 rel b c -> Forall2 rel a c.
Proof.
  intros Ht H. revert c. induction H as [|x y a b Hxy H IH]; intros c K;
    inversion K; subst; constructor; eauto.
Qed.

Lemma Forall2_update {R} (rel : R -> R -> Prop) (p : R -> bool) (u : R -> R)
      (l : list R) :
  (forall x, rel x x) -> (forall x, rel x (u x)) ->
  Forall2 rel l (update_rows p u l).
Proof.
  intros Hr Hu. unfold update_rows.
  induction l as [|x l IH]; simpl; constructor; [|exact IH].
  destruct (p x); auto.
Qed.

Lemma tracked_refl (e : Email) : tracked e e.
Proof. unfold tracked. repeat split; try reflexivity. now left. Qed.

Lemma tracked_trans (a b c : Email) : tracked a b -> tracked b c -> tracked a c.
Proof.
  unfold tracked.
  intros (A1 & A2 & A3 & A4 & A5 & A6 & A7 & A8 & A9)
         (B1 & B2 & B3 & B4 & B5 & B6 & B7 & B8 & B9).
  repeat split; try congruence.
  destruct B9 as [B9|B9]; [|now right].
  rewrite B9. exact A9.
Qed.

Lemma unverified_refl (c : Company) : unverified_at_most c c.
Proof. unfold unverified_at_most. repeat split; try reflexivity. auto. Qed.

Lemma unverified_trans (a b c : Company) :
  unverified_at_most a b -> unverified_at_most b c -> unverified_at_most a c.
Proof.
  unfold unverified_at_most.
  intros (A1 & A2 & A3 & A4 & A5 & A6 & A7 & A8)
         (B1 & B2 & B3 & B4 & B5 & B6 & B7 & B8).
  repeat split; try congruence. auto.
Qed.

Lemma tracking_refl (db : Db) : tracking_only db db.
Proof.
  unfold tracking_only. repeat split.
  - apply Forall2_same, tracked_refl.
  - apply Forall2_same, unverified_refl.
Qed.

Lemma tracking_trans (a b c : Db) :
  tracking_only a b -> tracking_only b c -> tracking_only a c.
Proof.
  unfold tracking_only.
  intros (A1 & A2 & A3 & A4) (B1 & B2 & B3 & B4).
  repeat split; try congruence.
  - eapply Forall2_chain; eauto using tracked_trans.
  - eapply Forall2_chain; eauto using unverified_trans.
Qed.

Lemma tracking_update_email (fault : option string) (i : Id)
      (u : Email -> Email) :
  (forall e, tracked e (u e)) ->
  respects tracking_only (Webhook.update_email fault i u).
Proof.
  intros Hu db. unfold Webhook.update_email.
  destruct fault; simpl; [apply tracking_refl|].
  unfold tracking_only. simpl. repeat split.
  - apply Forall2_update; [apply tracked_refl|exact Hu].
  - apply Forall2_same, unverified_refl.
Qed.

Lemma tracking_unverify (fault : option string) (now : Timestamp) (i : Id) :
  respects tracking_only
           (Companies.update_by_id fault i (Companies.set_unverified now)).
Proof.
  intros db. unfold Companies.update_by_id.
  destruct fault; simpl; [apply tracking_refl|].
  unfold tracking_only. simpl. repeat split.
  - apply Forall2_same, tracked_refl.
  - apply Forall2_update; [apply unverified_refl|].
    intros c. unfold unverified_at_most. simpl. repeat split. discriminate.
Qed.

Lemma set_opened_tracked (at_ now : Timestamp) (e : Email) :
  tracked e (Webhook.set_opened at_ now e).
Proof. unfold tracked. simpl. repeat split. right. now left. Qed.

Lemma set_clicked_tracked (at_ now : Timestamp) (e : Email) :
  tracked e (Webhook.set_clicked at_ now e).
Proof. unfold tracked. simpl. repeat split. right. right. now left. Qed.

Lemma set_bounced_tracked (now : Timestamp) (e : Email) :
  tracked e (Webhook.set_bounced now e).
Proof. unfold tracked. simpl. repeat split. right. right. right. now left. Qed.

Ltac tracking_step :=
  first
    [ apply tracking_update_email;
      first [apply set_opened_tracked|apply set_clicked_tracked
            |apply set_bounced_tracked]
    | apply tracking_unverify
    | apply respects_ret; apply tracking_refl
    | apply respects_pure; apply tracking_refl
    | apply respects_read; apply tracking_refl
    | apply respects_bind; [apply tracking_trans| |intros ?]
    | match goal with
      | |- respects _ (match ?x with _ => _ end) => destruct x
      | |- respects _ (if ?x then _ else _) => destruct x
      end ].

Lemma tracking_sendgrid_try (f : Faults) (now : Timestamp)
      (event : Webhook.SgEvent) :
  respects tracking_only (Webhook.sendgrid_try f now event).
Proof.
  unfold Webhook.sendgrid_try, Webhook.select_by_message_id.
  repeat tracking_step.
Qed.

Lemma tracking_mailgun_try (f : Faults) (now : Timestamp)
      (payload : Webhook.MgEvent) :
  respects tracking_only (Webhook.mailgun_try f now payload).
Proof.
  unfold Webhook.mailgun_try, Webhook.select_by_message_id.
  repeat tracking_step.
Qed.

Lemma tracking_sendgrid_loop (plans : nat -> Faults) (now : Timestamp)
      (events : list Webhook.SgEvent) :
  forall (i : nat) (db : Db),
    tracking_only db (fst (Webhook.sendgrid_loop plans now i events db)).
Proof.
  induction events as [|ev events IH]; intros i db; simpl;
    [apply tracking_refl|].
  pose proof (tracking_sendgrid_try (plans i) now ev db) as H.
  unfold Webhook.sendgrid_event.
  destruct (Webhook.sendgrid_try (plans i) now ev db) as [db1 r].
  simpl in H. specialize (IH (S i) db1).
  destruct r;
    destruct (Webhook.sendgrid_loop plans now (S i) events db1) as [db2 rs];
    simpl in *; eapply tracking_trans; eauto.
Qed.

(** The webhook handlers write tracking data only.  After a SendGrid batch
    and after a Mailgun event, whatever the payload and whatever the store
    answered, both tables hold the same rows in the same places; an email
    row keeps its identifier, company, subject, body, send time, provider,
    message identifier and template, and its status is the old one or one
    of [opened], [clicked], [bounced]; a company row keeps everything
    except [updated_at] and [email_verified], which is never set to
    [true]; the schedule and the templates are untouched. *)
Theorem webhooks_write_tracking_data_only :
  forall (plans : nat -> Faults) (f : Faults) (now : Timestamp)
         (payload : Webhook.Payload) (event : Webhook.MgEvent) (db : Db),
    tracking_only db (fst (Webhook.processSendGridWebhook plans now payload db))
    /\ tracking_only db (fst (Webhook.processMailgunWebhook f now event db)).
Proof.
  intros plans f now payload event db. split.
  - unfold Webhook.processSendGridWebhook. destruct payload as [events|].
    + pose proof (tracking_sendgrid_loop plans now events 0%nat db) as H.
      destruct (Webhook.sendgrid_loop plans now 0 events db) as [db' rs].
      exact H.
    + apply tracking_refl.
  - pose proof (tracking_mailgun_try f now event db) as H.
    unfold Webhook.processMailgunWebhook.
    destruct (Webhook.mailgun_try f now event db) as [db' [r|e]]; exact H.
Qed.

(** The record a message identifier refers to, after an update by the
    identifier of that record which keeps message identifiers. *)
Lemma email_for_updated (m : string) (db : Db) (e : Email) (u : Email -> Email) :
  (forall x, message_id (u x) = message_id x) ->
  email_for m db = Some e ->
  email_for m (with_emails (update_rows (Webhook.has_id (email_id e)) u
                                        (emails db)) db)
  = Some (u e).
Proof.
  intros Hu. unfold email_for, update_rows. simpl.
  induction (emails db) as [|x l IH]; simpl; [discriminate|].
  assert (Hsame : Webhook.has_message_id m
                    (if Webhook.has_id (email_id e) x then u x else x)
                  = Webhook.has_message_id m x).
  { destruct (Webhook.has_id (email_id e) x); [|reflexivity].
    unfold Webhook.has_message_id. now rewrite Hu. }
  rewrite Hsame. destruct (Webhook.has_message_id m x).
  - simpl. intros H. inversion H; subst.
    unfold Webhook.has_id. now rewrite Z.eqb_refl.
  - exact IH.
Qed.





(** A bounce is not undone when its second write fails.  For a stored
    record, when the store answers the lookup and the email update and
    refuses the company update, both handlers report the store's message
    as an error, the email record is [bounced] all the same, and the
    companies table is as it was: the owning company keeps
    [email_verified]. *)
Theorem failed_bounce_keeps_the_email_bounced :
  forall (now : Timestamp) (m msg : string) (t t' : option Z)
         (url reason : option string) (e : Email) (db : Db),
    email_for m db = Some e ->
    let sg_ev := Webhook.mkSgEvent "bounce" m t url reason in
    let mg_ev := Webhook.mkMgEvent "bounced" m t' url reason in
    let sg_out := Webhook.sendgrid_event (company_write_fails msg) now sg_ev db in
    let mg_out := Webhook.processMailgunWebhook (company_write_fails msg) now
                                                mg_ev db in
    snd sg_out = Webhook.mkSgResult "bounce" m None "error" None None (Some msg)
    /\ snd mg_out = Webhook.mkMgResult false (Some msg) (Some "bounced") m
                                       None None None
    /\ fst sg_out = fst mg_out
    /\ email_for m (fst sg_out) = Some (Webhook.set_bounced now e)
    /\ companies (fst sg_out) = companies db.
Proof.
  intros now m msg t t' url reason e db Hf sg_ev mg_ev sg_out mg_out.
  destruct (email_for_found m db e Hf) as [Hsel _].
  pose proof (email_for_updated m db e (Webhook.set_bounced now)
                (fun x => eq_refl) Hf) as Hupd.
  subst sg_out mg_out sg_ev mg_ev.
  unfold Webhook.sendgrid_event, Webhook.sendgrid_try,
    Webhook.processMailgunWebhook, Webhook.mailgun_try, bind,
    Webhook.select_by_message_id, Webhook.update_email,
    Companies.update_by_id, ret, company_write_fails.
  simpl. rewrite Hsel. simpl.
  repeat split. exact Hupd.
Qed.

Lemma failed_bounce_keeps_the_email_bounced_witness :
  email_for "A" (fst (Webhook.sendgrid_event (company_write_fails "down") 30
                        (Webhook.mkSgEvent "bounce" "A" (Some 5) None None) bounce_db))
  = Some (Webhook.set_bounced 30 (sent_record 1 "A"))
  /\ map Companies.ready
         (companies
            (fst (Webhook.sendgrid_event (company_write_fails "down") 30
                    (Webhook.mkSgEvent "bounce" "A" (Some 5) None None) bounce_db)))
     = [true].
Proof.
  destruct (failed_bounce_keeps_the_email_bounced 30 "A" "down" (Some 5) (Some 5)
              None None
              (sent_record 1 "A") bounce_db eq_refl)
    as (_ & _ & _ & He & Hc).
  split; [exact He|]. rewrite Hc. reflexivity.
Defined.

(** An event that is not one of a handler's three names writes nothing.
    For a stored record and the lookup answered, the SendGrid handler
    skips an event whose name is not [open], [click] or [bounce], the
    Mailgun handler fails an event whose name is not [opened], [clicked]
    or [bounced], and both leave every table as it was; so each handler
    ignores the names of the other. *)
Theorem other_events_write_nothing :
  forall (f : Faults) (now : Timestamp) (m : string) (e : Email) (db : Db)
         (sg_ev : Webhook.SgEvent) (mg_ev : Webhook.MgEvent),
    email_for m db = Some e ->
    f 0%nat = None ->
    Webhook.sg_message_id sg_ev = m -> Webhook.mg_message_id mg_ev = m ->
    (~ In (Webhook.sg_event sg_ev) sendgrid_names ->
     Webhook.sendgrid_event f now sg_ev db
     = (db, Webhook.mkSgResult (Webhook.sg_event sg_ev) m (Some (email_id e))
                               "skipped" (Some "Unsupported event type")
                               None None))
    /\ (~ In (Webhook.mg_event mg_ev) mailgun_names ->
        Webhook.processMailgunWebhook f now mg_ev db
        = (db, Webhook.mkMgResult false
                 (Some ("Unsupported event type: " ++ Webhook.mg_event mg_ev)%string)
                 None m (Some (email_id e)) None None)).
Proof.
  intros f now m e db sg_ev mg_ev Hf H0 Hsg Hmg.
  destruct (email_for_found m db e Hf) as [Hsel _].
  split; intros Hn.
  - unfold Webhook.sendgrid_event, Webhook.sendgrid_try, bind,
      Webhook.select_by_message_id, ret.
    rewrite H0, Hsg, Hsel.
    destruct (String.eqb_spec (Webhook.sg_event sg_ev) "open") as [E|_];
      [exfalso; apply Hn; rewrite E; simpl; auto|].
    destruct (String.eqb_spec (Webhook.sg_event sg_ev) "click") as [E|_];
      [exfalso; apply Hn; rewrite E; simpl; auto|].
    destruct (String.eqb_spec (Webhook.sg_event sg_ev) "bounce") as [E|_];
      [exfalso; apply Hn; rewrite E; simpl; auto|].
    reflexivity.
  - unfold Webhook.processMailgunWebhook, Webhook.mailgun_try, bind,
      Webhook.select_by_message_id, ret.
    rewrite H0, Hmg, Hsel.
    destruct (String.eqb_spec (Webhook.mg_event mg_ev) "opened") as [E|_];
      [exfalso; apply Hn; rewrite E; simpl; auto|].
    destruct (String.eqb_spec (Webhook.mg_event mg_ev) "clicked") as [E|_];
      [exfalso; apply Hn; rewrite E; simpl; auto|].
    destruct (String.eqb_spec (Webhook.mg_event mg_ev) "bounced") as [E|_];
      [exfalso; apply Hn; rewrite E; simpl; auto|].
    reflexivity.
Qed.

Lemma other_events_write_nothing_witness :
  fst (Webhook.sendgrid_event no_faults 30
         (Webhook.mkSgEvent "bounced" "A" (Some 5) None None) bounce_db) = bounce_db
  /\ fst (Webhook.processMailgunWebhook no_faults 30
            (Webhook.mkMgEvent "bounce" "A" (Some 5) None None) bounce_db) = bounce_db.
Proof.
  destruct (other_events_write_nothing no_faults 30 "A" (sent_record 1 "A")
              bounce_db (Webhook.mkSgEvent "bounced" "A" (Some 5) None None)
              (Webhook.mkMgEvent "bounce" "A" (Some 5) None None)
              eq_refl eq_refl eq_refl eq_refl) as [Hs Hm].
  split.
  - rewrite Hs; [reflexivity|].
    simpl. intros [H|[H|[H|[]]]]; discriminate.
  - rewrite Hm; [reflexivity|].
    simpl. intros [H|[H|[H|[]]]]; discriminate.
Defined.

(** ** The daily workflow and its counter *)

Section WorkflowCounter.
Import EmailSchedule.

(** Step 1 hands the loop the row the store holds for today. *)
Lemma todays_schedule_is_stored (sf : DailyWorkflow.SetupFaults)
      (now : Timestamp) (today : Date) (db db1 : Db) (s : Schedule) :
  schedule_constraints (email_schedule db) ->
  DailyWorkflow.todays_schedule sf now today db = (db1, Ok s) ->
  schedule_constraints (email_schedule db1)
  /\ find_schedule today (email_schedule db1) = Some s
  /\ emails_sent s = sent_before today db.
Proof.
  intros Hc. unfold DailyWorkflow.todays_schedule, bind, getEmailSchedule,
    sent_before.
  destruct (DailyWorkflow.f_schedule_read sf); [discriminate|].
  destruct (find_schedule today (email_schedule db)) as [r|] eqn:Hf.
  - unfold ret. intros H. inversion H; subst. auto.
  - unfold insert_schedule.
    destruct (DailyWorkflow.f_schedule_insert sf); [discriminate|].
    destruct (existsb (on_date today) (email_schedule db)) eqn:Hex;
      [discriminate|].
    unfold ret. intros H. inversion H; subst. clear H. simpl.
    split.
    + destruct (create_or_update_keeps_constraints 5 now today
                  (email_schedule db) Hc) as [_ K].
      exact (K Hex).
    + split; [|reflexivity].
      exact (find_schedule_inserted
               (mkSchedule (fresh_id schedule_id (email_schedule db))
                           today 5 0 false now)
               (email_schedule db) Hex).
Qed.

(** What steps 4.1 to 4.5 do to the schedule table: the counter is
    written when all of them succeeded and nothing is written
    otherwise. *)
Lemma company_try_schedule (io : DailyWorkflow.CompanyIO) (now : Timestamp)
      (template : Template) (schedule : Schedule) (c : Company) (db : Db) :
  match DailyWorkflow.company_try io now template schedule c db with
  | (db1, Ok _) =>
      email_schedule db1
      = update_rows (has_id (schedule_id schedule))
                    (DailyWorkflow.set_counter schedule now) (email_schedule db)
  | (db1, Err _) => email_schedule db1 = email_schedule db
  end.
Proof.
  unfold DailyWorkflow.company_try, DailyWorkflow.lift,
    DailyWorkflow.generateEmailContent, bind, Emails.createEmail,
    Companies.update_by_id, update_schedule, ret.
  destruct (DailyWorkflow.io_generate io) as [text|e]; [|reflexivity].
  destruct (ContentParser.parseGeneratedContent text) as [subj bdy].
  destruct (DailyWorkflow.io_send io) as [mid|e]; [|reflexivity].
  destruct (DailyWorkflow.io_store io 0%nat); [reflexivity|].
  destruct (DailyWorkflow.io_store io 1%nat); [reflexivity|].
  destruct (DailyWorkflow.io_store io 2%nat); reflexivity.
Qed.

Lemma in_step_after_send (now : Timestamp) (stored schedule : Schedule) :
  in_step stored schedule ->
  in_step (DailyWorkflow.set_counter schedule now stored)
          (DailyWorkflow.bump schedule).
Proof.
  unfold in_step. intros (H1 & H2 & H3 & H4 & H5). simpl. auto.
Qed.

Lemma sent_count_sent (c : Company) (content : ContentParser.Content)
      (record : Email) (rs : list CompanyResult) :
  sent_count (DailyWorkflow.sent_result c content record :: rs)
  = 1 + sent_count rs.
Proof.
  unfold sent_count. cbn [filter].
  change (is_sent (DailyWorkflow.sent_result c content record)) with true.
  cbn [List.length]. lia.
Qed.

Lemma sent_count_error (c : Company) (e : Error) (rs : list CompanyResult) :
  sent_count (DailyWorkflow.error_result c e :: rs) = sent_count rs.
Proof. reflexivity. Qed.

Lemma workflow_loop_in_step (ios : nat -> DailyWorkflow.CompanyIO)
      (now : Timestamp) (template : Template) (today : Date)
      (cs : list Company) :
  forall (i : nat) (schedule stored : Schedule) (db : Db),
    schedule_constraints (email_schedule db) ->
    find_schedule today (email_schedule db) = Some stored ->
    in_step stored schedule ->
    exists stored',
      find_schedule today
        (email_schedule
           (fst (DailyWorkflow.company_loop ios now template i cs schedule db)))
      = Some stored'
      /\ in_step stored'
           (fst (snd (DailyWorkflow.company_loop ios now template i cs
                        schedule db)))
      /\ schedule_constraints
           (email_schedule
              (fst (DailyWorkflow.company_loop ios now template i cs
                      schedule db)))
      /\ emails_sent
           (fst (snd (DailyWorkflow.company_loop ios now template i cs
                        schedule db)))
         = emails_sent schedule
           + sent_count (snd (snd (DailyWorkflow.company_loop ios now template
                                     i cs schedule db))).
Proof.
  induction cs as [|c cs IH]; intros i schedule stored db Hc Hf Hs.
  - simpl. exists stored.
    split; [exact Hf|]. split; [exact Hs|]. split; [exact Hc|].
    unfold sent_count. simpl. lia.
  - cbn [DailyWorkflow.company_loop].
    pose proof (company_try_schedule (ios i) now template schedule c db) as Ht.
    destruct (DailyWorkflow.company_try (ios i) now template schedule c db)
      as [db1 [[content record]|e]].
    + assert (Hid : schedule_id schedule = schedule_id stored)
        by (symmetry; apply Hs).
      rewrite Hid in Ht.
      assert (Hf1 : find_schedule today (email_schedule db1)
                    = Some (DailyWorkflow.set_counter schedule now stored)).
      { rewrite Ht. apply find_schedule_updated; [reflexivity|exact Hf]. }
      assert (Hc1 : schedule_constraints (email_schedule db1)).
      { rewrite Ht. destruct Hc as [Hc1 Hc2].
        split; rewrite map_update_rows_key; auto. }
      pose proof (in_step_after_send now stored schedule Hs) as Hs1.
      destruct (is_completed (DailyWorkflow.bump schedule)) eqn:Hdone.
      * exists (DailyWorkflow.set_counter schedule now stored). simpl.
        split; [exact Hf1|]. split; [exact Hs1|]. split; [exact Hc1|].
        rewrite sent_count_sent. unfold sent_count. cbn [filter List.length].
        lia.
      * destruct (IH (S i) (DailyWorkflow.bump schedule) _ db1 Hc1 Hf1 Hs1)
          as (stored' & K1 & K2 & K3 & K4).
        destruct (DailyWorkflow.company_loop ios now template (S i) cs
                    (DailyWorkflow.bump schedule) db1) as [db2 [s2 rs]].
        cbn [fst snd] in *. exists stored'.
        split; [exact K1|]. split; [exact K2|]. split; [exact K3|].
        rewrite K4, sent_count_sent. cbn [DailyWorkflow.bump emails_sent].
        lia.
    + assert (Hf1 : find_schedule today (email_schedule db1) = Some stored)
        by (now rewrite Ht).
      assert (Hc1 : schedule_constraints (email_schedule db1))
        by (now rewrite Ht).
      destruct (IH (S i) schedule stored db1 Hc1 Hf1 Hs)
        as (stored' & K1 & K2 & K3 & K4).
      destruct (DailyWorkflow.company_loop ios now template (S i) cs
                  schedule db1) as [db2 [s2 rs]].
      cbn [fst snd] in *. exists stored'.
      split; [exact K1|]. split; [exact K2|]. split; [exact K3|].
      rewrite K4, sent_count_error. reflexivity.
Qed.

End WorkflowCounter.

(** The schedule a run of the daily workflow returns is the schedule in the
    store.  With the constraints of the schedule table holding before the
    run, whenever the run reaches its loop, whatever the collaborators and
    the store answered there: today's stored row agrees with the returned
    schedule on limit, counter and completion; the counter has advanced by
    exactly the number of results with status [sent]; and it is within the
    limit, although step 4.5 writes it without a check. *)
Theorem workflow_counter_matches_sent_results :
  forall (sf : DailyWorkflow.SetupFaults) (ios : nat -> DailyWorkflow.CompanyIO)
         (now : Timestamp) (today : Date) (db : Db) (msg : string)
         (results : list CompanyResult) (s' : Schedule),
    schedule_constraints (email_schedule db) ->
    snd (DailyWorkflow.execute sf ios now today db)
    = RunDone msg (Some results) (Some s') ->
    exists stored,
      EmailSchedule.find_schedule today
        (email_schedule (fst (DailyWorkflow.execute sf ios now today db)))
      = Some stored
      /\ in_step stored s'
      /\ emails_sent s' = sent_before today db + sent_count results
      /\ emails_sent s' <= emails_limit s'
      /\ schedule_constraints
           (email_schedule (fst (DailyWorkflow.execute sf ios now today db))).
Proof.
  intros sf ios now today db msg results s' Hc.
  unfold DailyWorkflow.execute.
  destruct (DailyWorkflow.todays_schedule sf now today db) as [db1 [s|e]] eqn:Ht;
    [|discriminate].
  destruct (todays_schedule_is_stored sf now today db db1 s Hc Ht)
    as (Hc1 & Hf1 & Hb).
  destruct (is_completed s || (emails_limit s <=? emails_sent s)) eqn:Hg;
    [discriminate|].
  apply orb_false_iff in Hg. destruct Hg as [_ Hlt]. apply Z.leb_gt in Hlt.
  unfold Companies.getCompaniesForDailyEmails.
  destruct (DailyWorkflow.f_companies sf) as [m|rank]; [discriminate|].
  destruct (Companies.daily_query rank (emails_limit s - emails_sent s)
                                  (companies db1)) as [|c cs]; [discriminate|].
  destruct (DailyWorkflow.f_templates sf) as [m'|rank']; [discriminate|].
  set (template := match DailyWorkflow.active_template rank'
                                      (email_templates db1) with
                   | t :: _ => t
                   | [] => DailyWorkflow.default_template
                   end).
  assert (Hs : in_step s s) by (unfold in_step; auto).
  destruct (workflow_loop_in_step ios now template today (c :: cs) 0%nat s s
              db1 Hc1 Hf1 Hs) as (stored & K1 & K2 & K3 & K4).
  pose proof (workflow_counter_within_limit ios now template (c :: cs)
                0%nat s db1 Hlt) as [L1 L2].
  destruct (DailyWorkflow.company_loop ios now template 0 (c :: cs) s db1)
    as [db3 [s3 rs]].
  simpl in *. intros H. inversion H; subst. clear H.
  exists stored.
  split; [exact K1|]. split; [exact K2|]. split; [lia|].
  split; [lia|exact K3].
Qed.

Lemma workflow_counter_matches_sent_results_witness :
  exists stored,
    EmailSchedule.find_schedule sample_day
      (email_schedule
         (fst (DailyWorkflow.execute DailyWorkflow.no_setup_faults workflow_ios
                 30 sample_day five_db)))
    = Some stored
    /\ emails_sent stored = 1
    /\ is_completed stored = false.
Proof.
  assert (Hc : schedule_constraints (email_schedule five_db)).
  { split; simpl; repeat constructor; intros []. }
  destruct (DailyWorkflow.execute DailyWorkflow.no_setup_faults workflow_ios
              30 sample_day five_db) as [db' r] eqn:Hrun.
  assert (Hr : exists msg results s',
             r = RunDone msg (Some results) (Some s')
             /\ emails_sent s' = 1 /\ is_completed s' = false).
  { vm_compute in Hrun. inversion Hrun; subst.
    eexists. eexists. eexists. split; [reflexivity|split; reflexivity]. }
  destruct Hr as (msg & results & s' & Hr & Hn & Hd).
  pose proof (workflow_counter_matches_sent_results
                DailyWorkflow.no_setup_faults workflow_ios 30 sample_day
                five_db msg results s' Hc) as H.
  rewrite Hrun in H. simpl in H.
  destruct (H Hr) as (stored & Hf & (_ & _ & _ & Hs & Hcmp) & _).
  exists stored. split; [exact Hf|]. split; congruence.
Defined.

(** ** The generated text *)

Section ParserShape.
Import ContentParser.

Lemma scan_line_group (s g r : JsString) :
  scan_line s = Some (g, r) -> forallb not_terminator g = true.
Proof.
  revert g r. induction s as [|c s IH]; intros g r H; simpl in H.
  - now inversion H.
  - destruct (c =? 10)%N; [now inversion H|].
    destruct (is_line_terminator c) eqn:Hc; [discriminate|].
    destruct (scan_line s) as [[g' r']|]; [|discriminate].
    inversion H; subst. simpl. unfold not_terminator at 1. rewrite Hc.
    simpl. eapply IH. reflexivity.
Qed.

Lemma spaces_then_line_group (s g : JsString) :
  spaces_then_line s = Some g -> forallb not_terminator g = true.
Proof.
  assert (Hscan : forall t, option_map fst (scan_line t) = Some g ->
                            forallb not_terminator g = true).
  { intros t H. destruct (scan_line t) as [[g' r']|] eqn:E; [|discriminate].
    inversion H; subst. exact (scan_line_group _ _ _ E). }
  induction s as [|c s IH]; intros H.
  - exact (Hscan _ H).
  - cbn [spaces_then_line] in H. destruct (is_space c).
    + destruct (spaces_then_line s) as [g'|].
      * inversion H; subst. now apply IH.
      * exact (Hscan _ H).
    + exact (Hscan _ H).
Qed.

Lemma spaces_then_line_none (s : JsString) :
  spaces_then_line s = None -> scan_line s = None.
Proof.
  assert (Hscan : forall t, option_map fst (scan_line t) = None ->
                            scan_line t = None).
  { intros t H. destruct (scan_line t); [discriminate|reflexivity]. }
  destruct s as [|c s]; intros H.
  - exact (Hscan _ H).
  - cbn [spaces_then_line] in H. destruct (is_space c).
    + destruct (spaces_then_line s); [discriminate|exact (Hscan _ H)].
    + exact (Hscan _ H).
Qed.

Lemma search_found {A} (f : JsString -> option A) (s : JsString) (r : A) :
  search f s = Some r -> exists t, f t = Some r.
Proof.
  induction s as [|c s IH]; cbn [search]; intros H.
  - destruct (f []) eqn:E; [|discriminate]. inversion H; subst. now exists [].
  - destruct (f (c :: s)) eqn:E.
    + inversion H; subst. now exists (c :: s).
    + now apply IH.
Qed.

Lemma search_none {A B} (f : JsString -> option A) (g : JsString -> option B)
      (s : JsString) :
  (forall t, f t = None -> g t = None) ->
  search f s = None -> search g s = None.
Proof.
  intros Hfg. induction s as [|c s IH]; cbn [search]; intros H.
  - destruct (f []) eqn:E; [discriminate|]. now rewrite (Hfg _ E).
  - destruct (f (c :: s)) eqn:E; [discriminate|].
    rewrite (Hfg _ E). now apply IH.
Qed.

Lemma trim_start_black (s : JsString) : starts_black (trim_start s).
Proof.
  induction s as [|c s IH]; simpl; [exact I|].
  destruct (is_space c) eqn:E; [exact IH|exact E].
Qed.

Lemma trim_start_fixed (s : JsString) : starts_black s -> trim_start s = s.
Proof. destruct s as [|c s]; simpl; [reflexivity|]. now intros ->. Qed.

Lemma trim_start_split (s : JsString) : exists sp, s = sp ++ trim_start s.
Proof.
  induction s as [|c s [sp IH]]; [now exists []|]. simpl.
  destruct (is_space c).
  - exists (c :: sp). simpl. now f_equal.
  - now exists [].
Qed.

Lemma starts_black_prefix (x y : JsString) :
  x <> [] -> starts_black (x ++ y) -> starts_black x.
Proof. destruct x; [congruence|]. simpl. auto. Qed.

Lemma trim_idempotent (s : JsString) : trim (trim s) = trim s.
Proof.
  unfold trim.
  set (a := trim_start s). set (b := trim_start (rev a)).
  assert (Hb : trim_start (rev b) = rev b).
  { apply trim_start_fixed.
    destruct (trim_start_split (rev a)) as [sp Hsp]. fold b in Hsp.
    destruct b as [|x b'] eqn:Eb; [exact I|].
    assert (Ha : a = rev (x :: b') ++ rev sp).
    { rewrite <- rev_app_distr, <- Hsp. now rewrite rev_involutive. }
    apply (starts_black_prefix _ (rev sp)).
    - simpl. intros H. now apply app_eq_nil in H as [_ H].
    - rewrite <- Ha. apply trim_start_black. }
  rewrite Hb, rev_involutive. unfold b at 1.
  now rewrite trim_start_idempotent.
Qed.

Lemma forallb_trim_start (p : N -> bool) (s : JsString) :
  forallb p s = true -> forallb p (trim_start s) = true.
Proof.
  induction s as [|c s IH]; simpl; [auto|]. intros H.
  destruct (is_space c); [|exact H].
  apply andb_true_iff in H. now apply IH.
Qed.

Lemma forallb_rev (p : N -> bool) (s : JsString) :
  forallb p s = true -> forallb p (rev s) = true.
Proof.
  intros H. apply forallb_forall. intros x Hx. apply in_rev in Hx.
  rewrite forallb_forall in H. now apply H.
Qed.

Lemma forallb_trim (p : N -> bool) (s : JsString) :
  forallb p s = true -> forallb p (trim s) = true.
Proof.
  intros H. unfold trim.
  now apply forallb_rev, forallb_trim_start, forallb_rev, forallb_trim_start.
Qed.

End ParserShape.

(** The subject is one trimmed line.  For every generated text, the subject
    the parser returns holds no line terminator (line feed, carriage
    return, line or paragraph separator) and is trimmed; the body is the
    whole text or is trimmed; and whenever the second pattern finds a body
    the first one has found a subject, so a default subject always comes
    with the whole text as body. *)
Theorem subject_is_one_trimmed_line :
  forall content : JsString,
    forallb not_terminator (fst (ContentParser.parseGeneratedContent content))
    = true
    /\ ContentParser.trim (fst (ContentParser.parseGeneratedContent content))
       = fst (ContentParser.parseGeneratedContent content)
    /\ (snd (ContentParser.parseGeneratedContent content) = content
        \/ ContentParser.trim (snd (ContentParser.parseGeneratedContent content))
           = snd (ContentParser.parseGeneratedContent content))
    /\ (ContentParser.subjectMatch content = None ->
        ContentParser.parseGeneratedContent content
        = (ContentParser.DEFAULT_SUBJECT, content)).
Proof.
  intros content. unfold ContentParser.parseGeneratedContent. simpl.
  split.
  { destruct (ContentParser.subjectMatch content) as [g|] eqn:E;
      [|reflexivity].
    apply forallb_trim. unfold ContentParser.subjectMatch in E.
    apply search_found in E. destruct E as [t E].
    destruct (ContentParser.strip_prefix ContentParser.MARKER t) as [u|];
      [|discriminate].
    exact (spaces_then_line_group _ _ E). }
  split.
  { destruct (ContentParser.subjectMatch content) as [g|];
      [apply trim_idempotent|reflexivity]. }
  split.
  { destruct (ContentParser.bodyMatch content) as [g|];
      [right; apply trim_idempotent|now left]. }
  intros Hnone. rewrite Hnone.
  assert (Hb : ContentParser.bodyMatch content = None).
  { unfold ContentParser.bodyMatch, ContentParser.subjectMatch in *.
    revert Hnone. apply search_none. intros t.
    destruct (ContentParser.strip_prefix ContentParser.MARKER t) as [u|];
      [|reflexivity].
    intros H. now rewrite (spaces_then_line_none _ H). }
  now rewrite Hb.
Qed.

(** ** Variations *)

Lemma variations_loop_parsed (key : option string)
      (answers : nat -> result JsString) (n : nat) :
  truthy key = true ->
  forall i, Variations.variations_loop key answers i n
            = map parsed (answered answers i n).
Proof.
  intros Hk. induction n as [|n IH]; intros i; [reflexivity|].
  cbn [Variations.variations_loop answered].
  unfold ContentParser.generateEmailContent. rewrite Hk. simpl.
  destruct (answers i) as [text|e]; [|apply IH].
  unfold parsed at 1.
  destruct (ContentParser.parseGeneratedContent text) as [subj bdy].
  simpl. f_equal. apply IH.
Qed.

Lemma variations_loop_no_key (key : option string)
      (answers : nat -> result JsString) (n : nat) :
  truthy key = false ->
  forall i, Variations.variations_loop key answers i n = [].
Proof.
  intros Hk. induction n as [|n IH]; intros i; [reflexivity|].
  cbn [Variations.variations_loop].
  unfold ContentParser.generateEmailContent. rewrite Hk. simpl. apply IH.
Qed.

Lemma answered_length (answers : nat -> result JsString) (n : nat) :
  forall i, (List.length (answered answers i n) <= n)%nat.
Proof.
  induction n as [|n IH]; intros i; simpl; [lia|].
  destruct (answers i); simpl; specialize (IH (S i)); lia.
Qed.

(** [generateEmailVariations] swallows every failure.  It returns, in
    order, the parsed answers of the requests that succeeded and nothing
    for the others, so at most [variations] entries (3 when the argument
    is omitted, none when it is zero or negative); where
    [generateEmailContent] throws for a missing API key, the variations
    are the empty list. *)
Theorem variations_keep_the_successes :
  forall (key : option string) (answers : nat -> result JsString)
         (variations : option Z),
    let n := Z.to_nat (match variations with Some v => v | None => 3 end) in
    (truthy key = true ->
     Variations.generateEmailVariations key answers variations
     = map parsed (answered answers 0 n))
    /\ (truthy key = false ->
        Variations.generateEmailVariations key answers variations = []
        /\ forall answer, exists e,
             ContentParser.generateEmailContent key answer = Err e)
    /\ (List.length (Variations.generateEmailVariations key answers variations)
        <= n)%nat.
Proof.
  intros key answers variations n.
  unfold Variations.generateEmailVariations. fold n.
  split; [|split].
  - intros Hk. now apply variations_loop_parsed.
  - intros Hk. split; [now apply variations_loop_no_key|].
    intros answer. unfold ContentParser.generateEmailContent. rewrite Hk.
    simpl. eauto.
  - destruct (truthy key) eqn:Hk.
    + rewrite (variations_loop_parsed key answers n Hk), length_map.
      apply answered_length.
    + rewrite (variations_loop_no_key key answers n Hk). simpl. lia.
Qed.

Lemma variations_keep_the_successes_witness :
  map ContentParser.content_subject
      (Variations.generateEmailVariations (Some "key") second_fails None)
  = [js "Hello"; js "Hello"]
  /\ Variations.generateEmailVariations None second_fails (Some 3) = [].
Proof.
  destruct (variations_keep_the_successes (Some "key") second_fails None)
    as (H1 & _ & _).
  destruct (variations_keep_the_successes None second_fails (Some 3))
    as (_ & H2 & _).
  split.
  - rewrite (H1 eq_refl). reflexivity.
  - exact (proj1 (H2 eq_refl)).
Defined.

(** ** The domain of a website *)

Lemma cut_path_host (host path : JsString) :
  forallb (fun c => negb (is_slash c)) host = true ->
  forallb not_terminator path = true ->
  is_path path ->
  cut_path (host ++ path) = host.
Proof.
  intros Hh Hp Hs. induction host as [|c host IH]; simpl.
  - destruct path as [|x path]; [reflexivity|]. simpl in Hs. subst x.
    simpl in Hp.
    cbn [cut_path]. unfold is_slash at 1. simpl.
    unfold not_terminator in Hp. now rewrite Hp.
  - simpl in Hh. apply andb_true_iff in Hh. destruct Hh as [Hc Hh].
    apply negb_true_iff in Hc. rewrite Hc. simpl. f_equal. now apply IH.
Qed.

Lemma cut_path_no_slash (s : JsString) :
  forallb not_terminator s = true ->
  forallb (fun c => negb (is_slash c)) (cut_path s) = true.
Proof.
  induction s as [|c s IH]; [reflexivity|]. simpl. intros H.
  apply andb_true_iff in H. destruct H as [_ H].
  unfold not_terminator in H. rewrite H, andb_true_r.
  destruct (is_slash c) eqn:E; [reflexivity|].
  simpl. rewrite E. simpl. now apply IH.
Qed.

(** The domain handed to discovery.  For a website made of a host without
    slash and a path without line terminator, with the scheme [http://]
    or [https://] in lower case or without scheme, the domain [main]
    computes is the host; a scheme in upper case is not recognised and
    the domain is then the scheme name with its colon. *)
Theorem domain_of_a_website :
  forall host path : JsString,
    forallb (fun c => negb (is_slash c)) host = true ->
    forallb not_terminator host = true ->
    forallb not_terminator path = true ->
    is_path path ->
    domain_of (js "https://" ++ host ++ path) = host
    /\ domain_of (js "http://" ++ host ++ path) = host
    /\ (strip_scheme (host ++ path) = host ++ path ->
        domain_of (host ++ path) = host)
    /\ domain_of (js "HTTPS://" ++ host ++ path) = js "HTTPS:".
Proof.
  intros host path Hh Ht Hp Hs.
  pose proof (cut_path_host host path Hh Hp Hs) as Hcut.
  split; [exact Hcut|]. split; [exact Hcut|].
  split.
  - intros Hn. unfold domain_of. now rewrite Hn.
  - unfold domain_of.
    change (strip_scheme (js "HTTPS://" ++ host ++ path))
      with (js "HTTPS:" ++ [47%N; 47%N] ++ host ++ path).
    assert (Hall : forallb (fun x => negb (ContentParser.is_line_terminator x))
                           ([47%N] ++ host ++ path) = true).
    { simpl. rewrite forallb_app. fold not_terminator.
      now rewrite Ht, Hp. }
    simpl in Hall. simpl. now rewrite Hall.
Qed.

Lemma domain_of_a_website_witness :
  domain_of (js "https://acme.example/jobs/open") = js "acme.example"
  /\ domain_of (js "acme.example") = js "acme.example"
  /\ domain_of (js "HTTPS://acme.example/jobs") = js "HTTPS:".
Proof.
  destruct (domain_of_a_website (js "acme.example") (js "/jobs/open")
              eq_refl eq_refl eq_refl eq_refl) as (H1 & _ & _ & _).
  destruct (domain_of_a_website (js "acme.example") []
              eq_refl eq_refl eq_refl I) as (_ & _ & H3 & _).
  destruct (domain_of_a_website (js "acme.example") (js "/jobs")
              eq_refl eq_refl eq_refl eq_refl) as (_ & _ & _ & H4).
  split; [exact H1|]. split; [|exact H4].
  exact (H3 eq_refl).
Defined.

(** ** Sending *)

Lemma strip_subset (s : JsString) :
  forall (inside : bool) (x : N),
    In x (EmailSender.strip inside s) -> In x s.
Proof.
  induction s as [|c s IH]; intros inside x; simpl; [auto|].
  destruct inside.
  - destruct (EmailSender.is_gt c); intros H; right; eapply IH; eauto.
  - destruct (EmailSender.is_lt c && existsb EmailSender.is_gt s).
    + intros H. right. eapply IH; eauto.
    + intros [H|H]; [now left|right; eapply IH; eauto].
Qed.

Lemma strip_no_tag (s : JsString) :
  forall inside : bool, no_tag (EmailSender.strip inside s) = true.
Proof.
  induction s as [|c s IH]; intros inside; simpl; [reflexivity|].
  destruct inside.
  - destruct (EmailSender.is_gt c); apply IH.
  - destruct (EmailSender.is_lt c && existsb EmailSender.is_gt s) eqn:E;
      [apply IH|].
    simpl. rewrite IH, andb_true_r.
    destruct (EmailSender.is_lt c); [|reflexivity]. simpl in *.
    destruct (existsb EmailSender.is_gt (EmailSender.strip false s)) eqn:X;
      [|reflexivity].
    apply existsb_exists in X. destruct X as (x & Hx & Hgt).
    assert (Y : existsb EmailSender.is_gt s = true).
    { apply existsb_exists. exists x. split; [|exact Hgt].
      eapply strip_subset; eauto. }
    congruence.
Qed.

Lemma strip_fixed (s : JsString) :
  no_tag s = true -> EmailSender.strip false s = s.
Proof.
  induction s as [|c s IH]; simpl; [reflexivity|]. intros H.
  apply andb_true_iff in H. destruct H as [Hc Hs].
  destruct (EmailSender.is_lt c && existsb EmailSender.is_gt s) eqn:E.
  - apply andb_true_iff in E. destruct E as [E1 E2].
    rewrite E1, E2 in Hc. discriminate.
  - f_equal. now apply IH.
Qed.

Lemma strip_text (t rest : JsString) :
  forallb (fun c => negb (EmailSender.is_lt c)) t = true ->
  EmailSender.strip false (t ++ rest) = t ++ EmailSender.strip false rest.
Proof.
  induction t as [|c t IH]; simpl; [reflexivity|]. intros H.
  apply andb_true_iff in H. destruct H as [Hc Ht].
  apply negb_true_iff in Hc. rewrite Hc. simpl. f_equal. now apply IH.
Qed.

Lemma strip_inside (inner rest : JsString) :
  forallb (fun c => negb (EmailSender.is_gt c)) inner = true ->
  EmailSender.strip true (inner ++ 62%N :: rest) = EmailSender.strip false rest.
Proof.
  induction inner as [|c inner IH]; simpl; [reflexivity|]. intros H.
  apply andb_true_iff in H. destruct H as [Hc Ht].
  apply negb_true_iff in Hc. rewrite Hc. now apply IH.
Qed.

Lemma strip_tag (inner rest : JsString) :
  forallb (fun c => negb (EmailSender.is_gt c)) inner = true ->
  EmailSender.strip false (60%N :: inner ++ 62%N :: rest)
  = EmailSender.strip false rest.
Proof.
  intros H. cbn [EmailSender.strip].
  assert (Hgt : existsb EmailSender.is_gt (inner ++ 62%N :: rest) = true).
  { rewrite existsb_app. simpl. apply orb_true_r. }
  rewrite Hgt. change (EmailSender.is_lt 60) with true. simpl.
  now apply strip_inside.
Qed.

Lemma strip_pieces (pieces : list Piece) (tail : JsString) :
  forallb piece_ok pieces = true -> no_tag tail = true ->
  EmailSender.strip false (List.concat (map written pieces) ++ tail)
  = List.concat (map shown pieces) ++ tail.
Proof.
  intros Hp Ht. induction pieces as [|p pieces IH]; simpl.
  - now apply strip_fixed.
  - simpl in Hp. apply andb_true_iff in Hp. destruct Hp as [Hok Hp].
    destruct p as [t|inner]; cbn [written shown piece_ok] in *.
    + rewrite <- !app_assoc, strip_text by exact Hok. f_equal. now apply IH.
    + replace (([60%N] ++ inner ++ [62%N])
               ++ List.concat (map written pieces))
        with (60%N :: inner
              ++ 62%N :: List.concat (map written pieces))
        by (simpl; now rewrite <- app_assoc).
      rewrite <- app_comm_cons, <- app_assoc, <- app_comm_cons.
      rewrite strip_tag by exact Hok. now apply IH.
Qed.

Lemma no_gt_no_tag (s : JsString) :
  existsb EmailSender.is_gt s = false -> no_tag s = true.
Proof.
  induction s as [|c s IH]; simpl; [reflexivity|]. intros H.
  apply orb_false_iff in H. destruct H as [_ H].
  rewrite H, (IH H). simpl. now rewrite orb_true_r.
Qed.

Lemma split_at_gt (s : JsString) :
  existsb EmailSender.is_gt s = true ->
  exists inner rest,
    s = inner ++ 62%N :: rest
    /\ forallb (fun c => negb (EmailSender.is_gt c)) inner = true.
Proof.
  induction s as [|c s IH]; simpl; [discriminate|]. intros H.
  destruct (EmailSender.is_gt c) eqn:E.
  - unfold EmailSender.is_gt in E. apply N.eqb_eq in E. subst c.
    exists [], s. split; reflexivity.
  - simpl in H. destruct (IH H) as (inner & rest & -> & Hi).
    exists (c :: inner), rest. split; [reflexivity|]. simpl.
    now rewrite E, Hi.
Qed.

(** Every body reads as pieces followed by a text with no tag. *)
Lemma body_in_pieces (n : nat) :
  forall s : JsString,
    (List.length s <= n)%nat ->
    exists pieces tail,
      s = List.concat (map written pieces) ++ tail
      /\ forallb piece_ok pieces = true
      /\ no_tag tail = true.
Proof.
  induction n as [|n IH]; intros s Hlen.
  - destruct s; [|simpl in Hlen; lia]. exists [], []. repeat split.
  - destruct s as [|c s]; [exists [], []; repeat split|].
    simpl in Hlen.
    destruct (EmailSender.is_lt c) eqn:Elt.
    + destruct (existsb EmailSender.is_gt s) eqn:Egt.
      * destruct (split_at_gt s Egt) as (inner & rest & -> & Hi).
        assert (Hr : (List.length rest <= n)%nat).
        { rewrite length_app in Hlen. simpl in Hlen. lia. }
        destruct (IH rest Hr) as (pieces & tail & -> & Hp & Ht).
        exists (TagPiece inner :: pieces), tail.
        unfold EmailSender.is_lt in Elt. apply N.eqb_eq in Elt. subst c.
        split; [simpl; now rewrite <- !app_assoc|].
        split; [simpl; now rewrite Hi, Hp|exact Ht].
      * exists [], (c :: s). split; [reflexivity|]. split; [reflexivity|].
        simpl. rewrite Egt, (no_gt_no_tag s Egt). simpl.
        now rewrite orb_true_r.
    + destruct (IH s ltac:(lia)) as (pieces & tail & -> & Hp & Ht).
      exists (TextPiece [c] :: pieces), tail.
      split; [reflexivity|].
      split; [simpl; now rewrite Elt, Hp|exact Ht].
Qed.

(** The plain-text part of a message.  It is the plain text handed to
    [sendEmail] when that is not empty; otherwise it is the HTML body
    without its tags: the body reads, from the left, as stretches of text
    without [<] and tags ([<], characters other than [>], [>]), followed
    by a text in which no [<] has a [>] after it, and the plain text is
    those stretches and that last text, in order, with nothing in place
    of the tags.  The HTML part is the body as given. *)
Theorem plain_part_of_a_message :
  forall (from : string) (to : option string) (subject body : JsString)
         (plainText : option JsString) (options : EmailSender.Options),
    let p := EmailSender.payload from to subject body plainText options in
    EmailSender.p_html p = body
    /\ (EmailSender.truthy_text plainText = true ->
        plainText = Some (EmailSender.p_plain p))
    /\ (EmailSender.truthy_text plainText = false ->
        (exists pieces tail,
            body = List.concat (map written pieces) ++ tail
            /\ forallb piece_ok pieces = true
            /\ no_tag tail = true)
        /\ (forall pieces tail,
              body = List.concat (map written pieces) ++ tail ->
              forallb piece_ok pieces = true ->
              no_tag tail = true ->
              EmailSender.p_plain p = List.concat (map shown pieces) ++ tail)).
Proof.
  intros from to subject body plainText options p. subst p.
  unfold EmailSender.payload. simpl.
  split; [reflexivity|]. split.
  - destruct plainText as [[|c t]|]; simpl; try discriminate. reflexivity.
  - intros Hf.
    assert (Hp : match plainText with
                 | Some (c :: t) => c :: t
                 | _ => EmailSender.strip_tags body
                 end = EmailSender.strip_tags body).
    { destruct plainText as [[|c t]|]; simpl in *; try discriminate;
        reflexivity. }
    rewrite Hp. split; [exact (body_in_pieces _ body (le_n _))|].
    intros pieces tail -> Hok Ht. now apply strip_pieces.
Qed.

Lemma plain_part_of_a_message_witness :
  EmailSender.p_plain
    (EmailSender.payload "me@example.org" (Some "hr@acme.example")
       (js "Hello") (js "<p>Dear <b>team</b>,</p> 1 < 2 > 0") None
       EmailSender.no_options)
  = js "Dear team, 1  0".
Proof.
  destruct (plain_part_of_a_message "me@example.org" (Some "hr@acme.example")
              (js "Hello") (js "<p>Dear <b>team</b>,</p> 1 < 2 > 0") None
              EmailSender.no_options) as (_ & _ & H).
  destruct (H eq_refl) as [_ Hplain].
  exact (Hplain [TagPiece (js "p"); TextPiece (js "Dear ");
                 TagPiece (js "b"); TextPiece (js "team");
                 TagPiece (js "/b"); TextPiece (js ","); TagPiece (js "/p");
                 TextPiece (js " 1 "); TagPiece (js " 2 ")]
                (js " 0") eq_refl eq_refl eq_refl).
Defined.

Lemma email_for_appended_unnamed (m : string) (db : Db) (e : Email) :
  message_id e = None ->
  email_for m (with_emails (emails db ++ [e]) db) = email_for m db.
Proof.
  intros Hn. unfold email_for. simpl. rewrite filter_app. simpl.
  unfold Webhook.has_message_id at 2. rewrite Hn. now rewrite app_nil_r.
Qed.

(** A send the delivery service does not name cannot be tracked.  When
    the service accepts the request of [sendJobApplicationEmail] without
    an [x-message-id] header, or with an empty one, the message
    identifier is [null]; [main] stores the email record with that, and
    for every message identifier the webhook lookup finds what it found
    before: no event will ever update this record. *)
Theorem unnamed_send_cannot_be_tracked :
  forall (formatEmailBody : JsString -> JsString) (key from : option string)
         (fetch : EmailSender.Payload -> EmailSender.Response)
         (userEmail : option string) (cfg : Main.Config) (io : Main.CompanyIO)
         (now : Timestamp) (today : Date) (c : Company)
         (content : ContentParser.Content) (db db' : Db),
    (forall p x, fetch p = EmailSender.Accepted x -> truthy x = false) ->
    Main.io_send io
    = EmailSender.sendJobApplicationEmail formatEmailBody key from fetch c
        content userEmail ->
    Main.process_company cfg io now today c db = (db', Main.Processed) ->
    (forall m, email_for m db' = email_for m db)
    /\ exists e, In e (emails db') /\ company_id e = company_id_ c
                 /\ email_status e = "sent" /\ message_id e = None.
Proof.
  intros formatEmailBody key from fetch userEmail cfg io now today c content
         db db' Hfetch Hsend Hrun.
  destruct (processed_company_writes cfg io now today c db db' Hrun)
    as (content' & mid & row & _ & Hmid & _ & _ & _ & Hemails & _).
  assert (Hnone : mid = None).
  { rewrite Hsend in Hmid.
    unfold EmailSender.sendJobApplicationEmail, EmailSender.sendEmail in Hmid.
    destruct from as [f|]; [|discriminate].
    destruct (negb (truthy key) || negb (truthy (Some f))); [discriminate|].
    destruct (fetch _) as [msg|st txt|x] eqn:E; try discriminate.
    inversion Hmid as [Hx]. unfold EmailSender.when_truthy.
    now rewrite (Hfetch _ _ E). }
  subst mid. split.
  - intros m. unfold email_for. rewrite Hemails, filter_app. simpl.
    now rewrite app_nil_r.
  - eexists. split; [rewrite Hemails; apply in_or_app; right; now left|].
    repeat split.
Qed.

Lemma unnamed_send_cannot_be_tracked_witness :
  exists db',
    Main.process_company sample_config unnamed_send 30 sample_day
                         (company 2 "Beta" 1 20) five_db
    = (db', Main.Processed)
    /\ email_for "message-1" db' = None
    /\ map message_id (emails db') = [None].
Proof.
  eexists. split; [reflexivity|].
  destruct (unnamed_send_cannot_be_tracked bare_template (Some "key")
              (Some "me@example.org") accepts_unnamed (Some "me@example.org")
              sample_config unnamed_send 30 sample_day (company 2 "Beta" 1 20)
              (parsed sample_text) five_db _
              (fun p x H => f_equal (fun r => match r with
                                              | EmailSender.Accepted y => truthy y
                                              | _ => false
                                              end) (eq_sym H))
              eq_refl eq_refl) as [Hm _].
  split; [rewrite Hm; reflexivity|reflexivity].
Defined.

(** ** Discovery *)

Lemma top_confidence (emails : list Discovery.Found) (e : Discovery.Found) :
  hd_error (sort_by Discovery.by_confidence emails) = Some e ->
  In e emails
  /\ forall x, In x emails ->
               Discovery.found_confidence x <= Discovery.found_confidence e.
Proof.
  intros H.
  pose proof (sort_any_perm Discovery.by_confidence emails) as Hp.
  assert (Hs : StronglySorted
                 (fun a b => Discovery.found_confidence b
                             <= Discovery.found_confidence a)
                 (sort_by Discovery.by_confidence emails)).
  { apply (sort_any_sorted Discovery.by_confidence).
    - intros a b Hab. unfold Discovery.by_confidence in Hab.
      now apply Z.leb_le in Hab.
    - intros a b Hab. unfold Discovery.by_confidence in Hab.
      apply Z.leb_gt in Hab. lia.
    - intros a b c Hab Hbc. lia. }
  destruct (sort_by Discovery.by_confidence emails) as [|t rest];
    [discriminate|].
  inversion H; subst. inversion Hs as [|a b Hs' Hall]; subst.
  split.
  - apply (Permutation_in _ Hp). now left.
  - intros x Hx. apply (Permutation_in _ (Permutation_sym Hp)) in Hx.
    destruct Hx as [->|Hx]; [lia|].
    rewrite Forall_forall in Hall. now apply Hall.
Qed.

(** Which address discovery prefers.  With the API key set and the domain
    search answered: an entry whose names match the person, letter case
    apart, is returned without another request; with no entry at all the
    result is [null], again without another request; when entries exist
    and none matches, a failure of the pattern request is thrown although
    a listed address was at hand; and otherwise the result is a generated
    address the provider classifies as valid, or the first listed entry
    of highest confidence. *)
Theorem discovery_prefers_the_person :
  forall (toLowerCase charAt0 : string -> string) (key : option string)
         (emails : list Discovery.Found)
         (pattern_response : Discovery.PatternResponse)
         (verify : string -> EmailVerification.Response)
         (domain firstName lastName : string),
    truthy key = true ->
    let r := Discovery.findBestEmailForPerson toLowerCase charAt0 key
               (Discovery.DomainAnswer emails) pattern_response verify
               domain firstName lastName in
    (forall e, find (Discovery.is_exact toLowerCase firstName lastName) emails
               = Some e ->
               r = Ok (Some (Discovery.Listed e)))
    /\ (emails = [] <-> r = Ok None)
    /\ (forall msg,
          emails <> [] ->
          find (Discovery.is_exact toLowerCase firstName lastName) emails = None ->
          pattern_response = Discovery.PatternFailed msg ->
          r = Err (ServiceError msg))
    /\ (forall e, r = Ok (Some (Discovery.Listed e)) ->
          In e emails
          /\ (Discovery.is_exact toLowerCase firstName lastName e = true
              \/ forall x, In x emails ->
                   Discovery.found_confidence x <= Discovery.found_confidence e))
    /\ (forall value f l, r = Ok (Some (Discovery.Generated value f l)) ->
          emails <> []
          /\ find (Discovery.is_exact toLowerCase firstName lastName) emails = None
          /\ f = firstName /\ l = lastName
          /\ exists data,
               verify value = EmailVerification.Answer data
               /\ EmailVerification.v_status data
                  = EmailVerification.JString "valid").
Proof.
  intros toLowerCase charAt0 key emails pattern_response verify domain
         firstName lastName Hk r.
  subst r. unfold Discovery.findBestEmailForPerson, Discovery.findEmailsByDomain.
  rewrite Hk. cbn [negb].
  destruct (find (Discovery.is_exact toLowerCase firstName lastName) emails)
    as [exact|] eqn:Hfind.
  { split; [intros e H; now inversion H|].
    split.
    { split; [|discriminate]. intros ->. discriminate. }
    split; [discriminate|].
    split; [|discriminate].
    intros e H. inversion H; subst.
    apply find_some in Hfind. destruct Hfind as [Hin Hex].
    split; [exact Hin|now left]. }
  split; [discriminate|].
  destruct emails as [|e0 rest].
  { simpl. split; [split; reflexivity|].
    split; [congruence|]. split; discriminate. }
  assert (Hpos : (0 <? List.length (e0 :: rest))%nat = true) by reflexivity.
  rewrite Hpos.
  assert (Htop : exists t,
             hd_error (sort_by Discovery.by_confidence (e0 :: rest)) = Some t).
  { pose proof (sort_any_perm Discovery.by_confidence (e0 :: rest)) as Hp.
    destruct (sort_by Discovery.by_confidence (e0 :: rest)) as [|t ts] eqn:E.
    - apply Permutation_nil in Hp. discriminate.
    - now exists t. }
  destruct Htop as [t Ht].
  destruct (top_confidence _ _ Ht) as [Hin Hmax].
  unfold Discovery.try_pattern, Discovery.getEmailPattern.
  rewrite Hk. cbn [negb].
  destruct pattern_response as [msg|st txt|pattern].
  - split; [split; [discriminate|discriminate]|].
    split; [intros m _ _ H; now inversion H|].
    split; discriminate.
  - unfold Discovery.not_ok.
    split; [split; [discriminate|discriminate]|].
    split; [intros m _ _ H; discriminate|].
    split; discriminate.
  - rewrite Ht. cbn [option_map].
    destruct (truthy pattern) eqn:Hp.
    + destruct pattern as [p|]; [|discriminate].
      set (email := Discovery.address toLowerCase charAt0 p domain
                                      firstName lastName).
      unfold EmailVerification.verifyEmail. rewrite Hk. cbn [negb].
      destruct (verify email) as [m|st txt|data] eqn:Hv.
      * split; [split; discriminate|].
        split; [intros m0 _ _ H; discriminate|].
        split; [|discriminate].
        intros e H. inversion H; subst. split; [exact Hin|now right].
      * split; [split; discriminate|].
        split; [intros m0 _ _ H; discriminate|].
        split; [|discriminate].
        intros e H. inversion H; subst. split; [exact Hin|now right].
      * cbn [EmailVerification.isValid].
        destruct (EmailVerification.strict_eq_string
                    (EmailVerification.v_status data) "valid") eqn:Hvalid.
        -- split; [split; discriminate|].
           split; [intros m0 _ _ H; discriminate|].
           split; [discriminate|].
           intros value f l H. inversion H; subst.
           split; [discriminate|]. split; [reflexivity|].
           split; [reflexivity|]. split; [reflexivity|].
           exists data. split; [exact Hv|].
           destruct (EmailVerification.v_status data) as [| |b|z|s];
             try discriminate.
           simpl in Hvalid. apply String.eqb_eq in Hvalid. now subst.
        -- split; [split; discriminate|].
           split; [intros m0 _ _ H; discriminate|].
           split; [|discriminate].
           intros e H. inversion H; subst. split; [exact Hin|now right].
    + split; [split; discriminate|].
      split; [intros m0 _ _ H; discriminate|].
      split; [|discriminate].
      intros e H. inversion H; subst. split; [exact Hin|now right].
Qed.

Lemma discovery_prefers_the_person_witness :
  Discovery.findBestEmailForPerson identity_case first_letter (Some "key")
    (Discovery.DomainAnswer [found_info; found_jobs])
    (Discovery.PatternAnswer (Some "first")) rejects_all
    "acme.example" "hr" "Acme"
  = Ok (Some (Discovery.Listed found_jobs))
  /\ Discovery.findBestEmailForPerson identity_case first_letter (Some "key")
       (Discovery.DomainAnswer [found_info; found_jobs])
       (Discovery.PatternFailed "socket hang up") rejects_all
       "acme.example" "hr" "Acme"
     = Err (ServiceError "socket hang up").
Proof.
  destruct (discovery_prefers_the_person identity_case first_letter
              (Some "key") [found_info; found_jobs]
              (Discovery.PatternFailed "socket hang up") rejects_all
              "acme.example" "hr" "Acme" eq_refl) as (_ & _ & H & _).
  split; [reflexivity|].
  apply (H "socket hang up"); [discriminate|reflexivity|reflexivity].
Defined.

(** ** The command-line run and its counter *)

Section MainCounter.
Import EmailSchedule.

(** What the tables of a run have to do with the counter of [today]. *)
Let steady (today : Date) (n : Z) (db db' : Db) : Prop :=
  schedule_constraints (email_schedule db) ->
  schedule_constraints (email_schedule db')
  /\ sent_before today db' = sent_before today db + n
  /\ (List.length (emails db) + Z.to_nat n <= List.length (emails db'))%nat
  /\ (0 < n -> exists stored,
        find_schedule today (email_schedule db') = Some stored
        /\ emails_sent stored <= emails_limit stored)
  /\ (forall s, find_schedule today (email_schedule db) = Some s ->
        exists s', find_schedule today (email_schedule db') = Some s'
                   /\ emails_limit s' = emails_limit s
                   /\ emails_sent s' = emails_sent s + n).

Lemma steady_same (today : Date) (db db' : Db) :
  email_schedule db' = email_schedule db ->
  (List.length (emails db) <= List.length (emails db'))%nat ->
  steady today 0 db db'.
Proof.
  intros Hs Hl Hc. unfold sent_before. rewrite Hs.
  split; [exact Hc|]. split; [lia|]. split; [simpl; lia|].
  split; [lia|]. intros s H. exists s. split; [exact H|]. split; lia.
Qed.

Lemma steady_then (today : Date) (n m : Z) (a b c : Db) :
  0 <= n -> 0 <= m ->
  steady today n a b -> steady today m b c -> steady today (n + m) a c.
Proof.
  intros Hn Hm Hab Hbc Hc.
  destruct (Hab Hc) as (C1 & S1 & L1 & W1 & F1).
  destruct (Hbc C1) as (C2 & S2 & L2 & W2 & F2).
  split; [exact C2|]. split; [lia|]. split; [lia|].
  split.
  - intros Hpos.
    destruct (Z.eq_dec m 0) as [->|Hm0].
    + assert (Hn0 : 0 < n) by lia.
      destruct (W1 Hn0) as (s1 & Hf1 & Hle1).
      destruct (F2 s1 Hf1) as (s2 & Hf2 & Hl2 & Hs2).
      exists s2. split; [exact Hf2|]. lia.
    + apply W2. lia.
  - intros s Hs. destruct (F1 s Hs) as (s1 & Hf1 & Hl1 & Hs1).
    destruct (F2 s1 Hf1) as (s2 & Hf2 & Hl2 & Hs2).
    exists s2. split; [exact Hf2|]. split; lia.
Qed.

(** A company that is not reported as processed leaves the schedule as it
    was. *)
Lemma unprocessed_company_schedule (cfg : Main.Config) (io : Main.CompanyIO)
      (now : Timestamp) (today : Date) (c : Company) (db db' : Db)
      (o : Main.Outcome) :
  Main.process_company cfg io now today c db = (db', o) ->
  o <> Main.Processed ->
  email_schedule db' = email_schedule db
  /\ (List.length (emails db) <= List.length (emails db'))%nat.
Proof.
  unfold Main.process_company, Main.company_try. unfold bind at 1.
  destruct (gate_outcome cfg io c db) as [Hdb Hnot].
  assert (Hsame : forall (x : Db * Main.Outcome),
             x = (db', o) -> email_schedule (fst x) = email_schedule db ->
             (List.length (emails db) <= List.length (emails (fst x)))%nat ->
             email_schedule db' = email_schedule db
             /\ (List.length (emails db) <= List.length (emails db'))%nat).
  { intros x -> H1 H2. now split. }
  destruct (Main.verification_gate cfg io c db) as [db0 [[skipped|]|e]];
    simpl in Hdb, Hnot; subst db0.
  - unfold ret. intros H _. apply (Hsame _ H); simpl; [reflexivity|lia].
  - unfold bind, Main.lift, ret.
    destruct (ContentParser.generateEmailContent _ _) as [content|e];
      [|intros H _; apply (Hsame _ H); simpl; [reflexivity|lia]].
    destruct (Main.io_send io) as [mid|e];
      [|intros H _; apply (Hsame _ H); simpl; [reflexivity|lia]].
    unfold Emails.createEmail.
    destruct (Main.io_store io 0%nat);
      [intros H _; apply (Hsame _ H); simpl; [reflexivity|lia]|].
    unfold Companies.markCompanyAsContacted, Companies.updateCompany.
    destruct (Main.io_store io 1%nat);
      [intros H _; apply (Hsame _ H); simpl;
       [reflexivity|rewrite length_app; lia]|].
    unfold incrementEmailsSent, bind, getEmailSchedule, shift, throw.
    destruct (Main.io_store io (2 + 0)%nat);
      [intros H _; apply (Hsame _ H); simpl;
       [reflexivity|rewrite length_app; lia]|].
    cbn [email_schedule with_companies with_emails].
    destruct (find_schedule today (email_schedule db)) as [row|];
      [|intros H _; apply (Hsame _ H); simpl;
        [reflexivity|rewrite length_app; lia]].
    destruct (emails_limit row <=? emails_sent row);
      [intros H _; apply (Hsame _ H); simpl;
       [reflexivity|rewrite length_app; lia]|].
    unfold update_schedule, ret.
    destruct (Main.io_store io (2 + 1)%nat);
      [intros H _; apply (Hsame _ H); simpl;
       [reflexivity|rewrite length_app; lia]|].
    intros H Hne. inversion H; subst. now elim Hne.
  - intros H _. apply (Hsame _ H); simpl; [reflexivity|lia].
Qed.

Lemma process_company_steady (cfg : Main.Config) (io : Main.CompanyIO)
      (now : Timestamp) (today : Date) (c : Company) (db : Db) :
  steady today
    (processed_count
       [Main.LogCompany (company_name c)
          (snd (Main.process_company cfg io now today c db))])
    db (fst (Main.process_company cfg io now today c db)).
Proof.
  destruct (Main.process_company cfg io now today c db) as [db' o] eqn:Hrun.
  assert (Hcases : o = Main.Processed \/ o <> Main.Processed).
  { destruct o; [now left|right; discriminate..]. }
  destruct Hcases as [->|Hne].
  - destruct (processed_company_writes cfg io now today c db db' Hrun)
      as (content & mid & row & _ & _ & Hf & Hlt & _ & He & Hs).
    simpl. intros Hc.
    assert (Hf' : find_schedule today (email_schedule db')
                  = Some (set_sent row now row)).
    { rewrite Hs. apply find_schedule_updated; [reflexivity|exact Hf]. }
    split.
    { rewrite Hs. destruct Hc as [C1 C2].
      split; rewrite map_update_rows_key; auto. }
    unfold sent_before. rewrite Hf, Hf'. cbn [set_sent emails_sent].
    change (processed_count
              [Main.LogCompany (company_name c) Main.Processed]) with 1.
    split; [reflexivity|].
    split; [rewrite He, length_app; simpl; lia|].
    split.
    + intros _. eexists. split; [reflexivity|]. simpl. lia.
    + intros s H. inversion H; subst. eexists. split; [reflexivity|].
      split; reflexivity.
  - destruct (unprocessed_company_schedule cfg io now today c db db' o
                Hrun Hne) as [Hs Hl].
    assert (Hz : processed_count [Main.LogCompany (company_name c) o] = 0).
    { destruct o; [now elim Hne|reflexivity..]. }
    simpl. rewrite Hz. now apply steady_same.
Qed.

Lemma processed_count_cons (line : Main.LogLine) (lines : list Main.LogLine) :
  processed_count (line :: lines)
  = processed_count [line] + processed_count lines.
Proof.
  unfold processed_count. cbn [filter].
  destruct (is_processed line); cbn [List.length]; lia.
Qed.

Lemma processed_count_bounds (lines : list Main.LogLine) :
  0 <= processed_count lines.
Proof. unfold processed_count. lia. Qed.

Lemma main_loop_steady (cfg : Main.Config) (ios : nat -> Main.CompanyIO)
      (now : Timestamp) (today : Date) (cs : list Company) :
  forall (i : nat) (db : Db),
    steady today
      (processed_count (snd (Main.company_loop cfg ios now today i cs db)))
      db (fst (Main.company_loop cfg ios now today i cs db)).
Proof.
  induction cs as [|c cs IH]; intros i db.
  - simpl. apply steady_same; [reflexivity|lia].
  - cbn [Main.company_loop].
    pose proof (process_company_steady cfg (ios i) now today c db) as H1.
    destruct (Main.process_company cfg (ios i) now today c db) as [db1 o].
    specialize (IH (S i) db1).
    destruct (Main.company_loop cfg ios now today (S i) cs db1) as [db2 lines].
    cbn [fst snd] in *. rewrite processed_count_cons.
    apply (steady_then today _ _ db db1 db2);
      [apply processed_count_bounds|apply processed_count_bounds| |];
      assumption.
Qed.

Lemma quota_steady (D : Z) (f : Faults) (now : Timestamp) (today : Date)
      (db : Db) :
  steady today 0 db (fst (getRemainingEmailQuota D f now today db)).
Proof.
  unfold getRemainingEmailQuota, bind, getEmailSchedule.
  destruct (f 0%nat); [apply steady_same; [reflexivity|simpl; lia]|].
  destruct (find_schedule today (email_schedule db)) as [s|] eqn:Hf;
    [apply steady_same; [reflexivity|simpl; lia]|].
  unfold createOrUpdateEmailSchedule, bind, getEmailSchedule, shift.
  destruct (f (1 + 0)%nat); [apply steady_same; [reflexivity|simpl; lia]|].
  rewrite Hf. unfold insert_schedule.
  destruct (f (1 + 1)%nat); [apply steady_same; [reflexivity|simpl; lia]|].
  destruct (existsb (on_date today) (email_schedule db)) eqn:Hex;
    [apply steady_same; [reflexivity|simpl; lia]|].
  simpl. intros Hc.
  pose proof (find_schedule_inserted
                (mkSchedule (fresh_id schedule_id (email_schedule db))
                            today D 0 false now)
                (email_schedule db) Hex) as Hnew.
  cbn [scheduled_date] in Hnew.
  split.
  { destruct (create_or_update_keeps_constraints D now today
                (email_schedule db) Hc) as [_ K]. exact (K Hex). }
  unfold sent_before. cbn [email_schedule with_schedule].
  rewrite Hf, Hnew. cbn [emails_sent].
  split; [reflexivity|]. split; [simpl; lia|].
  split; [lia|]. intros s H. discriminate.
Qed.

Lemma select_steady (fault : Select Company) (limit : Z) (today : Date)
      (db : Db) :
  steady today 0 db (fst (Companies.getCompaniesForDailyEmails fault limit db)).
Proof.
  unfold Companies.getCompaniesForDailyEmails.
  destruct fault; apply steady_same; simpl; reflexivity || lia.
Qed.

Lemma main_steady (cfg : Main.Config) (f_quota : Faults)
      (f_select : Select Company) (ios : nat -> Main.CompanyIO)
      (now : Timestamp) (today : Date) (db : Db) :
  steady today
    (processed_count (fst (snd (Main.main cfg f_quota f_select ios now today db))))
    db (fst (Main.main cfg f_quota f_select ios now today db)).
Proof.
  unfold Main.main.
  pose proof (quota_steady (Main.DAILY_EMAIL_LIMIT cfg) f_quota now today db)
    as Hq.
  destruct (getRemainingEmailQuota (Main.DAILY_EMAIL_LIMIT cfg) f_quota now
              today db) as [db1 [quota|e]]; cbn [fst snd] in *; [|exact Hq].
  destruct (quota <=? 0); [exact Hq|].
  pose proof (select_steady f_select quota today db1) as Hsel.
  destruct (Companies.getCompaniesForDailyEmails f_select quota db1)
    as [db2 [cs|e]]; cbn [fst snd] in *.
  - assert (H02 : steady today 0 db db2).
    { change 0 with (0 + 0). apply (steady_then today 0 0 db db1 db2);
        [lia|lia|exact Hq|exact Hsel]. }
    destruct cs as [|c cs]; [exact H02|].
    pose proof (main_loop_steady cfg ios now today (c :: cs) 0%nat db2) as Hl.
    destruct (Main.company_loop cfg ios now today 0 (c :: cs) db2)
      as [db3 lines].
    cbn [fst snd] in *.
    assert (Hcount : processed_count (lines ++ [Main.LogCompleted])
                     = 0 + processed_count lines).
    { unfold processed_count. rewrite filter_app, length_app. simpl. lia. }
    rewrite Hcount.
    apply (steady_then today _ _ db db2 db3);
      [lia|apply processed_count_bounds|exact H02|exact Hl].
  - change 0 with (0 + 0). apply (steady_then today 0 0 db db1 db2);
      [lia|lia|exact Hq|exact Hsel].
Qed.

End MainCounter.

(** The counter of [main] counts the companies reported as processed.
    With the constraints of the schedule table holding before the run,
    whatever the collaborators and the store answer: after the run the
    counter of today has advanced by exactly the number of companies the
    console reports as successfully processed (a day without a row
    counting 0); at least that many email records were added; when a
    company was processed, today's row is within its limit; and the
    constraints still hold. *)
Theorem main_counter_matches_the_log :
  forall (cfg : Main.Config) (f_quota : Faults) (f_select : Select Company)
         (ios : nat -> Main.CompanyIO) (now : Timestamp) (today : Date)
         (db : Db),
    schedule_constraints (email_schedule db) ->
    let out := Main.main cfg f_quota f_select ios now today db in
    let n := processed_count (fst (snd out)) in
    sent_before today (fst out) = sent_before today db + n
    /\ (List.length (emails db) + Z.to_nat n
        <= List.length (emails (fst out)))%nat
    /\ (0 < n -> exists stored,
          EmailSchedule.find_schedule today (email_schedule (fst out))
          = Some stored
          /\ emails_sent stored <= emails_limit stored)
    /\ schedule_constraints (email_schedule (fst out)).
Proof.
  intros cfg f_quota f_select ios now today db Hc out n.
  destruct (main_steady cfg f_quota f_select ios now today db Hc)
    as (C & S & L & W & _).
  subst out n. split; [exact S|]. split; [exact L|]. split; [exact W|exact C].
Qed.

Lemma main_counter_matches_the_log_witness :
  sent_before sample_day
    (fst (Main.main sample_config no_faults in_stored_order main_ios 30 sample_day five_db))
  = 1
  /\ processed_count
       (fst (snd (Main.main sample_config no_faults in_stored_order main_ios 30 sample_day
                    five_db))) = 1.
Proof.
  assert (Hc : schedule_constraints (email_schedule five_db)).
  { split; simpl; repeat constructor; intros []. }
  destruct (main_counter_matches_the_log sample_config no_faults in_stored_order main_ios
              30 sample_day five_db Hc) as (H & _).
  assert (Hn : processed_count
                 (fst (snd (Main.main sample_config no_faults in_stored_order main_ios 30
                              sample_day five_db))) = 1) by reflexivity.
  split; [|exact Hn].
  rewrite H, Hn. reflexivity.
Defined.

(** ** Statistics *)

Lemma count_after_update (p : Email -> bool) (u : Email -> Email)
      (e : Email) (l : list Email) :
  NoDup (map email_id l) -> In e l ->
  (List.length (filter p (update_rows (Webhook.has_id (email_id e)) u l))
   + (if p e then 1 else 0)
   = List.length (filter p l) + (if p (u e) then 1 else 0))%nat.
Proof.
  induction l as [|x l IH]; intros Hnd Hin; [contradiction|].
  inversion Hnd as [|a b Hnotin Hnd']; subst.
  unfold update_rows in *. cbn [map filter].
  destruct (Webhook.has_id (email_id e) x) eqn:Hx.
  - unfold Webhook.has_id in Hx. apply Z.eqb_eq in Hx.
    assert (Hxe : x = e).
    { apply (key_determines_row email_id (x :: l) x e Hnd);
        [now left|exact Hin|exact Hx]. }
    subst x.
    assert (Hrest : map (fun r => if Webhook.has_id (email_id e) r
                                  then u r else r) l = l).
    { apply (update_rows_no_match (Webhook.has_id (email_id e)) u l).
      intros r Hr. unfold Webhook.has_id. apply Z.eqb_neq. intros Heq.
      apply Hnotin. rewrite <- Heq. now apply in_map. }
    rewrite Hrest.
    destruct (p e), (p (u e)); cbn [List.length]; lia.
  - assert (Hin' : In e l).
    { destruct Hin as [->|Hin]; [|exact Hin].
      unfold Webhook.has_id in Hx. now rewrite Z.eqb_refl in Hx. }
    specialize (IH Hnd' Hin').
    destruct (p x); cbn [List.length]; lia.
Qed.

Lemma sendgrid_open_writes (now : Timestamp) (m : string) (t : Z)
      (url reason : option string) (e : Email) (db : Db) :
  Webhook.valid_time (t * 1000) = true ->
  email_for m db = Some e ->
  fst (Webhook.sendgrid_event no_faults now
         (Webhook.mkSgEvent "open" m (Some t) url reason) db)
  = with_emails (update_rows (Webhook.has_id (email_id e))
                             (Webhook.set_opened (t * 1000) now) (emails db))
                db.
Proof.
  intros Hv Hf. destruct (email_for_found m db e Hf) as [Hsel _].
  unfold Webhook.sendgrid_event, Webhook.sendgrid_try, bind,
    Webhook.select_by_message_id, Webhook.update_email, ret, no_faults,
    Webhook.lift, Webhook.event_time.
  cbn [Webhook.sg_event Webhook.sg_message_id Webhook.sg_timestamp
       Webhook.sg_url Webhook.sg_reason].
  rewrite Hsel, Hv. reflexivity.
Qed.

Lemma count_status_cons (status : string) (e : Email) (t : list Email) :
  Statistics.count_status status (e :: t)
  = (if Statistics.has_status status e then 1 else 0)
    + Statistics.count_status status t.
Proof.
  unfold Statistics.count_status. cbn [filter].
  destruct (Statistics.has_status status e); cbn [List.length]; lia.
Qed.

Lemma one_status (e : Email) :
  (if Statistics.has_status "sent" e then 1 else 0)
  + (if Statistics.has_status "opened" e then 1 else 0)
  + (if Statistics.has_status "clicked" e then 1 else 0)
  + (if Statistics.has_status "replied" e then 1 else 0)
  + (if Statistics.has_status "bounced" e then 1 else 0) <= 1.
Proof.
  unfold Statistics.has_status.
  destruct (String.eqb_spec (email_status e) "sent") as [->|_];
    [simpl; lia|].
  destruct (String.eqb_spec (email_status e) "opened") as [->|_];
    [simpl; lia|].
  destruct (String.eqb_spec (email_status e) "clicked") as [->|_];
    [simpl; lia|].
  destruct (String.eqb_spec (email_status e) "replied") as [->|_];
    [simpl; lia|].
  destruct (String.eqb_spec (email_status e) "bounced") as [E|_]; lia.
Qed.

Lemma statuses_are_disjoint (t : list Email) :
  Statistics.count_status "sent" t + Statistics.count_status "opened" t
  + Statistics.count_status "clicked" t + Statistics.count_status "replied" t
  + Statistics.count_status "bounced" t
  <= Z.of_nat (List.length t).
Proof.
  induction t as [|e t IH]; [unfold Statistics.count_status; simpl; lia|].
  rewrite !count_status_cons. pose proof (one_status e).
  cbn [List.length]. lia.
Qed.

(** The statistics count emails by their current status.  With the store
    answering, the five status counts are counts of disjoint sets of
    records, so their sum is at most the total.  When an open event with
    a timestamp, in seconds, that [Date] can represent arrives for a
    stored record with status [sent] (identifiers unique),
    the total stays, [sent] goes down by one and [opened] up by one: the
    open rate divides the opened emails by those that are still unopened,
    and it is reported as 0 once the last of them is opened. *)
Theorem statistics_count_the_current_status :
  forall (now : Timestamp) (m : string) (t : Z) (url reason : option string)
         (e : Email) (db : Db),
    email_keys db ->
    email_for m db = Some e ->
    email_status e = "sent" ->
    Webhook.valid_time (t * 1000) = true ->
    let db' := fst (Webhook.sendgrid_event no_faults now
                      (Webhook.mkSgEvent "open" m (Some t) url reason) db) in
    exists s s',
      Statistics.getEmailStatistics no_faults db = (db, Ok s)
      /\ Statistics.getEmailStatistics no_faults db' = (db', Ok s')
      /\ Statistics.sent s + Statistics.opened s + Statistics.clicked s
         + Statistics.replied s + Statistics.bounced s <= Statistics.total s
      /\ Statistics.total s' = Statistics.total s
      /\ Statistics.sent s' = Statistics.sent s - 1
      /\ Statistics.opened s' = Statistics.opened s + 1
      /\ Statistics.clicked s' = Statistics.clicked s
      /\ Statistics.replied s' = Statistics.replied s
      /\ Statistics.bounced s' = Statistics.bounced s
      /\ Statistics.openRate s
         = Statistics.Percent (Statistics.opened s) (Statistics.sent s)
      /\ (Statistics.sent s = 1 -> Statistics.openRate s' = Statistics.Zero).
Proof.
  intros now m t url reason e db Hk Hf Hst Hv db'.
  subst db'. rewrite (sendgrid_open_writes now m t url reason e db Hv Hf).
  destruct (email_for_found m db e Hf) as [_ Hin].
  set (u := Webhook.set_opened (t * 1000) now).
  assert (Hcount : forall status,
             (Statistics.count_status status
                (update_rows (Webhook.has_id (email_id e)) u (emails db))
              + (if Statistics.has_status status e then 1 else 0)
              = Statistics.count_status status (emails db)
                + (if Statistics.has_status status (u e) then 1 else 0))).
  { intros status. unfold Statistics.count_status.
    pose proof (count_after_update (Statistics.has_status status) u e
                  (emails db) Hk Hin) as H.
    destruct (Statistics.has_status status e),
             (Statistics.has_status status (u e)); lia. }
  assert (He : forall status,
             Statistics.has_status status e = ("sent" =? status)%string).
  { intros status. unfold Statistics.has_status. now rewrite Hst. }
  assert (Hu : forall status,
             Statistics.has_status status (u e) = ("opened" =? status)%string).
  { intros status. reflexivity. }
  pose proof (Hcount "sent") as Csent.
  pose proof (Hcount "opened") as Copened.
  pose proof (Hcount "clicked") as Cclicked.
  pose proof (Hcount "replied") as Creplied.
  pose proof (Hcount "bounced") as Cbounced.
  rewrite He, Hu in Csent, Copened, Cclicked, Creplied, Cbounced.
  cbn [String.eqb Ascii.eqb Bool.eqb] in Csent, Copened, Cclicked, Creplied,
    Cbounced.
  assert (Hpos : 0 < Statistics.count_status "sent" (emails db)).
  { unfold Statistics.count_status.
    assert (Hine : In e (filter (Statistics.has_status "sent") (emails db))).
    { apply filter_In. split; [exact Hin|]. now rewrite He. }
    destruct (filter (Statistics.has_status "sent") (emails db));
      [contradiction|]. cbn [List.length]. lia. }
  eexists. eexists.
  split; [reflexivity|]. split; [reflexivity|].
  cbn [Statistics.total Statistics.sent Statistics.opened Statistics.clicked
       Statistics.replied Statistics.bounced Statistics.openRate
       emails with_emails].
  split; [apply statuses_are_disjoint|].
  split; [unfold update_rows; now rewrite length_map|].
  split; [lia|]. split; [lia|]. split; [lia|]. split; [lia|]. split; [lia|].
  split.
  - unfold Statistics.rate.
    destruct (0 <? Statistics.count_status "sent" (emails db)) eqn:E;
      [reflexivity|]. apply Z.ltb_ge in E. lia.
  - intros H1. unfold Statistics.rate.
    destruct (0 <? Statistics.count_status "sent"
                     (update_rows (Webhook.has_id (email_id e)) u (emails db)))
      eqn:E; [|reflexivity].
    apply Z.ltb_lt in E. lia.
Qed.

Lemma statistics_count_the_current_status_witness :
  exists s',
    Statistics.getEmailStatistics no_faults
      (fst (Webhook.sendgrid_event no_faults 30
              (Webhook.mkSgEvent "open" "A" (Some 5) None None) bounce_db))
    = (fst (Webhook.sendgrid_event no_faults 30
              (Webhook.mkSgEvent "open" "A" (Some 5) None None) bounce_db), Ok s')
    /\ Statistics.opened s' = 1
    /\ Statistics.sent s' = 0
    /\ Statistics.openRate s' = Statistics.Zero.
Proof.
  assert (Hk : email_keys bounce_db).
  { unfold email_keys. simpl. repeat constructor. intros []. }
  destruct (statistics_count_the_current_status 30 "A" 5 None None
              (sent_record 1 "A") bounce_db Hk eq_refl eq_refl eq_refl)
    as (s & s' & Hs & Hs' & _ & _ & Hsent & Hopened & _ & _ & _ & _ & Hrate).
  exists s'. split; [exact Hs'|].
  inversion Hs as [Hval]. subst s.
  cbn in Hsent, Hopened, Hrate.
  split; [exact Hopened|]. split; [exact Hsent|]. now apply Hrate.
Defined.

(** ** Runs of one day *)

Section RunsOfADay.
Import EmailSchedule.

(** Today's row after a run, against the row [s] before it: same limit,
    the counter advanced by [n], and within the limit. *)
Let advanced (today : Date) (s : Schedule) (n : Z) (db' : Db) : Prop :=
  schedule_constraints (email_schedule db')
  /\ exists s', find_schedule today (email_schedule db') = Some s'
                /\ emails_limit s' = emails_limit s
                /\ emails_sent s' = emails_sent s + n
                /\ emails_sent s' <= emails_limit s'.

Lemma sent_count_bounds (rs : list CompanyResult) : 0 <= sent_count rs.
Proof. unfold sent_count. lia. Qed.

Lemma execute_advances (sf : DailyWorkflow.SetupFaults)
      (ios : nat -> DailyWorkflow.CompanyIO) (now : Timestamp) (today : Date)
      (db : Db) (s : Schedule) :
  schedule_constraints (email_schedule db) ->
  find_schedule today (email_schedule db) = Some s ->
  emails_sent s <= emails_limit s ->
  advanced today s
    (sent_count (results_of (snd (DailyWorkflow.execute sf ios now today db))))
    (fst (DailyWorkflow.execute sf ios now today db)).
Proof.
  intros Hc Hf Hle.
  assert (Hstay : advanced today s 0 db).
  { split; [exact Hc|]. exists s. split; [exact Hf|]. split; [reflexivity|].
    split; lia. }
  unfold DailyWorkflow.execute, DailyWorkflow.todays_schedule, bind,
    getEmailSchedule.
  destruct (DailyWorkflow.f_schedule_read sf); [exact Hstay|].
  rewrite Hf. unfold ret.
  destruct (is_completed s || (emails_limit s <=? emails_sent s)) eqn:Hg;
    [exact Hstay|].
  apply orb_false_iff in Hg. destruct Hg as [_ Hlt]. apply Z.leb_gt in Hlt.
  unfold Companies.getCompaniesForDailyEmails.
  destruct (DailyWorkflow.f_companies sf) as [m|rank]; [exact Hstay|].
  destruct (Companies.daily_query rank (emails_limit s - emails_sent s)
                                  (companies db)) as [|c cs]; [exact Hstay|].
  destruct (DailyWorkflow.f_templates sf) as [m'|rank']; [exact Hstay|].
  set (template := match DailyWorkflow.active_template rank'
                                      (email_templates db) with
                   | t :: _ => t
                   | [] => DailyWorkflow.default_template
                   end).
  assert (Hs : in_step s s) by (unfold in_step; auto).
  destruct (workflow_loop_in_step ios now template today (c :: cs) 0%nat s s
              db Hc Hf Hs) as (stored & K1 & K2 & K3 & K4).
  pose proof (workflow_counter_within_limit ios now template (c :: cs)
                0%nat s db Hlt) as [L1 L2].
  destruct (DailyWorkflow.company_loop ios now template 0 (c :: cs) s db)
    as [db3 [s3 rs]].
  cbn [fst snd results_of outcome_list] in *.
  destruct K2 as (_ & _ & Hl & Hn & _).
  split; [exact K3|]. exists stored. split; [exact K1|].
  split; [lia|]. split; lia.
Qed.

Lemma main_advances (cfg : Main.Config) (f_quota : Faults)
      (f_select : Select Company) (ios : nat -> Main.CompanyIO)
      (now : Timestamp) (today : Date) (db : Db) (s : Schedule) :
  schedule_constraints (email_schedule db) ->
  find_schedule today (email_schedule db) = Some s ->
  emails_sent s <= emails_limit s ->
  advanced today s
    (processed_count (fst (snd (Main.main cfg f_quota f_select ios now today db))))
    (fst (Main.main cfg f_quota f_select ios now today db)).
Proof.
  intros Hc Hf Hle.
  destruct (main_steady cfg f_quota f_select ios now today db Hc)
    as (C & _ & _ & W & F).
  destruct (F s Hf) as (s' & Hf' & Hl & Hn).
  pose proof (processed_count_bounds
                (fst (snd (Main.main cfg f_quota f_select ios now today db))))
    as Hpos.
  split; [exact C|]. exists s'. split; [exact Hf'|]. split; [exact Hl|].
  split; [exact Hn|].
  destruct (Z.eq_dec
              (processed_count
                 (fst (snd (Main.main cfg f_quota f_select ios now today db))))
              0) as [Hz|Hz].
  - lia.
  - assert (Hp : 0 < processed_count
                       (fst (snd (Main.main cfg f_quota f_select ios now
                                    today db)))) by lia.
    destruct (W Hp) as (s'' & Hf'' & Hle'').
    rewrite Hf' in Hf''. inversion Hf''; subst. exact Hle''.
Qed.

Lemma run_all_advances (today : Date) (runs : list Run) :
  forall (db : Db) (s : Schedule),
    schedule_constraints (email_schedule db) ->
    find_schedule today (email_schedule db) = Some s ->
    emails_sent s <= emails_limit s ->
    advanced today s (snd (run_all today runs db)) (fst (run_all today runs db))
    /\ 0 <= snd (run_all today runs db).
Proof.
  induction runs as [|r runs IH]; intros db s Hc Hf Hle.
  - simpl. split; [|lia]. split; [exact Hc|]. exists s.
    split; [exact Hf|]. split; [reflexivity|]. split; lia.
  - cbn [run_all].
    assert (H1 : advanced today s (snd (run_one today r db))
                          (fst (run_one today r db))
                 /\ 0 <= snd (run_one today r db)).
    { destruct r as [cfg f_quota f_select ios now|sf ios now];
        cbn [run_one fst snd].
      - split; [now apply main_advances|apply processed_count_bounds].
      - split; [now apply execute_advances|apply sent_count_bounds]. }
    destruct (run_one today r db) as [db1 n]. cbn [fst snd] in H1.
    destruct H1 as [(C1 & s1 & Hf1 & Hl1 & Hn1 & Hle1) Hpos1].
    destruct (IH db1 s1 C1 Hf1 Hle1) as [(C2 & s2 & Hf2 & Hl2 & Hn2 & Hle2) Hpos2].
    destruct (run_all today runs db1) as [db2 m]. cbn [fst snd] in *.
    split; [|lia]. split; [exact C2|]. exists s2.
    split; [exact Hf2|]. split; [lia|]. split; lia.
Qed.

End RunsOfADay.

(** The daily limit holds across runs.  Start from a day whose row is
    within its limit, the constraints of the schedule table holding.
    After any sequence of runs of [main] and of the daily workflow on that
    day, in any order and whatever the collaborators and the store answer,
    the row has the same limit, its counter has advanced by exactly the
    number of emails the runs report (companies logged as processed,
    results with status [sent]), and the counter is within the limit: the
    two orchestrators together never count more emails than the day
    allows. *)
Theorem daily_limit_holds_across_runs :
  forall (today : Date) (runs : list Run) (db : Db) (s : Schedule),
    schedule_constraints (email_schedule db) ->
    EmailSchedule.find_schedule today (email_schedule db) = Some s ->
    emails_sent s <= emails_limit s ->
    exists s',
      EmailSchedule.find_schedule today
        (email_schedule (fst (run_all today runs db))) = Some s'
      /\ emails_limit s' = emails_limit s
      /\ emails_sent s' = emails_sent s + snd (run_all today runs db)
      /\ emails_sent s + snd (run_all today runs db) <= emails_limit s
      /\ 0 <= snd (run_all today runs db).
Proof.
  intros today runs db s Hc Hf Hle.
  destruct (run_all_advances today runs db s Hc Hf Hle)
    as [(_ & s' & Hf' & Hl & Hn & Hle') Hpos].
  exists s'. split; [exact Hf'|]. split; [exact Hl|]. split; [exact Hn|].
  split; [lia|exact Hpos].
Qed.

Lemma daily_limit_holds_across_runs_witness :
  exists s',
    EmailSchedule.find_schedule sample_day
      (email_schedule
         (fst (run_all sample_day
                 [ WorkflowRun DailyWorkflow.no_setup_faults workflow_ios 30;
                   MainRun sample_config no_faults in_stored_order (fun _ => all_fine) 40;
                   MainRun sample_config no_faults in_stored_order (fun _ => all_fine) 50 ]
                 five_db)))
    = Some s'
    /\ emails_sent s' = 2 /\ emails_limit s' = 2.
Proof.
  assert (Hc : schedule_constraints (email_schedule five_db)).
  { split; simpl; repeat constructor; intros []. }
  destruct (daily_limit_holds_across_runs sample_day
              [ WorkflowRun DailyWorkflow.no_setup_faults workflow_ios 30;
                MainRun sample_config no_faults in_stored_order (fun _ => all_fine) 40;
                MainRun sample_config no_faults in_stored_order (fun _ => all_fine) 50 ]
              five_db sample_schedule Hc eq_refl)
    as (s' & Hf & Hl & Hn & _).
  - simpl. lia.
  - exists s'. split; [exact Hf|].
    assert (Hruns : snd (run_all sample_day
                       [ WorkflowRun DailyWorkflow.no_setup_faults workflow_ios 30;
                         MainRun sample_config no_faults in_stored_order (fun _ => all_fine) 40;
                         MainRun sample_config no_faults in_stored_order (fun _ => all_fine) 50 ]
                       five_db) = 2) by (vm_compute; reflexivity).
    rewrite Hruns in Hn. split; [exact Hn|exact Hl].
Defined.
